(** * sourcegraph-typescript: the LSP conversion helpers and the
      WebSocket-to-language-server proxy

    A shallow embedding of [extension/src/lsp-conversion.ts] (the hover
    conversion) and of the proxy server that follows it in the same source
    unit (URI rewriting, cleanup lists, the per-connection message handlers),
    together with the properties the specification states about them.

    Conventions.
    - JavaScript strings of the proxy are [string]s (sequences of bytes; the
      URL and path functions only inspect ASCII delimiters).  The hover
      conversion calls [String.prototype.trim], whose white space set is not
      ASCII only, so that module works on UTF-16 code units.
    - A JavaScript exception is the [Throw] outcome of a computation.
    - Effects (process spawn, writes to either peer, logging, spans, calls
      to the file system, the network and child processes) are events; a
      handler computation returns its outcome, the new values of the
      connection's variables and the events it emitted, in order.
    - What the handlers obtain from outside (the [URL] constructor,
      configuration, the outcome of every external call) is a parameter,
      the environment.
    - A handler is a computation run from its start to its end, and the
      tasks of a [Promise.all] run one after the other.  The handling of
      [initialize] and the close handler await; a session in which a message
      or the close arrives during such a wait is not described by putting
      handlers one after the other, and the properties on whole sessions
      name the sessions they are about.
    - The classes of the [sourcegraph] extension API are not part of the
      repository; [Position] and [Range] are embedded as the API has them
      ([Position] refuses a negative number, [Range] puts its ends in
      order).
    - The platform is POSIX: [path] is [path.posix]. *)

From Stdlib Require Import ZArith NArith String Ascii List Bool Lia.
From stdpp Require Import base option list strings gmap.

Local Open Scope string_scope.
Local Open Scope list_scope.

(* ===================================================================== *)
(** ** Hover conversion ([convertRange], [convertHover])                  *)
(* ===================================================================== *)

Module Hover.

(** UTF-16 code units. *)
Definition jstring : Type := list N.

Definition lit (s : string) : jstring :=
  map N_of_ascii (list_ascii_of_string s).

(** ECMAScript WhiteSpace and LineTerminator code points, the set
    [String.prototype.trim] strips. *)
Definition is_ws (c : N) : bool :=
  ((9 <=? c) && (c <=? 13) || (c =? 32) || (c =? 160) || (c =? 5760)
   || (8192 <=? c) && (c <=? 8202) || (c =? 8232) || (c =? 8233)
   || (c =? 8239) || (c =? 8287) || (c =? 12288) || (c =? 65279))%N.

Fixpoint trimStart (s : jstring) : jstring :=
  match s with
  | c :: s' => if is_ws c then trimStart s' else s
  | [] => []
  end.

Definition trimEnd (s : jstring) : jstring := rev (trimStart (rev s)).

Definition trim (s : jstring) : jstring := trimEnd (trimStart s).

(** [!!str]: a string is truthy when it is not empty. *)
Definition truthy (s : jstring) : bool :=
  match s with [] => false | _ => true end.

(** [Array.prototype.join]. *)
Fixpoint join (sep : jstring) (l : list jstring) : jstring :=
  match l with
  | [] => []
  | [x] => x
  | x :: l' => x ++ sep ++ join sep l'
  end.

Record Position := { line : Z; character : Z }.
Record Range := { start : Position; end_ : Position }.

(** [sourcegraph.Range]: its two ends, the first not after the second. *)
Record SgRange :=
  { startLine : Z; startCharacter : Z; endLine : Z; endCharacter : Z }.

(** The argument [new sourcegraph.Position] refuses with
    [illegalArgument]: a negative line, a negative character. *)
Inductive IllegalArgument := LineNegative | CharacterNegative.

(** A call that returns or throws. *)
Inductive Result (A : Type) :=
| Returns (a : A)
| Throws (e : IllegalArgument).
Arguments Returns {A} a.
Arguments Throws {A} e.

(** [new sourcegraph.Position(line, character)]. *)
Definition newPosition (line character : Z) : Result Position :=
  if (line <? 0)%Z then Throws LineNegative
  else if (character <? 0)%Z then Throws CharacterNegative
  else Returns {| line := line; character := character |}.

(** [Position.isBefore]. *)
Definition isBefore (a b : Position) : bool :=
  if (line a <? line b)%Z then true
  else if (line b <? line a)%Z then false
  else (character a <? character b)%Z.

(** [new sourcegraph.Range(startLine, startCharacter, endLine,
    endCharacter)]: both positions are built, the start first, and the
    one that is before the other becomes the start. *)
Definition newRange (startLine startCharacter endLine endCharacter : Z)
  : Result SgRange :=
  match newPosition startLine startCharacter with
  | Throws e => Throws e
  | Returns s =>
      match newPosition endLine endCharacter with
      | Throws e => Throws e
      | Returns e =>
          if isBefore s e
          then Returns {| startLine := line s; startCharacter := character s;
                          endLine := line e; endCharacter := character e |}
          else Returns {| startLine := line e; startCharacter := character e;
                          endLine := line s; endCharacter := character s |}
      end
  end.

Inductive MarkupKind := PlainText | Markdown.

(** One entry of [Hover.contents]: a [MarkupContent] (recognised by
    [MarkupContent.is]), a plain string, or a [{language, value}] pair. *)
Inductive Content :=
| CMarkup (kind : MarkupKind) (value : jstring)
| CString (s : jstring)
| CCode (language value : jstring).

Inductive Contents :=
| Single (c : Content)
| Array (cs : list Content).

Record LspHover := { contents : Contents; range : option Range }.

Record SgMarkup := { sg_kind : MarkupKind; sg_value : jstring }.
Record SgHover := { sg_range : option SgRange; sg_contents : SgMarkup }.

Definition convertRange (r : Range) : Result SgRange :=
  newRange (line (start r)) (character (start r))
           (line (end_ r)) (character (end_ r)).

(** The callback given to [contents.map]. *)
Definition renderContent (c : Content) : jstring :=
  match c with
  | CMarkup _ v => v
  | CString s => s
  | CCode l v =>
      if negb (truthy v) then []
      else lit "```" ++ l ++ lit (String "010" "") ++ v ++ lit (String "010" "```")
  end.

Definition separator : jstring :=
  lit (String "010" (String "010" ("---" ++ String "010" (String "010" "")))).

(** [hover.range && convertRange(hover.range)]. *)
Definition convertedRange (h : LspHover) : Result (option SgRange) :=
  match range h with
  | None => Returns None
  | Some r =>
      match convertRange r with
      | Returns r' => Returns (Some r')
      | Throws e => Throws e
      end
  end.

Definition convertHover (hover : option LspHover) : Result (option SgHover) :=
  match hover with
  | None => Returns None
  | Some h =>
      let cs := match contents h with Array l => l | Single c => [c] end in
      match convertedRange h with
      | Throws e => Throws e
      | Returns r =>
          Returns
            (Some {| sg_range := r;
                     sg_contents :=
                       {| sg_kind := Markdown;
                          sg_value :=
                            join separator
                              (filter (fun str => truthy (trim str) = true)
                                      (map renderContent cs)) |} |})
      end
  end.

(** *** The claim's wording, as a separate reading *)

(** "empty or whitespace-only". *)
Definition blank (s : jstring) : Prop := Forall (fun c => is_ws c = true) s.

(** How one content entry is rendered, case by case. *)
Inductive renders : Content -> jstring -> Prop :=
| r_markup k v : renders (CMarkup k v) v
| r_string s : renders (CString s) s
| r_empty l : renders (CCode l []) []
| r_code l v :
    v <> [] ->
    renders (CCode l v)
            (lit "```" ++ l ++ [10%N] ++ v ++ [10%N] ++ lit "```").

(** Keeping the entries that are not blank, in order. *)
Inductive keeps_nonblank : list jstring -> list jstring -> Prop :=
| k_nil : keeps_nonblank [] []
| k_drop s l l' : blank s -> keeps_nonblank l l' -> keeps_nonblank (s :: l) l'
| k_keep s l l' :
    ~ blank s -> keeps_nonblank l l' -> keeps_nonblank (s :: l) (s :: l').

(** Joining with the separator ["\n\n---\n\n"]. *)
Inductive joined : list jstring -> jstring -> Prop :=
| j_nil : joined [] []
| j_one s : joined [s] s
| j_more s t l r :
    joined (t :: l) r ->
    joined (s :: t :: l) (s ++ [10; 10; 45; 45; 45; 10; 10]%N ++ r).

Definition entries (h : LspHover) : list Content :=
  match contents h with Array l => l | Single c => [c] end.

(** A range without a negative line or character. *)
Definition nonNegative (r : Range) : Prop :=
  (0 <= line (start r) /\ 0 <= character (start r)
   /\ 0 <= line (end_ r) /\ 0 <= character (end_ r))%Z.

(** The range with its ends in order: as given when the start is before
    the end, and with the two ends exchanged otherwise. *)
Definition ordered (r : Range) : SgRange :=
  if isBefore (start r) (end_ r)
  then {| startLine := line (start r); startCharacter := character (start r);
          endLine := line (end_ r); endCharacter := character (end_ r) |}
  else {| startLine := line (end_ r); startCharacter := character (end_ r);
          endLine := line (start r); endCharacter := character (start r) |}.

End Hover.

(* ===================================================================== *)
(** ** Strings                                                            *)
(* ===================================================================== *)

Module Str.

(** [s.split(c)] for a one-character separator: n separators give n+1
    pieces. *)
Fixpoint splitBy (p : ascii -> bool) (s : string) : list string :=
  match s with
  | "" => [""]
  | String a s' =>
      if p a then "" :: splitBy p s'
      else match splitBy p s' with
           | x :: r => String a x :: r
           | [] => [String a ""]
           end
  end.

Definition split (c : ascii) : string -> list string := splitBy (Ascii.eqb c).

(** [l.join(sep)]. *)
Fixpoint join (sep : string) (l : list string) : string :=
  match l with
  | [] => ""
  | [x] => x
  | x :: l' => x +:+ sep +:+ join sep l'
  end.

Fixpoint startsWith (pre s : string) : bool :=
  match pre, s with
  | "", _ => true
  | String a pre', String b s' => Ascii.eqb a b && startsWith pre' s'
  | _, _ => false
  end.

Definition rev (s : string) : string :=
  string_of_list_ascii (List.rev (list_ascii_of_string s)).

Definition endsWith (suf s : string) : bool := startsWith (rev suf) (rev s).

(** [s.replace(/c/g, d)] for single characters. *)
Fixpoint replaceAll (c d : ascii) (s : string) : string :=
  match s with
  | "" => ""
  | String a s' => String (if Ascii.eqb a c then d else a) (replaceAll c d s')
  end.

(** [s.replace(/c/g, r)] for a single character and a replacement string. *)
Fixpoint replaceAllStr (c : ascii) (r : string) (s : string) : string :=
  match s with
  | "" => ""
  | String a s' =>
      (if Ascii.eqb a c then r else String a "") +:+ replaceAllStr c r s'
  end.

Fixpoint filterChars (p : ascii -> bool) (s : string) : string :=
  match s with
  | "" => ""
  | String a s' => if p a then String a (filterChars p s') else filterChars p s'
  end.

Fixpoint forallb (p : ascii -> bool) (s : string) : bool :=
  match s with
  | "" => true
  | String a s' => p a && forallb p s'
  end.

(** [s.substr(1)]. *)
Definition substr1 (s : string) : string :=
  match s with "" => "" | String _ s' => s' end.

Definition isEmpty (s : string) : bool :=
  match s with "" => true | _ => false end.

End Str.

(* ===================================================================== *)
(** ** Node's [path] module (POSIX flavour)                               *)
(* ===================================================================== *)

Module Path.

(** [normalizeStringPosix], read on the segments between slashes: empty
    and [.] segments are skipped, [..] removes the last kept segment
    unless that is itself [..] or nothing is kept, in which case it is
    kept only when [allowAboveRoot].  [res] is the kept list, last
    segment first. *)
Fixpoint normalizeSegments (allowAboveRoot : bool) (res segs : list string)
  : list string :=
  match segs with
  | [] => List.rev res
  | s :: segs' =>
      if (s =? "")%string || (s =? ".")%string then
        normalizeSegments allowAboveRoot res segs'
      else if (s =? "..")%string then
        match res with
        | last :: res' =>
            if (last =? "..")%string then
              normalizeSegments allowAboveRoot
                (if allowAboveRoot then ".." :: res else res) segs'
            else normalizeSegments allowAboveRoot res' segs'
        | [] =>
            normalizeSegments allowAboveRoot
              (if allowAboveRoot then [".."] else []) segs'
        end
      else normalizeSegments allowAboveRoot (s :: res) segs'
  end.

Definition normalizeString (path : string) (allowAboveRoot : bool) : string :=
  Str.join "/" (normalizeSegments allowAboveRoot [] (Str.split "/" path)).

Definition isAbsolute (path : string) : bool := Str.startsWith "/" path.

Definition normalize (path : string) : string :=
  if Str.isEmpty path then "."
  else
    let absolute := isAbsolute path in
    let trailingSeparator := Str.endsWith "/" path in
    let p := normalizeString path (negb absolute) in
    let p := if Str.isEmpty p && negb absolute then "." else p in
    let p := if negb (Str.isEmpty p) && trailingSeparator then p +:+ "/" else p in
    if absolute then "/" +:+ p else p.

Definition join (args : list string) : string :=
  match List.filter (fun a => negb (Str.isEmpty a)) args with
  | [] => "."
  | parts => normalize (Str.join "/" parts)
  end.

(** [path.resolve(p)] with one argument; [cwd] is [process.cwd()]. *)
Definition resolve (cwd p : string) : string :=
  let '(resolvedPath, resolvedAbsolute) :=
    if Str.isEmpty p then (cwd +:+ "/", isAbsolute cwd)
    else if isAbsolute p then (p +:+ "/", true)
    else (cwd +:+ "/" +:+ p +:+ "/", isAbsolute cwd) in
  let resolvedPath := normalizeString resolvedPath (negb resolvedAbsolute) in
  if resolvedAbsolute then "/" +:+ resolvedPath
  else if Str.isEmpty resolvedPath then "." else resolvedPath.

Fixpoint stripCommon (a b : list string) : list string * list string :=
  match a, b with
  | x :: a', y :: b' => if (x =? y)%string then stripCommon a' b' else (a, b)
  | _, _ => (a, b)
  end.

Definition segments (p : string) : list string :=
  List.filter (fun s => negb (Str.isEmpty s)) (Str.split "/" p).

(** [path.relative(from, to)]: both paths are resolved, their common
    leading segments dropped, and one [..] is emitted per remaining
    segment of [from], followed by the remaining segments of [to]. *)
Definition relative (cwd from to : string) : string :=
  if (from =? to)%string then ""
  else
    let from := resolve cwd from in
    let to := resolve cwd to in
    if (from =? to)%string then ""
    else
      let '(f, t) := stripCommon (segments from) (segments to) in
      Str.join "/" (List.map (fun _ => "..") f ++ t).

(** [path.dirname]: the scan runs from the last character down to index
    1, skips trailing slashes and stops at the first slash that follows a
    character other than a slash. *)
Fixpoint dirnameEnd (matchedSlash : bool) (revTail : list ascii) : option nat :=
  match revTail with
  | [] => None
  | c :: r =>
      if Ascii.eqb c "/" then
        if matchedSlash then dirnameEnd true r else Some (S (length r))
      else dirnameEnd false r
  end.

Definition dirname (path : string) : string :=
  match path with
  | "" => "."
  | String c0 tl =>
      let hasRoot := Ascii.eqb c0 "/" in
      match dirnameEnd true (List.rev (list_ascii_of_string tl)) with
      | None => if hasRoot then "/" else "."
      | Some e =>
          if hasRoot && (e =? 1)%nat then "//"
          else string_of_list_ascii (take e (list_ascii_of_string path))
      end
  end.

End Path.

(* ===================================================================== *)
(** ** WHATWG URL records and Node's [url] helpers                        *)
(* ===================================================================== *)

Module Url.

Record Host := { userinfo : string; hostname : string; port : string }.

(** A parsed URL.  [host = None] is the null host; [opaque] marks a URL
    whose path is an opaque string; [query] and [fragment] are [None]
    when null. *)
Record URL :=
  { protocol : string;
    host : option Host;
    opaque : bool;
    pathname : string;
    query : option string;
    fragment : option string }.

Definition url_hostname (u : URL) : string :=
  match host u with Some h => hostname h | None => "" end.

(** The [hash] getter: empty when the fragment is null or empty. *)
Definition hash (u : URL) : string :=
  match fragment u with
  | Some f => if Str.isEmpty f then "" else "#" +:+ f
  | None => ""
  end.

Definition serializeHost (h : Host) : string :=
  (if Str.isEmpty (userinfo h) then "" else userinfo h +:+ "@")
  +:+ hostname h
  +:+ (if Str.isEmpty (port h) then "" else ":" +:+ port h).

(** The URL serializer, [href]. *)
Definition href (u : URL) : string :=
  protocol u
  +:+ match host u with Some h => "//" +:+ serializeHost h | None => "" end
  +:+ pathname u
  +:+ match query u with Some q => "?" +:+ q | None => "" end
  +:+ match fragment u with Some f => "#" +:+ f | None => "" end.

Definition isSpecial (proto : string) : bool :=
  existsb (String.eqb proto) ["http:"; "https:"; "file:"; "ftp:"; "ws:"; "wss:"].

(** *** Percent-encoding *)

Definition hexDigit (n : N) : ascii :=
  nth (N.to_nat n) (list_ascii_of_string "0123456789ABCDEF") "0"%char.

Definition percentEncodeByte (c : ascii) : string :=
  let n := N_of_ascii c in
  String "%" (String (hexDigit (n / 16)) (String (hexDigit (n mod 16)) "")).

Definition oneOf (cs : string) (c : ascii) : bool :=
  existsb (Ascii.eqb c) (list_ascii_of_string cs).

Definition inC0ControlSet (c : ascii) : bool :=
  ((N_of_ascii c <? 32) || (126 <? N_of_ascii c))%N.

Definition inFragmentSet (c : ascii) : bool :=
  inC0ControlSet c || oneOf (String "034" " <>`") c.

Definition inQuerySet (c : ascii) : bool :=
  inC0ControlSet c || oneOf (String "034" " #<>") c.

Definition inPathSet (c : ascii) : bool :=
  inQuerySet c || oneOf "?`{}" c.

Fixpoint percentEncode (set : ascii -> bool) (s : string) : string :=
  match s with
  | "" => ""
  | String c s' =>
      (if set c then percentEncodeByte c else String c "")
      +:+ percentEncode set s'
  end.

(** The parser first removes every ASCII tab or newline. *)
Definition stripTabNewline (s : string) : string :=
  Str.filterChars
    (fun c => negb (oneOf (String "009" (String "010" (String "013" ""))) c)) s.

(** *** The path state of the URL parser *)

Definition isSingleDot (s : string) : bool :=
  existsb (String.eqb s) ["."; "%2e"; "%2E"].

Definition isDoubleDot (s : string) : bool :=
  existsb (String.eqb s)
    [".."; ".%2e"; ".%2E"; "%2e."; "%2E."; "%2e%2e"; "%2e%2E"; "%2E%2e"; "%2E%2E"].

Definition isAlpha (c : ascii) : bool :=
  let n := N_of_ascii c in
  ((65 <=? n) && (n <=? 90) || (97 <=? n) && (n <=? 122))%N.

Definition isWindowsDriveLetter (s : string) : bool :=
  match s with
  | String a (String b "") => isAlpha a && oneOf ":|" b
  | _ => false
  end.

Definition isNormalizedWindowsDriveLetter (s : string) : bool :=
  match s with
  | String a (String b "") => isAlpha a && Ascii.eqb b ":"
  | _ => false
  end.

Definition normalizeDriveLetter (s : string) : string :=
  match s with
  | String a (String _ "") => String a ":"
  | _ => s
  end.

(** "Shorten a URL's path"; the path is kept last segment first. *)
Definition shorten (file : bool) (path : list string) : list string :=
  match path with
  | [d] => if file && isNormalizedWindowsDriveLetter d then path else []
  | _ :: p => p
  | [] => []
  end.

(** The path state, one input segment at a time; the last segment is the
    one ended by the end of the input. *)
Fixpoint pathState (file : bool) (path segs : list string) : list string :=
  match segs with
  | [] => List.rev path
  | s :: rest =>
      let last := match rest with [] => true | _ => false end in
      let buffer := percentEncode inPathSet s in
      let path' :=
        if isDoubleDot buffer then
          let p := shorten file path in if last then "" :: p else p
        else if isSingleDot buffer then
          if last then "" :: path else path
        else
          (if file && match path with [] => true | _ => false end
              && isWindowsDriveLetter buffer
           then normalizeDriveLetter buffer else buffer) :: path in
      pathState file path' rest
  end.

Definition serializePath (path : list string) : string :=
  String.concat "" (List.map (fun s => "/" +:+ s) path).

(** The [pathname] setter: the value is parsed from the path start state
    with the URL's path emptied first. *)
Definition set_pathname (u : URL) (value : string) : URL :=
  if opaque u then u
  else
    let input := stripTabNewline value in
    let special := isSpecial (protocol u) in
    let isSep c := Ascii.eqb c "/" || (special && Ascii.eqb c "\") in
    let file := (protocol u =? "file:")%string in
    let path :=
      match input with
      | "" =>
          if special then pathState file [] [""]
          else match host u with None => [""] | Some _ => [] end
      | String c r =>
          pathState file [] (Str.splitBy isSep (if isSep c then r else input))
      end in
    {| protocol := protocol u; host := host u; opaque := false;
       pathname := serializePath path; query := query u;
       fragment := fragment u |}.

(** The [hash] setter. *)
Definition set_hash (u : URL) (value : string) : URL :=
  let frag :=
    match value with
    | "" => None
    | String c r =>
        let input := if Ascii.eqb c "#" then r else value in
        Some (percentEncode inFragmentSet (stripTabNewline input))
    end in
  {| protocol := protocol u; host := host u; opaque := opaque u;
     pathname := pathname u; query := query u; fragment := frag |}.

(** *** [decodeURIComponent] *)

Definition hexVal (c : ascii) : option N :=
  let n := N_of_ascii c in
  if ((48 <=? n) && (n <=? 57))%N then Some (n - 48)%N
  else if ((65 <=? n) && (n <=? 70))%N then Some (n - 55)%N
  else if ((97 <=? n) && (n <=? 102))%N then Some (n - 87)%N
  else None.

(** After an escaped lead byte: how many continuation bytes follow and the
    range allowed for the first of them (well-formed UTF-8 only). *)
Definition utf8Lead (b : N) : option (nat * N * N) :=
  (if (194 <=? b) && (b <=? 223) then Some (1%nat, 128, 191)
   else if b =? 224 then Some (2%nat, 160, 191)
   else if b =? 237 then Some (2%nat, 128, 159)
   else if (225 <=? b) && (b <=? 239) then Some (2%nat, 128, 191)
   else if b =? 240 then Some (3%nat, 144, 191)
   else if (241 <=? b) && (b <=? 243) then Some (3%nat, 128, 191)
   else if b =? 244 then Some (3%nat, 128, 143)
   else None)%N.

(** [need] continuation escapes are still owed, the next one within
    [lo..hi].  [None] is the [URIError]. *)
Fixpoint decodeFrom (need : nat) (lo hi : N) (s : string) : option string :=
  match s with
  | "" => match need with O => Some "" | S _ => None end
  | String c rest =>
      if Ascii.eqb c "%" then
        match rest with
        | String h1 (String h2 rest') =>
            match hexVal h1, hexVal h2 with
            | Some a, Some b =>
                let byte := (16 * a + b)%N in
                match need with
                | O =>
                    if (byte <? 128)%N then
                      String (ascii_of_N byte) <$> decodeFrom O 0 0 rest'
                    else
                      match utf8Lead byte with
                      | Some (k, lo', hi') =>
                          String (ascii_of_N byte) <$> decodeFrom k lo' hi' rest'
                      | None => None
                      end
                | S k =>
                    if ((lo <=? byte) && (byte <=? hi))%N then
                      String (ascii_of_N byte) <$> decodeFrom k 128 191 rest'
                    else None
                end
            | _, _ => None
            end
        | _ => None
        end
      else
        match need with
        | O => String c <$> decodeFrom O 0 0 rest
        | S _ => None
        end
  end.

Definition decodeURIComponent (s : string) : option string := decodeFrom O 0 0 s.

(** *** [fileURLToPath] and [pathToFileURL] *)

Inductive FileUrlError :=
| ERR_INVALID_URL_SCHEME
| ERR_INVALID_FILE_URL_HOST
| ERR_INVALID_FILE_URL_PATH
| URIError.

(** Whether the pathname holds an encoded slash, [%2f] or [%2F]. *)
Fixpoint hasEncodedSlash (s : string) : bool :=
  match s with
  | "" => false
  | String c rest =>
      (Ascii.eqb c "%"
       && match rest with
          | String d (String e _) => Ascii.eqb d "2" && oneOf "fF" e
          | _ => false
          end)
      || hasEncodedSlash rest
  end.

Definition fileURLToPath (u : URL) : FileUrlError + string :=
  if negb (protocol u =? "file:")%string then inl ERR_INVALID_URL_SCHEME
  else if negb (Str.isEmpty (url_hostname u)) then inl ERR_INVALID_FILE_URL_HOST
  else if hasEncodedSlash (pathname u) then inl ERR_INVALID_FILE_URL_PATH
  else match decodeURIComponent (pathname u) with
       | Some p => inr p
       | None => inl URIError
       end.

(** [new URL('file://')]. *)
Definition emptyFileURL : URL :=
  {| protocol := "file:";
     host := Some {| userinfo := ""; hostname := ""; port := "" |};
     opaque := false; pathname := "/"; query := None; fragment := None |}.

Definition pathToFileURL (cwd filepath : string) : URL :=
  let resolved := Path.resolve cwd filepath in
  let resolved :=
    if Str.endsWith "/" filepath && negb (Str.endsWith "/" resolved)
    then resolved +:+ "/" else resolved in
  let resolved := Str.replaceAllStr "%" "%25" resolved in
  let resolved := Str.replaceAllStr "\" "%5C" resolved in
  let resolved := Str.replaceAllStr "010" "%0A" resolved in
  let resolved := Str.replaceAllStr "013" "%0D" resolved in
  let resolved := Str.replaceAllStr "009" "%09" resolved in
  set_pathname emptyFileURL resolved.

End Url.

(* ===================================================================== *)
(** ** JSON values and JSON-RPC messages                                  *)
(* ===================================================================== *)

Module Json.

(** A parsed JSON value.  Numbers are integers here; the keys of an
    object are distinct and kept in insertion order. *)
#[local] Unset Elimination Schemes.
Inductive json :=
| JNull
| JBool (b : bool)
| JNum (n : Z)
| JStr (s : string)
| JArr (items : list json)
| JObj (fields : list (string * json)).
#[local] Set Elimination Schemes.

(** Induction on a value, with the induction hypothesis for every
    element of an array and every value of an object. *)
Section JsonInduction.
Variable P : json -> Prop.
Hypothesis Hnull : P JNull.
Hypothesis Hbool : forall b, P (JBool b).
Hypothesis Hnum : forall n, P (JNum n).
Hypothesis Hstr : forall s, P (JStr s).
Hypothesis Harr : forall l, Forall P l -> P (JArr l).
Hypothesis Hobj : forall fs, Forall (fun kv => P (snd kv)) fs -> P (JObj fs).

Fixpoint json_induction (v : json) : P v :=
  match v with
  | JNull => Hnull
  | JBool b => Hbool b
  | JNum n => Hnum n
  | JStr s => Hstr s
  | JArr l =>
      Harr l ((fix all (l : list json) : Forall P l :=
                 match l with
                 | [] => @List.Forall_nil _ P
                 | x :: r => @List.Forall_cons _ P x r (json_induction x) (all r)
                 end) l)
  | JObj fs =>
      Hobj fs ((fix all (fs : list (string * json))
                  : Forall (fun kv => P (snd kv)) fs :=
                  match fs with
                  | [] => @List.Forall_nil _ _
                  | kv :: r =>
                      @List.Forall_cons _ (fun kv => P (snd kv)) kv r
                        (json_induction (snd kv)) (all r)
                  end) fs)
  end.
End JsonInduction.

(** [obj[k]] on the fields of an object; [None] is [undefined]. *)
Fixpoint obj_get (k : string) (fields : list (string * json)) : option json :=
  match fields with
  | [] => None
  | (k', v) :: r => if (k' =? k)%string then Some v else obj_get k r
  end.

(** [obj[k] = v]: an existing key keeps its place, a new one goes last. *)
Fixpoint obj_set (k : string) (v : json) (fields : list (string * json))
  : list (string * json) :=
  match fields with
  | [] => [(k, v)]
  | (k', v') :: r =>
      if (k' =? k)%string then (k, v) :: r else (k', v') :: obj_set k v r
  end.

(** [v.k] for a value that is neither [undefined] nor [null]. *)
Definition prop (k : string) (v : json) : option json :=
  match v with
  | JObj fields => obj_get k fields
  | _ => None
  end.

(** [!!v], [None] being [undefined]. *)
Definition truthy (v : option json) : bool :=
  match v with
  | None | Some JNull => false
  | Some (JBool b) => b
  | Some (JNum n) => negb (n =? 0)%Z
  | Some (JStr s) => negb (Str.isEmpty s)
  | Some (JArr _) | Some (JObj _) => true
  end.

Definition isString (v : option json) : bool :=
  match v with Some (JStr _) => true | _ => false end.

Definition isNumber (v : option json) : bool :=
  match v with Some (JNum _) => true | _ => false end.

(** The message predicates of [vscode-jsonrpc]. *)
Definition isRequestMessage (m : json) : bool :=
  isString (prop "method" m) && (isString (prop "id" m) || isNumber (prop "id" m)).

Definition isNotificationMessage (m : json) : bool :=
  isString (prop "method" m)
  && match prop "id" m with None => true | Some _ => false end.

Definition isResponseMessage (m : json) : bool :=
  (match prop "result" m with Some _ => true | None => false end
   || truthy (prop "error" m))
  && (isString (prop "id" m) || isNumber (prop "id" m)
      || match prop "id" m with Some JNull => true | _ => false end).

(** Message identifiers, the keys of the span map. *)
Inductive Id := IdNum (n : Z) | IdStr (s : string).

Definition idOf (v : option json) : option Id :=
  match v with
  | Some (JNum n) => Some (IdNum n)
  | Some (JStr s) => Some (IdStr s)
  | _ => None
  end.

Definition methodOf (m : json) : string :=
  match prop "method" m with Some (JStr s) => s | _ => "" end.

#[global] Instance Id_eq_dec : EqDecision Id.
Proof. solve_decision. Defined.

#[global] Instance Id_countable : Countable Id.
Proof.
  refine (inj_countable'
            (fun i => match i with IdNum n => inl n | IdStr s => inr s end)
            (fun x => match x with inl n => IdNum n | inr s => IdStr s end) _).
  intros []; reflexivity.
Defined.

End Json.

(* ===================================================================== *)
(** ** The proxy: one WebSocket connection and its language server        *)
(* ===================================================================== *)

Module Proxy.
Import Json Url.

(** *** Exceptions *)

(** A rejection or exception coming from a collaborator (file system,
    network, child process); the fields are those the handler reads. *)
Record IoError :=
  { io_message : string; io_code : option json; io_props : list (string * json) }.

Inductive JsError :=
| Error (message : string)              (* [new Error(message)] *)
| NullAccess (property : string)        (* property read on undefined or null *)
| InvalidURL (input : json)             (* [new URL] refused its argument *)
| FileUrlError (e : Url.FileUrlError)   (* thrown by [fileURLToPath] *)
| InvalidArgType (argument : string)    (* [path.relative] given undefined *)
| Rejected (e : IoError).

Inductive Outcome (A : Type) :=
| Ok (a : A)
| Throw (e : JsError).
Arguments Ok {A} a.
Arguments Throw {A} e.

Definition obind {A B} (c : Outcome A) (k : A -> Outcome B) : Outcome B :=
  match c with
  | Ok a => k a
  | Throw e => Throw e
  end.

Notation "'chk' x <- c1 ;; c2" := (obind c1 (fun x => c2))
  (at level 10, x name, c1 at level 99, c2 at level 200).

(** *** The environment

    Everything the handlers obtain from outside: the [URL] constructor
    applied to a JavaScript value, configuration, and the outcomes of the
    collaborators ([None] is success).  [describe] gives the message,
    [code] and enumerable properties of an exception raised by the
    runtime, [stackOf] the [stack] of any exception. *)
Record Env :=
  { newURL : json -> option URL;
    CACHE_DIR : string;
    cwd : string;
    uuid_v1 : nat -> string;
    lightstep : bool;
    generateTraceURL : nat -> string;
    mkdirp : string -> option IoError;
    mkdir : string -> option IoError;
    fetch : string -> string -> IoError + Z;
    decompress : string -> string -> option IoError;
    glob : string -> IoError + list string;
    filterDependencies : string -> option IoError;
    yarnInstall : string -> option IoError;
    rmfr : string -> option IoError;
    disposeServer : option IoError;
    killYarn : string -> option IoError;
    stackOf : JsError -> string;
    describe : JsError -> IoError }.

(** *** Rewriting every [uri] property *)

(** A loop over an array whose body may throw: the results in order, or
    the first exception. *)
Fixpoint forEach {A B} (f : A -> Outcome B) (l : list A) : Outcome (list B) :=
  match l with
  | [] => Ok []
  | x :: r =>
      chk y <- f x ;;
      chk r' <- forEach f r ;;
      Ok (y :: r')
  end.

(** [rewriteUris(obj, transform)].  The source assigns [obj.uri] and then
    visits every key of [obj]; the visit of the key [uri] then meets the
    string just stored and returns at once, so the walk below stores the
    new string when it reaches that key and recurses into the other
    values.  The result is the object as mutated.  (JavaScript visits
    integer-like keys before the others; the order of the visits only
    decides which exception is thrown when several values would throw.) *)
Fixpoint rewriteUris (env : Env) (transform : URL -> Outcome URL) (obj : json)
  : Outcome json :=
  match obj with
  | JObj fields =>
      chk uri' <- match obj_get "uri" fields with
                  | Some v =>
                      chk u <- match newURL env v with
                               | Some u => Ok u
                               | None => Throw (InvalidURL v)
                               end ;;
                      chk t <- transform u ;;
                      Ok (Some (JStr (href t)))
                  | None => Ok None
                  end ;;
      chk fields' <-
        forEach (fun kv =>
                   chk v' <- match uri' with
                             | Some s => if (fst kv =? "uri")%string then Ok s
                                         else rewriteUris env transform (snd kv)
                             | None => rewriteUris env transform (snd kv)
                             end ;;
                   Ok (fst kv, v'))
                fields ;;
      Ok (JObj fields')
  | JArr items =>
      chk items' <- forEach (fun v => rewriteUris env transform v) items ;;
      Ok (JArr items')
  | _ => Ok obj
  end.

(** *** Events and state *)

Inductive CleanupFn :=
| DisposeLanguageServer          (* [() => languageServerConnection.dispose()] *)
| DeleteTempDir                  (* deletes the current [tempDir] *)
| KillYarn (cwd : string).       (* kills the yarn process started in [cwd] *)

Inductive LogItem :=
| LStr (s : string)
| LList (l : list string)
| LErr (e : JsError).

Inductive Event :=
| SpawnLanguageServer                      (* [rpcServer.createServerProcess] *)
| ToLanguageServer (m : json)              (* [languageServerConnection.writer.write] *)
| ToClient (m : json)                      (* [webSocketConnection.writer.write] *)
| LoggerLog (items : list LogItem)         (* [logger.log] *)
| LoggerError (items : list LogItem)       (* [logger.error] *)
| ConsoleLog (items : list LogItem)
| ConsoleError (items : list LogItem)
| SpanStart (span : nat) (name : string) (parent : option nat)
| SpanTag (span : nat) (key : string) (value : json)
| SpanLogError (span : nat) (e : JsError)
| SpanFinish (span : nat)
| Mkdirp (path : string)
| Mkdir (path : string)
| Fetch (url path : string)
| Decompress (archive dest : string)
| Glob (cwd : string)
| FilterDependencies (packageJson : string)
| YarnInstall (cwd globalFolder cacheFolder : string)
| YarnKill (cwd : string)
| ServerDispose
| Rmfr (path : string).

(** The variables of one connection.  A span is known by its number. *)
Record State :=
  { zipRootUri : option URL;
    fileRootUri : option URL;
    tempDir : option string;
    extractPath : option string;
    globalFolderRoot : option string;
    cacheFolderRoot : option string;
    connectionCleanupFns : list CleanupFn;
    requestSpans : gmap Id nat;
    spansMade : nat;
    uuidsMade : nat }.

Definition set_zipRootUri (u : URL) (s : State) : State :=
  {| zipRootUri := Some u; fileRootUri := fileRootUri s; tempDir := tempDir s;
     extractPath := extractPath s; globalFolderRoot := globalFolderRoot s;
     cacheFolderRoot := cacheFolderRoot s;
     connectionCleanupFns := connectionCleanupFns s;
     requestSpans := requestSpans s; spansMade := spansMade s;
     uuidsMade := uuidsMade s |}.

Definition set_fileRootUri (u : URL) (s : State) : State :=
  {| zipRootUri := zipRootUri s; fileRootUri := Some u; tempDir := tempDir s;
     extractPath := extractPath s; globalFolderRoot := globalFolderRoot s;
     cacheFolderRoot := cacheFolderRoot s;
     connectionCleanupFns := connectionCleanupFns s;
     requestSpans := requestSpans s; spansMade := spansMade s;
     uuidsMade := uuidsMade s |}.

(** [tempDir = ...]; its name holds a fresh [uuid.v1()], so one more has
    been drawn. *)
Definition set_tempDir (p : string) (s : State) : State :=
  {| zipRootUri := zipRootUri s; fileRootUri := fileRootUri s; tempDir := Some p;
     extractPath := extractPath s; globalFolderRoot := globalFolderRoot s;
     cacheFolderRoot := cacheFolderRoot s;
     connectionCleanupFns := connectionCleanupFns s;
     requestSpans := requestSpans s; spansMade := spansMade s;
     uuidsMade := S (uuidsMade s) |}.

Definition set_folders (extract cache global : string) (s : State) : State :=
  {| zipRootUri := zipRootUri s; fileRootUri := fileRootUri s; tempDir := tempDir s;
     extractPath := Some extract; globalFolderRoot := Some global;
     cacheFolderRoot := Some cache;
     connectionCleanupFns := connectionCleanupFns s;
     requestSpans := requestSpans s; spansMade := spansMade s;
     uuidsMade := uuidsMade s |}.

Definition set_cleanupFns (l : list CleanupFn) (s : State) : State :=
  {| zipRootUri := zipRootUri s; fileRootUri := fileRootUri s; tempDir := tempDir s;
     extractPath := extractPath s; globalFolderRoot := globalFolderRoot s;
     cacheFolderRoot := cacheFolderRoot s;
     connectionCleanupFns := l;
     requestSpans := requestSpans s; spansMade := spansMade s;
     uuidsMade := uuidsMade s |}.

Definition set_requestSpans (m : gmap Id nat) (s : State) : State :=
  {| zipRootUri := zipRootUri s; fileRootUri := fileRootUri s; tempDir := tempDir s;
     extractPath := extractPath s; globalFolderRoot := globalFolderRoot s;
     cacheFolderRoot := cacheFolderRoot s;
     connectionCleanupFns := connectionCleanupFns s;
     requestSpans := m; spansMade := spansMade s;
     uuidsMade := uuidsMade s |}.

Definition bump_spans (s : State) : State :=
  {| zipRootUri := zipRootUri s; fileRootUri := fileRootUri s; tempDir := tempDir s;
     extractPath := extractPath s; globalFolderRoot := globalFolderRoot s;
     cacheFolderRoot := cacheFolderRoot s;
     connectionCleanupFns := connectionCleanupFns s;
     requestSpans := requestSpans s; spansMade := S (spansMade s);
     uuidsMade := uuidsMade s |}.

(** *** The handler monad: state, events written, exceptions *)

Definition M (A : Type) : Type := State -> Outcome A * State * list Event.

Definition ret {A} (a : A) : M A := fun s => (Ok a, s, []).

Definition throw {A} (e : JsError) : M A := fun s => (Throw e, s, []).

Definition bind {A B} (c : M A) (k : A -> M B) : M B :=
  fun s =>
    match c s with
    | (Ok a, s1, t1) => let '(r, s2, t2) := k a s1 in (r, s2, t1 ++ t2)
    | (Throw e, s1, t1) => (Throw e, s1, t1)
    end.

Notation "'do' x <- c1 ;; c2" := (bind c1 (fun x => c2))
  (at level 10, x name, c1 at level 99, c2 at level 200).

Definition emit (e : Event) : M unit := fun s => (Ok tt, s, [e]).

Definition get : M State := fun s => (Ok s, s, []).

Definition modify (f : State -> State) : M unit := fun s => (Ok tt, f s, []).

Definition lift {A} (o : Outcome A) : M A := fun s => (o, s, []).

(** [try { c } catch (err) { h err }]. *)
Definition tryCatch {A} (c : M A) (h : JsError -> M A) : M A :=
  fun s =>
    match c s with
    | (Ok a, s1, t1) => (Ok a, s1, t1)
    | (Throw e, s1, t1) => let '(r, s2, t2) := h e s1 in (r, s2, t1 ++ t2)
    end.

(** [try { c } finally { f }], for an [f] that does not throw. *)
Definition tryFinally {A} (c : M A) (f : M unit) : M A :=
  fun s =>
    match c s with
    | (r, s1, t1) => let '(_, s2, t2) := f s1 in (r, s2, t1 ++ t2)
    end.

Definition when (b : bool) (c : M unit) : M unit := if b then c else ret tt.

(** A call to a collaborator: the call is recorded, then it succeeds or
    rejects. *)
Definition call (e : Event) (result : option IoError) : M unit :=
  do _ <- emit e ;;
  match result with
  | None => ret tt
  | Some err => throw (Rejected err)
  end.

(** [await Promise.all(cs)]: every computation is started; the result is
    the list of results, or the first rejection in list order. *)
Fixpoint promiseAll {A} (cs : list (M A)) : M (list A) :=
  match cs with
  | [] => ret []
  | c :: cs' =>
      do r <- tryCatch (do a <- c ;; ret (Ok a)) (fun e => ret (Throw e)) ;;
      do rs <- tryCatch (do l <- promiseAll cs' ;; ret (Ok l)) (fun e => ret (Throw e)) ;;
      match r, rs with
      | Ok a, Ok l => ret (a :: l)
      | Throw e, _ => throw e
      | Ok _, Throw e => throw e
      end
  end.

(** [Array.prototype.push] and [Array.prototype.unshift]. *)
Definition push {A} (x : A) (l : list A) : list A := l ++ [x].
Definition unshift {A} (x : A) (l : list A) : list A := x :: l.

Section Handlers.

Variable env : Env.

Definition nl : string := String "010" "".

Definition logger_log (items : list LogItem) : M unit := emit (LoggerLog items).
Definition logger_error (items : list LogItem) : M unit := emit (LoggerError items).

(** **** Spans *)

(** [new Span()]: a span that belongs to no trace. *)
Definition newSpan : M nat := fun s => (Ok (spansMade s), bump_spans s, []).

Definition startSpan (name : string) (parent : option nat) : M nat :=
  do span <- newSpan ;;
  do _ <- emit (SpanStart span name parent) ;;
  ret span.

Definition setTag (span : nat) (key : string) (value : json) : M unit :=
  emit (SpanTag span key value).

(** Modelled from the spec: [tracePromise] of [./tracing] is not part of
    this source unit.  The spec treats tracing as a library call around
    the traced step: the operation runs in a child span, a failure is
    recorded on that span and propagated, and the span is finished
    either way. *)
Definition tracePromise {A} (name : string) (span : nat) (operation : nat -> M A)
  : M A :=
  do child <- startSpan name (Some span) ;;
  tryFinally
    (tryCatch (operation child)
       (fun err =>
          do _ <- setTag child "error" (JBool true) ;;
          do _ <- emit (SpanLogError child err) ;;
          throw err))
    (emit (SpanFinish child)).

(** **** The two rewrite rules *)

Definition construct (v : json) : Outcome URL :=
  match newURL env v with
  | Some u => Ok u
  | None => Throw (InvalidURL v)
  end.

Definition transformZipToFileUri (st : State) (zipUri : URL) : Outcome URL :=
  match fileRootUri st with
  | None => Throw (NullAccess "href")
  | Some root =>
      chk fileUri <- construct (JStr (href root)) ;;
      Ok (set_pathname fileUri
            (Path.join [pathname root; Str.substr1 (hash zipUri)]))
  end.

Definition transformFileToZipUri (st : State) (fileUri : URL) : Outcome URL :=
  match fileURLToPath fileUri with
  | inl e => Throw (FileUrlError e)
  | inr filePath =>
      match zipRootUri st with
      | None => Throw (NullAccess "href")
      | Some root =>
          chk zipUri <- construct (JStr (href root)) ;;
          match extractPath st with
          | None => Throw (InvalidArgType "from")
          | Some extractPath =>
              Ok (set_hash zipUri
                    (Str.replaceAll "\" "/"
                       (Path.relative (cwd env) extractPath filePath)))
          end
      end
  end.

(** **** The error response of the catch block *)

Definition view (err : JsError) : IoError :=
  match err with
  | Error m => {| io_message := m; io_code := None; io_props := [] |}
  | Rejected e => e
  | _ => describe env err
  end.

(** [ErrorCodes.UnknownErrorCode]. *)
Definition UnknownErrorCode : Z := (-32001)%Z.

Definition errResponse (message : json) (err : JsError) : json :=
  JObj
    [("jsonrpc", JStr "2.0");
     ("id", match prop "id" message with Some v => v | None => JNull end);
     ("error",
      JObj
        [("message", JStr (io_message (view err)));
         ("code",
          match io_code (view err) with
          | Some (JNum n) => JNum n
          | _ => JNum UnknownErrorCode
          end);
         ("data",
          JObj (fold_left (fun fs kv => obj_set (fst kv) (snd kv) fs)
                  (io_props (view err))
                  [("stack", JStr (stackOf env err))]))])].

(** The catch block.  The logger also receives the message object (as
    mutated so far), which the event leaves out. *)
Definition onError (span : nat) (message : json) (err : JsError) : M unit :=
  do _ <- setTag span "error" (JBool true) ;;
  do _ <- emit (SpanLogError span err) ;;
  do _ <- logger_error [LStr ("Error handling message" +:+ nl); LStr nl; LErr err] ;;
  when (isRequestMessage message) (emit (ToClient (errResponse message err))).

(** **** Intercepting [initialize] *)

(** [params.k], which throws when [params] is undefined or null. *)
Definition paramsProp (params : option json) (k : string) : Outcome (option json) :=
  match params with
  | None | Some JNull => Throw (NullAccess k)
  | Some v => Ok (prop k v)
  end.

(** [v.length > 1] for a truthy [v].  [InitializeParams] makes [v] an
    array; a string has its length; an object is read through a numeric
    [length] property (one that is not a number is taken as not greater
    than one, the coercions of [>] being left out). *)
Definition lengthGreaterThanOne (v : json) : bool :=
  match v with
  | JArr l => (1 <? length l)%nat
  | JStr s => (1 <? String.length s)%nat
  | JObj fs =>
      match obj_get "length" fs with
      | Some (JNum n) => (1 <? n)%Z
      | _ => false
      end
  | _ => false
  end.

Definition tooManyFolders (workspaceFolders : option json) : bool :=
  truthy workspaceFolders
  && match workspaceFolders with
     | Some v => lengthGreaterThanOne v
     | None => false
     end.

(** One element of the [packageJsonPaths.map(...)] given to
    [Promise.all]. *)
Definition installPackage (span : nat) (extractPath globalFolderRoot cacheFolderRoot : string)
    (relPackageJsonPath : string) : M unit :=
  tryCatch
    (tracePromise "Install dependencies for package" span (fun span =>
       do _ <- setTag span "packageJsonPath" (JStr relPackageJsonPath) ;;
       let absPackageJsonPath := Path.join [extractPath; relPackageJsonPath] in
       do _ <- call (FilterDependencies absPackageJsonPath)
                    (filterDependencies env absPackageJsonPath) ;;
       let relPackageJsonDirName := Path.dirname relPackageJsonPath in
       let globalFolder := Path.join [globalFolderRoot; relPackageJsonDirName] in
       let cacheFolder := Path.join [cacheFolderRoot; relPackageJsonDirName] in
       let cwd := Path.join [extractPath; relPackageJsonDirName] in
       do _ <- promiseAll
                 [call (Mkdirp (Path.join [globalFolder])) (mkdirp env (Path.join [globalFolder]));
                  call (Mkdirp (Path.join [cacheFolder])) (mkdirp env (Path.join [cacheFolder]))] ;;
       do _ <- emit (YarnInstall cwd globalFolder cacheFolder) ;;
       do _ <- modify (fun s =>
                 set_cleanupFns (unshift (KillYarn cwd) (connectionCleanupFns s)) s) ;;
       match yarnInstall env cwd with
       | None => ret tt
       | Some e => throw (Rejected e)
       end))
    (fun err =>
       logger_error
         [LStr ("Installation for " +:+ relPackageJsonPath +:+ " failed"); LErr err]).

(** The tasks of one [Promise.all] are run one after the other, in list
    order; the interleaving of tasks in flight is not modelled. *)
Definition installDependencies (span : nat)
    (extractPath globalFolderRoot cacheFolderRoot : string)
    (packageJsonPaths : list string) : M unit :=
  tracePromise "Install dependencies" span (fun span =>
    do _ <- promiseAll
              (List.map (installPackage span extractPath globalFolderRoot cacheFolderRoot)
                        packageJsonPaths) ;;
    ret tt).

(** The assignments to [params] at the end of the interception; [params]
    is the object held by [message.params]. *)
Definition rewriteParams (message : json) (fileRoot : URL) (extractPath : string) : json :=
  match message with
  | JObj mfields =>
      match obj_get "params" mfields with
      | Some (JObj pfields) =>
          let pfields := obj_set "rootUri" (JStr (href fileRoot)) pfields in
          let pfields := obj_set "rootPath" (JStr extractPath) pfields in
          let pfields :=
            obj_set "workspaceFolders"
              (JArr [JObj [("name", JStr ""); ("uri", JStr (href fileRoot))]]) pfields in
          JObj (obj_set "params" (JObj pfields) mfields)
      | _ => message
      end
  | _ => message
  end.

(** The part of the interception between the checks and the
    installation: temp folders, download, extraction, search for the
    package manifests.  It returns [extractPath], [cacheFolderRoot],
    [globalFolderRoot] and [packageJsonPaths]. *)
Definition fetchWorkspace (span : nat) (zip : URL)
  : M (string * string * string * list string) :=
(* Create temp folders *)
do st <- get ;;
let tempDir :=
  Path.join [CACHE_DIR env;
             Str.replaceAll "/" "_" (url_hostname zip +:+ pathname zip)
             +:+ "_" +:+ uuid_v1 env (uuidsMade st)] in
do _ <- modify (set_tempDir tempDir) ;;
do _ <- call (Mkdirp tempDir) (mkdirp env tempDir) ;;
do _ <- modify (fun s => set_cleanupFns (push DeleteTempDir (connectionCleanupFns s)) s) ;;
let extractPath := Path.join [tempDir; "repo"] in
let cacheFolderRoot := Path.join [tempDir; "cache"] in
let globalFolderRoot := Path.join [tempDir; "global"] in
do _ <- modify (set_folders extractPath cacheFolderRoot globalFolderRoot) ;;
do _ <- promiseAll
          [call (Mkdir extractPath) (mkdir env extractPath);
           call (Mkdir cacheFolderRoot) (mkdir env cacheFolderRoot);
           call (Mkdir globalFolderRoot) (mkdir env globalFolderRoot)] ;;
(* Fetch zip and extract into temp folder *)
do _ <- logger_log [LStr "Fetching zip from"; LStr (href zip)] ;;
let archivePath := Path.join [tempDir; "archive.zip"] in
do _ <- tracePromise "Fetch source archive" span (fun span =>
          do _ <- setTag span "url" (JStr (href zip)) ;;
          do _ <- emit (Fetch (href zip) archivePath) ;;
          match fetch env (href zip) archivePath with
          | inl e => throw (Rejected e)
          | inr bytes => setTag span "bytes" (JNum bytes)
          end) ;;
do _ <- tracePromise "Extract source archive" span (fun _ =>
          call (Decompress archivePath extractPath)
               (decompress env archivePath extractPath)) ;;
(* Find package.jsons to install *)
do packageJsonPaths <- tracePromise "Find package.jsons" span (fun _ =>
          do _ <- emit (Glob extractPath) ;;
          match glob env extractPath with
          | inl e => throw (Rejected e)
          | inr l => ret l
          end) ;;
do _ <- logger_log [LStr "package.jsons found:"; LList packageJsonPaths] ;;
ret (extractPath, cacheFolderRoot, globalFolderRoot, packageJsonPaths).

(** The interception once the parameters have been checked: from
    [zipRootUri = new URL(params.rootUri)] to the assignments to
    [params]. *)
Definition materialize (span : nat) (message : json) (rootUri : json) : M json :=
  do zip <- lift (construct rootUri) ;;
  do _ <- modify (set_zipRootUri zip) ;;
  do _ <- setTag span "rootUri" (JStr (href zip)) ;;
  if negb (Str.endsWith ".zip" (pathname zip)) then
    throw (Error "rootUri must end with .zip")
  else if negb (protocol zip =? "http:")%string && negb (protocol zip =? "https:")%string then
    throw (Error "Protocol must be http or https")
  else
  do workspace <- fetchWorkspace span zip ;;
  let '(extractPath, cacheFolderRoot, globalFolderRoot, packageJsonPaths) := workspace in
(* Install dependencies *)
do _ <- installDependencies span extractPath globalFolderRoot cacheFolderRoot
          packageJsonPaths ;;
(* Rewrite HTTP zip root URI to a file URI pointing to the checkout dir *)
let fileRoot := pathToFileURL (cwd env) extractPath in
do _ <- modify (set_fileRootUri fileRoot) ;;
ret (rewriteParams message fileRoot extractPath).

Definition moreThanOneFolder : string :=
  "More than one workspace folder given. The TypeScript server only supports a single workspace folder.".

(** The body of [if (isRequestMessage(message) && message.method ===
    'initialize')]; the result is the message with its [params]
    rewritten. *)
Definition initialize (span : nat) (message : json) : M json :=
  let params := prop "params" message in
  do rootUri <- lift (paramsProp params "rootUri") ;;
  match rootUri with
  | None => throw (Error "No rootUri given as initialize parameter")
  | Some rootUri =>
      if negb (truthy (Some rootUri)) then
        throw (Error "No rootUri given as initialize parameter")
      else
        do workspaceFolders <- lift (paramsProp params "workspaceFolders") ;;
        if tooManyFolders workspaceFolders then throw (Error moreThanOneFolder)
        else materialize span message rootUri
  end.

(** **** The listener on the WebSocket *)

Definition jsonOfId (i : Id) : json :=
  match i with IdNum n => JNum n | IdStr s => JStr s end.

(** The first statements of the [try] block, none of which can throw:
    the span of the message, the entry in [requestSpans], the [rootUri]
    tag.  They are run before the rest so that the catch block can be
    given the span. *)
Definition beginSpan (message : json) : M nat :=
  do span0 <- newSpan ;;
  do span <-
    (if isRequestMessage message || isNotificationMessage message then
       do span <- startSpan ("Handle " +:+ methodOf message) None ;;
       do _ <- setTag span "method" (JStr (methodOf message)) ;;
       do _ <- (if isRequestMessage message then
                  match idOf (prop "id" message) with
                  | Some id =>
                      do _ <- setTag span "id" (jsonOfId id) ;;
                      modify (fun s =>
                        set_requestSpans (<[id := span]> (requestSpans s)) s)
                  | None => ret tt
                  end
                else ret tt) ;;
       ret span
     else ret span0) ;;
  do st <- get ;;
  do _ <- match zipRootUri st with
          | Some zip => setTag span "rootUri" (JStr (href zip))
          | None => ret tt
          end ;;
  ret span.

(** The rest of the [try] block. *)
Definition forwardToServer (span : nat) (message : json) : M unit :=
  do message <-
    (if isRequestMessage message && (methodOf message =? "initialize")%string
     then initialize span message
     else ret message) ;;
  do st <- get ;;
  do message <- lift (rewriteUris env (transformZipToFileUri st) message) ;;
(* Forward message to language server *)
emit (ToLanguageServer message).

(** [webSocketReader.listen(async message => ...)], for one message:
    the run of the handler from its start to its end, nothing else
    being handled meanwhile. *)
Definition onClientMessage (message : json) : M unit :=
  do span <- beginSpan message ;;
  tryCatch (forwardToServer span message) (onError span message).

(** **** The language server's side *)

(** The callback given to [languageServerConnection.forward]. *)
Definition onServerMessage (message : json) : M json :=
  do message <-
    (if isResponseMessage message
        && negb match prop "id" message with Some JNull => true | _ => false end
     then
       match idOf (prop "id" message) with
       | Some id =>
           do st <- get ;;
           match requestSpans st !! id with
           | Some span =>
               let message :=
                 match message with
                 | JObj fields =>
                     if lightstep env
                     then JObj (obj_set "_trace" (JStr (generateTraceURL env span)) fields)
                     else message
                 | _ => message
                 end in
               do _ <- emit (SpanFinish span) ;;
               do _ <- modify (fun s =>
                         set_requestSpans (delete id (requestSpans s)) s) ;;
               ret message
           | None => ret message
           end
       | None => ret message
       end
     else ret message) ;;
  do st <- get ;;
  lift (rewriteUris env (transformFileToZipUri st) message).

(** [forward(webSocketConnection, map)]: the mapped message is written
    to the client. *)
Definition forward (message : json) : M unit :=
  do message <- onServerMessage message ;;
  emit (ToClient message).

(** **** Connection, cleanup *)

Definition initialState : State :=
  {| zipRootUri := None; fileRootUri := None; tempDir := None;
     extractPath := None; globalFolderRoot := None; cacheFolderRoot := None;
     connectionCleanupFns := []; requestSpans := ∅; spansMade := 0;
     uuidsMade := 0 |}.

(** The body of [webSocketServer.on('connection', ...)] up to the
    registration of the handlers. *)
Definition onConnection : M unit :=
  do _ <- emit (ConsoleLog [LStr "New WebSocket connection"]) ;;
  do _ <- emit SpawnLanguageServer ;;
  modify (fun s => set_cleanupFns (push DisposeLanguageServer (connectionCleanupFns s)) s).

(** What each registered cleanup function does when called. *)
Definition runCleanupFn (f : CleanupFn) : M unit :=
  match f with
  | DisposeLanguageServer => call ServerDispose (disposeServer env)
  | DeleteTempDir =>
      do st <- get ;;
      match tempDir st with
      | Some dir =>
          do _ <- logger_log [LStr "Deleting temp dir "; LStr dir] ;;
          call (Rmfr dir) (rmfr env dir)
      | None => throw (InvalidArgType "path")
      end
  | KillYarn cwd =>
      do _ <- logger_log [LStr "Killing yarn process in "; LStr cwd] ;;
      call (YarnKill cwd) (killYarn env cwd)
  end.

(** [cleanupAll(cleanupFns)]. *)
Fixpoint cleanupAll (cleanupFns : list (M unit)) : M unit :=
  match cleanupFns with
  | [] => ret tt
  | cleanup :: rest =>
      do _ <- tryCatch cleanup
                (fun err => emit (ConsoleError [LStr "Error cleaning up"; LErr err])) ;;
      cleanupAll rest
  end.

(** [connection.on('close', ...)]. *)
Definition onClose : M unit :=
  do _ <- emit (ConsoleLog [LStr "WebSocket closed"]) ;;
  do st <- get ;;
  cleanupAll (List.map runCleanupFn (connectionCleanupFns st)).

End Handlers.

End Proxy.

(* ===================================================================== *)
(** ** A sample environment                                               *)
(* ===================================================================== *)

(** Concrete collaborators on which the handlers can be run: every call
    succeeds unless stated otherwise, and the [URL] constructor reads the
    plain addresses of the scenarios, [scheme://host/path?query#fragment]
    with scheme [http], [https] or [file], already in serialised form. *)
Module Sample.
Import Json Url Proxy.

Fixpoint splitOnce (c : ascii) (s : string) : string * option string :=
  match s with
  | "" => ("", None)
  | String a s' =>
      if Ascii.eqb a c then ("", Some s')
      else let '(x, r) := splitOnce c s' in (String a x, r)
  end.

Definition parse (s : string) : option URL :=
  let '(s, frag) := splitOnce "#" s in
  let '(s, qry) := splitOnce "?" s in
  match splitOnce ":" s with
  | (scheme, Some (String "/" (String "/" rest))) =>
      if existsb (String.eqb scheme) ["http"; "https"; "file"] then
        let '(h, p) := splitOnce "/" rest in
        Some {| protocol := scheme +:+ ":";
                host := Some {| userinfo := ""; hostname := h; port := "" |};
                opaque := false;
                pathname := "/" +:+ match p with Some p => p | None => "" end;
                query := qry; fragment := frag |}
      else None
  | _ => None
  end.

Definition newURL (v : json) : option URL :=
  match v with
  | JStr s => parse s
  | _ => None
  end.

Definition describe (e : JsError) : IoError :=
  match e with
  | Error m => {| io_message := m; io_code := None; io_props := [] |}
  | NullAccess p =>
      {| io_message := "Cannot read property '" +:+ p +:+ "' of undefined";
         io_code := None; io_props := [] |}
  | InvalidURL _ =>
      {| io_message := "Invalid URL"; io_code := Some (JStr "ERR_INVALID_URL");
         io_props := [] |}
  | FileUrlError _ =>
      {| io_message := "Invalid file URL"; io_code := None; io_props := [] |}
  | InvalidArgType a =>
      {| io_message := "The " +:+ a +:+ " argument must be of type string";
         io_code := Some (JStr "ERR_INVALID_ARG_TYPE"); io_props := [] |}
  | Rejected e => e
  end.

Definition failure (m : string) : IoError :=
  {| io_message := m; io_code := None; io_props := [] |}.

(** The environment in which every collaborator succeeds and the archive
    holds the package manifests [manifests]. *)
Definition env (manifests : list string) : Env :=
  {| Proxy.newURL := newURL;
     CACHE_DIR := "/tmp";
     cwd := "/";
     uuid_v1 := fun n => "uuid" +:+ String (ascii_of_nat (48 + n)) "";
     lightstep := false;
     generateTraceURL := fun _ => "";
     mkdirp := fun _ => None;
     mkdir := fun _ => None;
     fetch := fun _ _ => inr 1024%Z;
     decompress := fun _ _ => None;
     glob := fun _ => inr manifests;
     filterDependencies := fun _ => None;
     yarnInstall := fun _ => None;
     rmfr := fun _ => None;
     disposeServer := None;
     killYarn := fun _ => None;
     stackOf := fun _ => "";
     Proxy.describe := describe |}.

(** The same, with the installation failing in the directories [bad]. *)
Definition envFailingInstalls (manifests bad : list string) : Env :=
  {| Proxy.newURL := newURL;
     CACHE_DIR := "/tmp";
     cwd := "/";
     uuid_v1 := fun n => "uuid" +:+ String (ascii_of_nat (48 + n)) "";
     lightstep := false;
     generateTraceURL := fun _ => "";
     mkdirp := fun _ => None;
     mkdir := fun _ => None;
     fetch := fun _ _ => inr 1024%Z;
     decompress := fun _ _ => None;
     glob := fun _ => inr manifests;
     filterDependencies := fun _ => None;
     yarnInstall := fun d =>
       if existsb (String.eqb d) bad then Some (failure "yarn failed") else None;
     rmfr := fun _ => None;
     disposeServer := None;
     killYarn := fun _ => None;
     stackOf := fun _ => "";
     Proxy.describe := describe |}.

(** The same as [env], with the download failing. *)
Definition envFailingDownload : Env :=
  {| Proxy.newURL := newURL;
     CACHE_DIR := "/tmp";
     cwd := "/";
     uuid_v1 := fun n => "uuid" +:+ String (ascii_of_nat (48 + n)) "";
     lightstep := false;
     generateTraceURL := fun _ => "";
     mkdirp := fun _ => None;
     mkdir := fun _ => None;
     fetch := fun _ _ => inl (failure "ECONNRESET");
     decompress := fun _ _ => None;
     glob := fun _ => inr [];
     filterDependencies := fun _ => None;
     yarnInstall := fun _ => None;
     rmfr := fun _ => None;
     disposeServer := None;
     killYarn := fun _ => None;
     stackOf := fun _ => "";
     Proxy.describe := describe |}.

(** An [initialize] request with the given [params]. *)
Definition initializeRequest (id : Z) (params : list (string * json)) : json :=
  JObj [("jsonrpc", JStr "2.0"); ("id", JNum id); ("method", JStr "initialize");
        ("params", JObj params)].

Definition request (id : Z) (method : string) (params : json) : json :=
  JObj [("jsonrpc", JStr "2.0"); ("id", JNum id); ("method", JStr method);
        ("params", params)].

Definition notification (method : string) (params : json) : json :=
  JObj [("jsonrpc", JStr "2.0"); ("method", JStr method); ("params", params)].

Definition response (id : Z) (result : json) : json :=
  JObj [("jsonrpc", JStr "2.0"); ("id", JNum id); ("result", result)].

(** The state of a session after a successful handshake on
    [https://example.com/repo.zip]. *)
Definition zipRoot : URL :=
  {| protocol := "https:";
     host := Some {| userinfo := ""; hostname := "example.com"; port := "" |};
     opaque := false; pathname := "/repo.zip"; query := None; fragment := None |}.

Definition active : State :=
  {| zipRootUri := Some zipRoot;
     fileRootUri := Some (pathToFileURL "/" "/tmp/ws/repo");
     tempDir := Some "/tmp/ws";
     extractPath := Some "/tmp/ws/repo";
     globalFolderRoot := Some "/tmp/ws/global";
     cacheFolderRoot := Some "/tmp/ws/cache";
     connectionCleanupFns := [DisposeLanguageServer; DeleteTempDir];
     requestSpans := ∅; spansMade := 0; uuidsMade := 1 |}.

End Sample.


(* ===================================================================== *)
(** ** Observations on traces and registries                              *)
(* ===================================================================== *)

(** What the properties below read off an event trace, and how a cleanup
    list comes to be. *)
Module Observe.
Import Json Url Proxy.

(** The events, final state and outcome of a computation run from a
    state. *)
Definition events {A} (c : M A) (s : State) : list Event := snd (c s).

Definition finalState {A} (c : M A) (s : State) : State := snd (fst (c s)).

Definition outcome {A} (c : M A) (s : State) : Outcome A := fst (fst (c s)).

Fixpoint collect {A B} (f : A -> option B) (l : list A) : list B :=
  match l with
  | [] => []
  | x :: l' =>
      match f x with
      | Some y => y :: collect f l'
      | None => collect f l'
      end
  end.

(** Messages written to the language server, and to the client. *)
Definition toServer (t : list Event) : list json :=
  collect (fun e => match e with ToLanguageServer m => Some m | _ => None end) t.

Definition toClient (t : list Event) : list json :=
  collect (fun e => match e with ToClient m => Some m | _ => None end) t.

Definition spawns (t : list Event) : nat :=
  length (collect (fun e => match e with SpawnLanguageServer => Some tt | _ => None end) t).

Definition finished (t : list Event) : list nat :=
  collect (fun e => match e with SpanFinish s => Some s | _ => None end) t.

(** The manifests given to [filterDependencies], the directories in which
    yarn was started, and the installation failures written to the
    logger. *)
Definition filterCalls (t : list Event) : list string :=
  collect (fun e => match e with FilterDependencies p => Some p | _ => None end) t.

Definition yarnCalls (t : list Event) : list string :=
  collect (fun e => match e with YarnInstall d _ _ => Some d | _ => None end) t.

Definition installErrors (t : list Event) : list (string * JsError) :=
  collect (fun e => match e with
                    | LoggerError [LStr what; LErr err] => Some (what, err)
                    | _ => None
                    end) t.

(** The cleanup function whose call an event witnesses. *)
Definition invoked (e : Event) : option CleanupFn :=
  match e with
  | ServerDispose => Some DisposeLanguageServer
  | Rmfr _ => Some DeleteTempDir
  | YarnKill cwd => Some (KillYarn cwd)
  | _ => None
  end.

Definition invocations (t : list Event) : list CleanupFn := collect invoked t.

(** The failures [cleanupAll] wrote to the console. *)
Definition cleanupErrors (t : list Event) : list JsError :=
  collect (fun e => match e with
                    | ConsoleError [LStr "Error cleaning up"; LErr err] => Some err
                    | _ => None
                    end) t.

(** How a function enters a cleanup list: [push] or [unshift]. *)
Inductive Registration :=
| ByPush (f : CleanupFn)
| ByUnshift (f : CleanupFn).

Definition register (l : list CleanupFn) (r : Registration) : list CleanupFn :=
  match r with
  | ByPush f => push f l
  | ByUnshift f => unshift f l
  end.

(** The list after the registrations [rs], made in that order on an empty
    list. *)
Definition registered (rs : list Registration) : list CleanupFn :=
  fold_left register rs [].

Definition registrationOrder (rs : list Registration) : list CleanupFn :=
  List.map (fun r => match r with ByPush f | ByUnshift f => f end) rs.

Definition pushed (rs : list Registration) : list CleanupFn :=
  collect (fun r => match r with ByPush f => Some f | _ => None end) rs.

Definition unshifted (rs : list Registration) : list CleanupFn :=
  collect (fun r => match r with ByUnshift f => Some f | _ => None end) rs.

(** The rejection, if any, with which a cleanup function fails when the
    temporary directory is [dir]. *)
Definition failureOf (env : Env) (dir : string) (f : CleanupFn) : option JsError :=
  match f with
  | DisposeLanguageServer => Rejected <$> disposeServer env
  | DeleteTempDir => Rejected <$> rmfr env dir
  | KillYarn cwd => Rejected <$> killYarn env cwd
  end.

(** *** The installation of one package *)

Section Install.
Variable env : Env.
Variables extractPath globalFolderRoot cacheFolderRoot : string.

Definition manifestPath (rel : string) : string := Path.join [extractPath; rel].

Definition installDir (rel : string) : string :=
  Path.join [extractPath; Path.dirname rel].

Definition globalFolder (rel : string) : string :=
  Path.join [Path.join [globalFolderRoot; Path.dirname rel]].

Definition cacheFolder (rel : string) : string :=
  Path.join [Path.join [cacheFolderRoot; Path.dirname rel]].

(** The manifest was filtered and both private folders were made, so
    that yarn is started. *)
Definition prepared (rel : string) : bool :=
  match filterDependencies env (manifestPath rel),
        mkdirp env (globalFolder rel), mkdirp env (cacheFolder rel) with
  | None, None, None => true
  | _, _, _ => false
  end.

(** The failure of the installation for one manifest, if it fails. *)
Definition installFailure (rel : string) : option JsError :=
  match filterDependencies env (manifestPath rel) with
  | Some e => Some (Rejected e)
  | None =>
      match mkdirp env (globalFolder rel), mkdirp env (cacheFolder rel) with
      | Some e, _ => Some (Rejected e)
      | None, Some e => Some (Rejected e)
      | None, None => Rejected <$> yarnInstall env (installDir rel)
      end
  end.

Definition failureLog (rel : string) : option (string * JsError) :=
  match installFailure rel with
  | Some e => Some ("Installation for " +:+ rel +:+ " failed", e)
  | None => None
  end.
End Install.

(** The events of the catch block. *)
Definition errorEvents (env : Env) (span : nat) (message : json) (e : JsError)
  : list Event :=
  [SpanTag span "error" (JBool true); SpanLogError span e;
   LoggerError [LStr ("Error handling message" +:+ nl); LStr nl; LErr e]]
  ++ (if isRequestMessage message then [ToClient (errResponse env message e)] else []).

(** *** Judgements on computations *)

(** A computation all of whose events satisfy [Pev], whose final state is
    related to the initial one by [R], and whose exception, if any,
    satisfies [Perr]. *)
Definition respects (Pev : Event -> Prop) (R : State -> State -> Prop)
    {A} (Perr : JsError -> Prop) (c : M A) : Prop :=
  forall s,
    Forall Pev (events c s)
    /\ R s (finalState c s)
    /\ forall e, outcome c s = Throw e -> Perr e.

(** An event other than a spawn of the language server or a write to
    either peer. *)
Definition quiet (e : Event) : Prop :=
  match e with
  | SpawnLanguageServer | ToLanguageServer _ | ToClient _ => False
  | _ => True
  end.

Definition anyEvent (e : Event) : Prop := True.
Definition anyError (e : JsError) : Prop := True.

(** The session variable [f] has the same value in both states. *)
Definition same {X} (f : State -> X) (s s' : State) : Prop := f s' = f s.

Definition noError (e : JsError) : Prop := False.

(** An exception other than the refusal of several workspace folders. *)
Definition notTooMany (e : JsError) : Prop := e <> Error moreThanOneFolder.

(** *** Positions in a message *)

(** One step down a message: into the value of a key, or into an array
    element. *)
Inductive Step := Key (k : string) | Index (i : nat).

(** The value found by following a path from the top of a message. *)
Fixpoint at_path (p : list Step) (v : json) : option json :=
  match p with
  | [] => Some v
  | Key k :: p' =>
      match v with
      | JObj fs => match obj_get k fs with Some x => at_path p' x | None => None end
      | _ => None
      end
  | Index i :: p' =>
      match v with
      | JArr l => match nth_error l i with Some x => at_path p' x | None => None end
      | _ => None
      end
  end.

(** A path that ends at a property named [uri]. *)
Definition namesUri (p : list Step) : bool :=
  match List.last p (Index 0) with
  | Key k => (k =? "uri")%string
  | Index _ => false
  end.

(** Two values that are the same at their top: the same scalar, or
    arrays of the same length, or objects with the same keys in the same
    order. *)
Definition sameNode (x y : json) : Prop :=
  match x, y with
  | JNull, JNull => True
  | JBool a, JBool b => a = b
  | JNum a, JNum b => a = b
  | JStr a, JStr b => a = b
  | JArr a, JArr b => length a = length b
  | JObj a, JObj b => List.map fst a = List.map fst b
  | _, _ => False
  end.

(** A message whose every [uri] property, at any depth, holds a string
    that the [URL] constructor accepts and the rewrite rule maps to an
    address. *)
#[local] Unset Elimination Schemes.
Inductive wellFormed (env : Env) (transform : URL -> Outcome URL) : json -> Prop :=
| wf_null : wellFormed env transform JNull
| wf_bool b : wellFormed env transform (JBool b)
| wf_num n : wellFormed env transform (JNum n)
| wf_str s : wellFormed env transform (JStr s)
| wf_arr l :
    Forall (wellFormed env transform) l -> wellFormed env transform (JArr l)
| wf_obj fs :
    (forall v, obj_get "uri" fs = Some v ->
               exists s u t, v = JStr s /\ newURL env v = Some u /\ transform u = Ok t) ->
    Forall (fun kv => wellFormed env transform (snd kv)) fs ->
    wellFormed env transform (JObj fs).
#[local] Set Elimination Schemes.

(** What rewriting does at every position of a message. *)
Definition rewrittenAt (env : Env) (transform : URL -> Outcome URL)
    (m m' : json) (p : list Step) : Prop :=
  match at_path p m with
  | None => at_path p m' = None
  | Some x =>
      if namesUri p then
        exists u t, newURL env x = Some u /\ transform u = Ok t
                    /\ at_path p m' = Some (JStr (href t))
      else exists y, at_path p m' = Some y /\ sameNode x y
  end.

(** Whether a [uri] property occurs anywhere in a value. *)
Fixpoint mentionsUri (v : json) : bool :=
  match v with
  | JObj fs =>
      match obj_get "uri" fs with Some _ => true | None => false end
      || existsb (fun kv => mentionsUri (snd kv)) fs
  | JArr l => existsb mentionsUri l
  | _ => false
  end.

(** *** Addresses in normal form *)

(** A character that the URL parser and the path functions leave alone:
    outside the path percent-encode set and none of [/], [\], [%]. *)
Definition plainChar (c : ascii) : bool :=
  negb (inPathSet c) && negb (oneOf "/\%" c).

(** A character of a path in normal form: plain, or the slash. *)
Definition pathChar (c : ascii) : bool := plainChar c || Ascii.eqb c "/".

(** A path segment in normal form: not empty, not [.] or [..], made of
    plain characters. *)
Definition plainSegment (s : string) : bool :=
  negb (Str.isEmpty s) && negb (s =? ".")%string && negb (s =? "..")%string
  && Str.forallb plainChar s.

Definition normalForm (segs : list string) : bool := forallb plainSegment segs.

Definition absolutePath (segs : list string) : string := "/" +:+ Str.join "/" segs.

(** The fragment naming the path [segs] inside the archive; the archive
    root itself has no fragment. *)
Definition fragmentOf (segs : list string) : option string :=
  match segs with
  | [] => None
  | _ => Some (Str.join "/" segs)
  end.

Definition withFragment (u : URL) (f : option string) : URL :=
  {| protocol := protocol u; host := host u; opaque := opaque u;
     pathname := pathname u; query := query u; fragment := f |}.

Definition withPathname (u : URL) (p : string) : URL :=
  {| protocol := protocol u; host := host u; opaque := false;
     pathname := p; query := query u; fragment := fragment u |}.

End Observe.

(* ===================================================================== *)
(** ** What rewriting does to a message, read declaratively              *)
(* ===================================================================== *)

Module Rewriting.
Import Json Url Proxy.

(** The new value of a [uri] property holding [x]:
    [transform(new URL(x)).href], or the exception of the constructor or
    of the rule. *)
Definition rewriteOne (env : Env) (transform : URL -> Outcome URL) (x : json)
  : Outcome json :=
  chk u <- construct env x ;;
  chk t <- transform u ;;
  Ok (JStr (href t)).

(** The same, leaving alone a value that cannot be rewritten. *)
Definition force (env : Env) (transform : URL -> Outcome URL) (x : json) : json :=
  match rewriteOne env transform x with
  | Ok y => y
  | Throw _ => x
  end.

(** [topUri m x]: [x] is the value of a [uri] property of [m] that does
    not lie inside the value of another [uri] property. *)
Inductive topUri : json -> json -> Prop :=
| top_here fs x : obj_get "uri" fs = Some x -> topUri (JObj fs) x
| top_field fs k v x :
    In (k, v) fs -> k <> "uri" -> topUri v x -> topUri (JObj fs) x
| top_item l v x : In v l -> topUri v x -> topUri (JArr l) x.

(** The message in which the value of every such property has been
    replaced by its image under [f], everything else being kept. *)
Fixpoint mapUris (f : json -> json) (v : json) : json :=
  match v with
  | JObj fs =>
      JObj (List.map
              (fun kv =>
                 (fst kv,
                  if (fst kv =? "uri")%string then
                    match obj_get "uri" fs with
                    | Some x => f x
                    | None => snd kv
                    end
                  else mapUris f (snd kv)))
              fs)
  | JArr l => JArr (List.map (mapUris f) l)
  | _ => v
  end.

(** The fields of the object with fields [fs] after the replacement. *)
Definition mapFields (f : json -> json) (fs : list (string * json))
  : list (string * json) :=
  List.map
    (fun kv =>
       (fst kv,
        if (fst kv =? "uri")%string then
          match obj_get "uri" fs with
          | Some x => f x
          | None => snd kv
          end
        else mapUris f (snd kv)))
    fs.

Fixpoint nodupb (l : list string) : bool :=
  match l with
  | [] => true
  | x :: r => negb (existsb (String.eqb x) r) && nodupb r
  end.

(** A value as a JSON parser gives it: no object holds the same key
    twice. *)
Fixpoint distinctKeys (v : json) : bool :=
  match v with
  | JObj fs =>
      nodupb (List.map fst fs) && forallb (fun kv => distinctKeys (snd kv)) fs
  | JArr l => forallb distinctKeys l
  | _ => true
  end.

(** The archive address of the path [ps] below the archive root [zip],
    and the file address of the path [fs]. *)
Definition archiveAddress (zip : URL) (ps : list string) : URL :=
  Observe.withFragment zip (Observe.fragmentOf ps).

Definition fileAddress (root : URL) (fs : list string) : URL :=
  Observe.withPathname root (Observe.absolutePath fs).

(** The relative path from the directory [rs] to the path [fs], as
    segments: one [..] for every segment of [rs] that [fs] does not
    share, then what is left of [fs]. *)
Definition climb (rs fs : list string) : list string :=
  let '(up, down) := Path.stripCommon rs fs in
  List.map (fun _ => "..") up ++ down.

(** A [uri] value that is the serialisation of the archive address of a
    path in normal form below the extraction root [rs], the [URL]
    constructor reading that serialisation and the one of the matching
    file address back. *)
Definition isArchiveAddress (env : Env) (zip : URL) (rs : list string) (x : json)
  : Prop :=
  exists ps,
    Observe.normalForm ps = true
    /\ x = JStr (href (archiveAddress zip ps))
    /\ newURL env x = Some (archiveAddress zip ps)
    /\ newURL env
         (JStr (href (fileAddress (pathToFileURL (cwd env) (Observe.absolutePath rs))
                        (rs ++ ps))))
       = Some (fileAddress (pathToFileURL (cwd env) (Observe.absolutePath rs))
                 (rs ++ ps)).

End Rewriting.

(* ===================================================================== *)
(** ** What a session does to the world                                  *)
(* ===================================================================== *)

Module Sessions.
Import Json Url Proxy Observe.

(** A call to a collaborator: the file system, the network, a child
    process. *)
Definition collaborator (e : Event) : bool :=
  match e with
  | SpawnLanguageServer | Mkdirp _ | Mkdir _ | Fetch _ _ | Decompress _ _
  | Glob _ | FilterDependencies _ | YarnInstall _ _ _ | YarnKill _
  | ServerDispose | Rmfr _ => true
  | _ => false
  end.

Definition calls (t : list Event) : list Event := List.filter collaborator t.

(** A rejection coming from a collaborator. *)
Definition isRejected (e : JsError) : Prop := exists io, e = Rejected io.

(** The session variables that name the roots and folders have the same
    values in both states. *)
Definition sameRoots (s s' : State) : Prop :=
  zipRootUri s' = zipRootUri s /\ fileRootUri s' = fileRootUri s
  /\ tempDir s' = tempDir s /\ extractPath s' = extractPath s
  /\ globalFolderRoot s' = globalFolderRoot s
  /\ cacheFolderRoot s' = cacheFolderRoot s.

(** Every session variable has the same value in both states, the
    cleanup list and the count of spans apart. *)
Definition sameVariables (s s' : State) : Prop :=
  sameRoots s s' /\ requestSpans s' = requestSpans s /\ uuidsMade s' = uuidsMade s.

(** The name of the temporary directory of a handshake on the archive
    root [zip], [uuid] being the value of [uuid.v1()]. *)
Definition tempName (zip : URL) (uuid : string) : string :=
  Str.replaceAll "/" "_" (url_hostname zip +:+ pathname zip) +:+ "_" +:+ uuid.

Definition noSlash (s : string) : bool :=
  Str.forallb (fun c => negb (Ascii.eqb c "/")) s.

(** A file name: not empty, not [.] or [..], without a slash. *)
Definition fileName (s : string) : bool :=
  noSlash s && negb (s =? "")%string && negb (s =? ".")%string
  && negb (s =? "..")%string.

Definition fileNames (l : list string) : bool := forallb fileName l.

(** A relative path as the search for manifests returns it: the names of
    the folders leading to a [package.json]. *)
Definition isManifest (rel : string) : Prop :=
  exists ds, fileNames ds = true /\ rel = Str.join "/" (ds ++ ["package.json"]).

(** The yarn processes started: working directory, global folder and
    cache folder of each. *)
Definition yarnStarts (t : list Event) : list (string * string * string) :=
  collect (fun e => match e with
                    | YarnInstall cwd g c => Some (cwd, g, c)
                    | _ => None
                    end) t.

Definition cwdOf (y : string * string * string) : string := fst (fst y).
Definition globalOf (y : string * string * string) : string := snd (fst y).
Definition cacheOf (y : string * string * string) : string := snd y.

(** *** Sessions without overlap *)

(** The handling of [initialize] and the close handler await, all other
    handlers run without a wait.  A session without overlap is one in
    which no message and no close arrives while a handshake is pending:
    the connection has been accepted, and messages of the client and of
    the language server have been handled one at a time, each to its end,
    in any order.  [inTurn env t st]: the events so far are [t] and the
    session variables are [st].  A step of the language server's side
    stands for the run of the callback, whether it returns or throws.
    A session in which something arrives during a handshake is not of
    this kind, and nothing is said of it here. *)
Inductive inTurn (env : Env) : list Event -> State -> Prop :=
| turn_open :
    inTurn env (events onConnection initialState) (finalState onConnection initialState)
| turn_client t st m :
    inTurn env t st ->
    inTurn env (t ++ events (onClientMessage env m) st)
           (finalState (onClientMessage env m) st)
| turn_server t st m :
    inTurn env t st ->
    inTurn env (t ++ events (forward env m) st) (finalState (forward env m) st).

(** The directories given to [rmfr]. *)
Definition removed (t : list Event) : list string :=
  collect (fun e => match e with Rmfr p => Some p | _ => None end) t.

(** The directories given to [mkdirp]. *)
Definition made (t : list Event) : list string :=
  collect (fun e => match e with Mkdirp p => Some p | _ => None end) t.

(** The folders given to [fs.mkdir].  The source calls it in one place
    only: for the three folders of a handshake, once its temporary
    directory has been made and the deletion of that directory
    registered. *)
Definition mkdirs (t : list Event) : list string :=
  collect (fun e => match e with Mkdir p => Some p | _ => None end) t.

(** A computation whose events and final state are related to its
    initial state by [Q], whatever its outcome. *)
Definition holds (Q : State -> list Event -> State -> Prop) {A} (c : M A) : Prop :=
  forall s, Q s (events c s) (finalState c s).

(** How the cleanup list grows while messages are handled: a kill is put
    in front for every yarn process started, the latest first, and a
    deletion of the temporary directory is added at the end for every
    handshake that made its temporary directory (each of them goes on to
    three calls of [fs.mkdir]), the directory being named by then; no
    process of the language server is started. *)
Definition grown (s : State) (t : list Event) (s' : State) : Prop :=
  exists n,
    connectionCleanupFns s'
    = List.map KillYarn (List.rev (yarnCalls t)) ++ connectionCleanupFns s
      ++ repeat DeleteTempDir n
    /\ (n <> 0 -> tempDir s' <> None)
    /\ (tempDir s <> None -> tempDir s' <> None)
    /\ spawns t = 0
    /\ length (mkdirs t) = 3 * n.

End Sessions.

(* ===================================================================== *)
(** ** Location conversion ([convertLocation], [convertLocations])       *)
(* ===================================================================== *)

Module Locations.
Import Proxy.

(** [Location] of the language server protocol. *)
Record Location := { uri : Hover.jstring; range : Hover.Range }.

(** The argument of [convertLocations], when it is not null: one
    location or an array of locations. *)
Inductive LocationOrLocations :=
| One (location : Location)
| Many (locations : list Location).

(** What [convertLocation] throws: the exception of the constructor of
    [sourcegraph.URI], or the refusal of a position by the constructor
    of [sourcegraph.Range]. *)
Inductive Thrown :=
| ByURI (e : JsError)
| ByRange (e : Hover.IllegalArgument).

Inductive Attempt (A : Type) :=
| Done (a : A)
| Failed (e : Thrown).
Arguments Done {A} a.
Arguments Failed {A} e.

(** [Array.prototype.map] with a callback that may throw. *)
Fixpoint mapArray {A B} (f : A -> Attempt B) (l : list A) : Attempt (list B) :=
  match l with
  | [] => Done []
  | x :: r =>
      match f x with
      | Failed e => Failed e
      | Done y =>
          match mapArray f r with
          | Failed e => Failed e
          | Done r' => Done (y :: r')
          end
      end
  end.

Section URI.
(** [sourcegraph.URI] and its constructor, which may throw. *)
Variable SgURI : Type.
Variable newURI : Hover.jstring -> Outcome SgURI.

Record SgLocation := { sg_uri : SgURI; sg_range : Hover.SgRange }.

(** The properties of the object literal are evaluated in order: the
    address first, then the range. *)
Definition convertLocation (location : Location) : Attempt SgLocation :=
  match newURI (uri location) with
  | Throw e => Failed (ByURI e)
  | Ok u =>
      match Hover.convertRange (range location) with
      | Hover.Throws e => Failed (ByRange e)
      | Hover.Returns r => Done {| sg_uri := u; sg_range := r |}
      end
  end.

Definition convertLocations (locationOrLocations : option LocationOrLocations)
  : Attempt (option (list SgLocation)) :=
  match locationOrLocations with
  | None => Done None
  | Some l =>
      let locations := match l with Many ls => ls | One x => [x] end in
      match mapArray convertLocation locations with
      | Failed e => Failed e
      | Done r => Done (Some r)
      end
  end.
End URI.

Arguments sg_uri {SgURI} _.
Arguments sg_range {SgURI} _.

(** The locations given, as a list. *)
Definition given (l : LocationOrLocations) : list Location :=
  match l with Many ls => ls | One x => [x] end.

End Locations.

(* ===================================================================== *)
(** ** Which entries of a hover are shown                                *)
(* ===================================================================== *)

Module Shown.
Import Hover.

(** An entry that leaves something in the value of the hover: a
    [MarkupContent] or a string that is not blank, a language-tagged
    entry whose value is not empty. *)
Definition shown (c : Content) : bool :=
  match c with
  | CMarkup _ v => truthy (trim v)
  | CString s => truthy (trim s)
  | CCode _ v => truthy v
  end.

End Shown.
(* ===================================================================== *)
(** * Properties                                                          *)
(* ===================================================================== *)

(** ** Hover conversion *)

Module HoverFacts.
Import Hover.

Lemma trimStart_head s :
  trimStart s = [] \/ exists c r, trimStart s = c :: r /\ is_ws c = false.
Proof.
  induction s as [|c s IH]; simpl; [now left|].
  destruct (is_ws c) eqn:E; [exact IH|].
  right. now exists c, s.
Qed.

Lemma trimStart_nil s : trimStart s = [] <-> blank s.
Proof.
  unfold blank. induction s as [|c s IH]; simpl.
  - split; [constructor | reflexivity].
  - destruct (is_ws c) eqn:E.
    + rewrite IH. split; intros H.
      * now constructor.
      * now inversion H.
    + split; [discriminate|]. intros H. inversion H. congruence.
Qed.

Lemma trim_nil s : trim s = [] <-> blank s.
Proof.
  unfold trim, trimEnd. split.
  - intros H.
    assert (H1 : trimStart (rev (trimStart s)) = []).
    { destruct (trimStart (rev (trimStart s))) as [|x l]; [reflexivity|].
      simpl in H. now destruct (rev l). }
    apply trimStart_nil in H1. unfold blank in H1.
    apply trimStart_nil.
    destruct (trimStart_head s) as [E | (c & r & E & Hc)]; [exact E|].
    rewrite E in H1.
    rewrite Forall_forall in H1.
    specialize (H1 c). rewrite Hc in H1.
    exfalso. assert (false = true); [|discriminate].
    apply H1. rewrite list_elem_of_In, <- in_rev. now left.
  - intros H. apply trimStart_nil in H. now rewrite H.
Qed.

Lemma truthy_trim s : truthy (trim s) = true <-> ~ blank s.
Proof.
  rewrite <- trim_nil. destruct (trim s); simpl; intuition congruence.
Qed.

Lemma renderContent_renders c : renders c (renderContent c).
Proof.
  destruct c as [k v | s | l v]; simpl; try constructor.
  destruct v as [|x v]; simpl; [constructor|].
  apply (r_code l (x :: v)). discriminate.
Qed.

Lemma filter_keeps l :
  keeps_nonblank l (filter (fun str => truthy (trim str) = true) l).
Proof.
  induction l as [|s l IH]; [constructor|].
  rewrite filter_cons. case_decide as H.
  - apply k_keep; [now apply truthy_trim | exact IH].
  - apply k_drop; [|exact IH].
    destruct (trim s) eqn:E; [now apply trim_nil|]. now destruct H.
Qed.

Lemma join_joined l : joined l (join separator l).
Proof.
  induction l as [|s l IH]; [constructor|].
  destruct l as [|t l]; [constructor|].
  change (join separator (s :: t :: l))
    with (s ++ [10; 10; 45; 45; 45; 10; 10]%N ++ join separator (t :: l)).
  now constructor.
Qed.

(** *** The range *)

Lemma newPosition_returns l c :
  (0 <= l)%Z -> (0 <= c)%Z ->
  newPosition l c = Returns {| line := l; character := c |}.
Proof.
  intros Hl Hc. unfold newPosition.
  destruct (Z.ltb_spec l 0); [lia|]. destruct (Z.ltb_spec c 0); [lia|]. reflexivity.
Qed.

Lemma newPosition_throws l c :
  ~ (0 <= l /\ 0 <= c)%Z -> exists e, newPosition l c = Throws e.
Proof.
  intros H. unfold newPosition.
  destruct (Z.ltb_spec l 0); [now eexists|].
  destruct (Z.ltb_spec c 0); [now eexists|]. lia.
Qed.

Lemma convertRange_returns r : nonNegative r -> convertRange r = Returns (ordered r).
Proof.
  intros (H1 & H2 & H3 & H4). unfold convertRange, newRange, ordered.
  rewrite !newPosition_returns by assumption.
  destruct r as [[sl sc] [el ec]]. cbn in *. unfold isBefore. cbn.
  now destruct (sl <? el)%Z, (el <? sl)%Z, (sc <? ec)%Z.
Qed.

Lemma convertRange_throws r : ~ nonNegative r -> exists e, convertRange r = Throws e.
Proof.
  intros H. unfold convertRange, newRange.
  destruct (newPosition (line (start r)) (character (start r))) as [s|e] eqn:E1;
    [|now eexists].
  destruct (newPosition (line (end_ r)) (character (end_ r))) as [e|e] eqn:E2;
    [|now eexists].
  exfalso. apply H. unfold nonNegative, newPosition in *.
  destruct (Z.ltb_spec (line (start r)) 0); [discriminate|].
  destruct (Z.ltb_spec (character (start r)) 0); [discriminate|].
  destruct (Z.ltb_spec (line (end_ r)) 0); [discriminate|].
  destruct (Z.ltb_spec (character (end_ r)) 0); [discriminate|].
  auto.
Qed.

Lemma convertRange_cases r :
  match convertRange r with
  | Returns x => nonNegative r /\ x = ordered r
  | Throws _ => ~ nonNegative r
  end.
Proof.
  destruct (convertRange r) as [x|e] eqn:E.
  - assert (H : nonNegative r).
    { unfold convertRange, newRange, newPosition, nonNegative in *.
      destruct (Z.ltb_spec (line (start r)) 0); [discriminate|].
      destruct (Z.ltb_spec (character (start r)) 0); [discriminate|].
      destruct (Z.ltb_spec (line (end_ r)) 0); [discriminate|].
      destruct (Z.ltb_spec (character (end_ r)) 0); [discriminate|].
      auto. }
    split; [exact H|]. rewrite (convertRange_returns r H) in E. congruence.
  - intros H. rewrite (convertRange_returns r H) in E. discriminate.
Qed.

Lemma convertedRange_returns h :
  (forall r, range h = Some r -> nonNegative r) ->
  convertedRange h = Returns (option_map ordered (range h)).
Proof.
  intros H. unfold convertedRange. destruct (range h) as [r|]; [|reflexivity].
  now rewrite convertRange_returns by auto.
Qed.

Lemma convertedRange_throws h r :
  range h = Some r -> ~ nonNegative r -> exists e, convertedRange h = Throws e.
Proof.
  intros E H. unfold convertedRange. rewrite E.
  destruct (convertRange_throws r H) as (e & ->). now exists e.
Qed.

(** C10, as the code has it.  [convertHover] returns null exactly for a
    null argument.  For a hover whose range is absent or has no negative
    line or character it returns Markdown whose value is obtained by
    rendering every entry (a MarkupContent or a string as it is, a
    language-tagged entry fenced in triple backticks or, when its value
    is empty, as the empty string), dropping the entries that are empty
    or only white space, and joining the others with a blank line, three
    dashes and a blank line; the range of the result is the range of the
    hover with its ends in order.  For a hover whose range has a negative
    line or character it throws. *)
Theorem convertHover_result :
  (forall hover, convertHover hover = Returns None <-> hover = None)
  /\ (forall h,
        (forall r, range h = Some r -> nonNegative r) ->
        exists rendered kept value,
          Forall2 renders (entries h) rendered
          /\ keeps_nonblank rendered kept
          /\ joined kept value
          /\ convertHover (Some h)
             = Returns
                 (Some {| sg_range := option_map ordered (range h);
                          sg_contents :=
                            {| sg_kind := Markdown; sg_value := value |} |}))
  /\ (forall h r,
        range h = Some r -> ~ nonNegative r ->
        exists e, convertHover (Some h) = Throws e).
Proof.
  split; [|split].
  - intros [h|]; [|tauto]. unfold convertHover.
    destruct (convertedRange h); split; discriminate.
  - intros h Hr.
    exists (map renderContent (entries h)).
    exists (filter (fun str => truthy (trim str) = true) (map renderContent (entries h))).
    exists (join separator
              (filter (fun str => truthy (trim str) = true)
                      (map renderContent (entries h)))).
    split; [|split; [|split]].
    + induction (entries h) as [|c l IH]; simpl; constructor;
        [apply renderContent_renders | exact IH].
    + apply filter_keeps.
    + apply join_joined.
    + unfold convertHover. now rewrite convertedRange_returns by exact Hr.
  - intros h r E H. unfold convertHover.
    destruct (convertedRange_throws h r E H) as (e & ->). now exists e.
Qed.

Lemma convertHover_result_witness :
  let h := {| contents := Array [CString (lit "const x: number"); CString (lit " ")];
              range := Some {| start := {| line := 3; character := 12 |};
                               end_ := {| line := 3; character := 7 |} |} |} in
  (forall r, range h = Some r -> nonNegative r)
  /\ exists value,
       convertHover (Some h)
       = Returns
           (Some {| sg_range :=
                      Some {| startLine := 3; startCharacter := 7;
                              endLine := 3; endCharacter := 12 |};
                    sg_contents := {| sg_kind := Markdown; sg_value := value |} |}).
Proof.
  intros h.
  assert (Hr : forall r, range h = Some r -> nonNegative r).
  { intros r [= <-]. unfold nonNegative. cbn. lia. }
  split; [exact Hr|].
  destruct (proj1 (proj2 convertHover_result) h Hr) as (_ & _ & value & _ & _ & _ & E).
  exists value. exact E.
Defined.

(** C10 as stated fails on a hover whose range has a negative line: the
    constructor of [sourcegraph.Range] refuses it, and [convertHover]
    throws where the claim has it return. *)
Lemma convertHover_throws_on_negative_line :
  let h := {| contents := Single (CString (lit "const x: number"));
              range := Some {| start := {| line := -1; character := 0 |};
                               end_ := {| line := 0; character := 5 |} |} |} in
  convertHover (Some h) = Throws LineNegative.
Proof. reflexivity. Qed.

End HoverFacts.

(** ** Traces *)

Module TraceFacts.
Import Observe.

Lemma collect_app {A B} (f : A -> option B) l1 l2 :
  collect f (l1 ++ l2) = collect f l1 ++ collect f l2.
Proof.
  induction l1 as [|x l1 IH]; simpl; [reflexivity|].
  destruct (f x); simpl; now rewrite IH.
Qed.

End TraceFacts.

(** ** The cleanup lists *)

Module CleanupFacts.
Import Json Url Proxy Observe TraceFacts.

(** One guarded call of [cleanupAll]: the function runs, its failure is
    written to the console, the state is as before. *)
Lemma guarded_call env st dir f :
  tempDir st = Some dir ->
  exists t,
    tryCatch (runCleanupFn env f)
      (fun err => emit (ConsoleError [LStr "Error cleaning up"; LErr err])) st
    = (Ok tt, st, t)
    /\ invocations t = [f]
    /\ cleanupErrors t = match failureOf env dir f with Some e => [e] | None => [] end.
Proof.
  intros Hdir. destruct f as [| |c]; unfold tryCatch, runCleanupFn, call, bind,
    logger_log, emit, get, ret, throw; simpl.
  - destruct (disposeServer env); simpl; eexists; repeat split.
  - rewrite Hdir. simpl. destruct (rmfr env dir); simpl; eexists; repeat split.
  - destruct (killYarn env c); simpl; eexists; repeat split.
Qed.

Lemma cleanupAll_runs env st dir fns :
  tempDir st = Some dir ->
  exists t,
    cleanupAll (List.map (runCleanupFn env) fns) st = (Ok tt, st, t)
    /\ invocations t = fns
    /\ cleanupErrors t = collect (failureOf env dir) fns.
Proof.
  intros Hdir. induction fns as [|f fns (t & E & Hi & He)]; simpl.
  - exists []. repeat split.
  - destruct (guarded_call env st dir f Hdir) as (t1 & E1 & Hi1 & He1).
    exists (t1 ++ t). unfold bind. rewrite E1, E. repeat split.
    + unfold invocations in *. rewrite collect_app, Hi1, Hi. reflexivity.
    + unfold cleanupErrors in *. rewrite collect_app, He1, He.
      simpl. now destruct (failureOf env dir f).
Qed.

Lemma fold_register rs l :
  fold_left register rs l = List.rev (unshifted rs) ++ l ++ pushed rs.
Proof.
  revert l. induction rs as [|r rs IH]; intros l; simpl.
  - now rewrite app_nil_r.
  - rewrite IH. destruct r as [f|f]; simpl; unfold push, unshift.
    + now rewrite <- app_assoc.
    + now rewrite <- app_assoc.
Qed.

Lemma registered_order rs :
  registered rs = List.rev (unshifted rs) ++ pushed rs.
Proof. unfold registered. now rewrite fold_register. Qed.

(** C3, as the code has it.  Running [cleanupAll] on a cleanup list calls
    every function of the list exactly once, in list order: the functions
    added with [unshift] come first, the most recently added first, then
    the functions added with [push], in the order of their registration.
    A function that fails has its failure written to the console and the
    following ones still run; [cleanupAll] itself does not throw. *)
Theorem cleanupAll_order env st dir rs :
  tempDir st = Some dir ->
  let run := cleanupAll (List.map (runCleanupFn env) (registered rs)) in
  outcome run st = Ok tt
  /\ invocations (events run st)
     = List.rev (unshifted rs) ++ pushed rs
  /\ cleanupErrors (events run st)
     = collect (failureOf env dir) (List.rev (unshifted rs) ++ pushed rs).
Proof.
  intros Hdir run.
  destruct (cleanupAll_runs env st dir (registered rs) Hdir) as (t & E & Hi & He).
  unfold outcome, events, run. rewrite E. simpl.
  rewrite <- registered_order. auto.
Qed.

Lemma cleanupAll_order_witness :
  let rs := [ByPush DisposeLanguageServer; ByPush DeleteTempDir;
             ByUnshift (KillYarn "/tmp/ws/repo");
             ByUnshift (KillYarn "/tmp/ws/repo/packages/a")] in
  let run := cleanupAll (List.map (runCleanupFn (Sample.env [])) (registered rs)) in
  tempDir Sample.active = Some "/tmp/ws"
  /\ invocations (events run Sample.active)
     = [KillYarn "/tmp/ws/repo/packages/a"; KillYarn "/tmp/ws/repo";
        DisposeLanguageServer; DeleteTempDir].
Proof.
  intros rs run. split; [reflexivity|].
  exact (proj1 (proj2 (cleanupAll_order (Sample.env []) Sample.active "/tmp/ws" rs
                         eq_refl))).
Defined.

(** C3 as stated fails: two functions added with [push], as the
    connection handler adds the disposal of the language server and then
    the deletion of the temporary directory, run oldest first. *)
Lemma cleanupAll_not_newest_first :
  let rs := [ByPush DisposeLanguageServer; ByPush DeleteTempDir] in
  let run := cleanupAll (List.map (runCleanupFn (Sample.env [])) (registered rs)) in
  invocations (events run Sample.active) = registrationOrder rs
  /\ invocations (events run Sample.active) <> List.rev (registrationOrder rs).
Proof. split; [reflexivity | discriminate]. Qed.

End CleanupFacts.

(** ** Strings and paths in normal form *)

Module StrFacts.
Import Url Observe.

#[local] Arguments String.append : simpl nomatch.

Lemma append_nil_r s : s +:+ "" = s.
Proof. induction s as [|a s IH]; simpl; [reflexivity | now rewrite IH]. Qed.

Lemma append_assoc (a b c : string) : (a +:+ b) +:+ c = a +:+ (b +:+ c).
Proof. induction a as [|x a IH]; simpl; [reflexivity | now rewrite IH]. Qed.

Lemma forallb_app p a b :
  Str.forallb p (a +:+ b) = Str.forallb p a && Str.forallb p b.
Proof.
  induction a as [|x a IH]; simpl; [reflexivity|].
  rewrite IH. now rewrite andb_assoc.
Qed.

Lemma forallb_weaken (p q : ascii -> bool) s :
  (forall c, p c = true -> q c = true) ->
  Str.forallb p s = true -> Str.forallb q s = true.
Proof.
  intros Hpq. induction s as [|a s IH]; simpl; [reflexivity|].
  intros H. apply andb_true_iff in H as [Ha Hs].
  now rewrite (Hpq a Ha), IH.
Qed.

(** *** Splitting and joining *)

Lemma splitBy_app_sep p x c t :
  Str.forallb (fun a => negb (p a)) x = true -> p c = true ->
  Str.splitBy p (x +:+ String c t) = x :: Str.splitBy p t.
Proof.
  intros Hx Hc. induction x as [|a x IH]; simpl.
  - now rewrite Hc.
  - simpl in Hx. apply andb_true_iff in Hx as [Ha Hx].
    apply negb_true_iff in Ha. rewrite Ha, (IH Hx). reflexivity.
Qed.

Lemma splitBy_nosep p x :
  Str.forallb (fun a => negb (p a)) x = true -> Str.splitBy p x = [x].
Proof.
  induction x as [|a x IH]; simpl; [reflexivity|].
  intros H. apply andb_true_iff in H as [Ha Hx].
  apply negb_true_iff in Ha. now rewrite Ha, (IH Hx).
Qed.

Lemma splitBy_join p c l :
  p c = true -> l <> [] ->
  Forall (fun s => Str.forallb (fun a => negb (p a)) s = true) l ->
  Str.splitBy p (Str.join (String c "") l) = l.
Proof.
  intros Hc Hne Hl. induction Hl as [|x l Hx Hl IH]; [congruence|].
  destruct l as [|y l].
  - simpl. now apply splitBy_nosep.
  - change (Str.join (String c "") (x :: y :: l))
      with (x +:+ String c (Str.join (String c "") (y :: l))).
    rewrite splitBy_app_sep by assumption.
    now rewrite IH.
Qed.

Lemma join_app sep (a b : list string) :
  a <> [] -> b <> [] ->
  Str.join sep (a ++ b) = Str.join sep a +:+ sep +:+ Str.join sep b.
Proof.
  intros Ha Hb. induction a as [|x a IH]; [congruence|].
  destruct a as [|y a].
  - simpl. destruct b; [congruence | reflexivity].
  - change (Str.join sep ((x :: y :: a) ++ b))
      with (x +:+ sep +:+ Str.join sep ((y :: a) ++ b)).
    rewrite IH by discriminate.
    change (Str.join sep (x :: y :: a)) with (x +:+ sep +:+ Str.join sep (y :: a)).
    now rewrite !append_assoc.
Qed.

Lemma forallb_join p sep l :
  Str.forallb p sep = true ->
  Forall (fun s => Str.forallb p s = true) l ->
  Str.forallb p (Str.join sep l) = true.
Proof.
  intros Hsep Hl. induction Hl as [|x l Hx Hl IH]; [reflexivity|].
  destruct l as [|y l]; [exact Hx|].
  change (Str.join sep (x :: y :: l)) with (x +:+ sep +:+ Str.join sep (y :: l)).
  now rewrite !forallb_app, Hx, Hsep, IH.
Qed.

(** *** Character-wise rewrites that leave a string alone *)

Lemma percentEncode_id set s :
  Str.forallb (fun c => negb (set c)) s = true -> percentEncode set s = s.
Proof.
  induction s as [|a s IH]; simpl; [reflexivity|].
  intros H. apply andb_true_iff in H as [Ha Hs].
  apply negb_true_iff in Ha. now rewrite Ha, (IH Hs).
Qed.

Lemma filterChars_id p s :
  Str.forallb p s = true -> Str.filterChars p s = s.
Proof.
  induction s as [|a s IH]; simpl; [reflexivity|].
  intros H. apply andb_true_iff in H as [Ha Hs]. now rewrite Ha, (IH Hs).
Qed.

Lemma replaceAll_id c d s :
  Str.forallb (fun a => negb (Ascii.eqb a c)) s = true -> Str.replaceAll c d s = s.
Proof.
  induction s as [|a s IH]; simpl; [reflexivity|].
  intros H. apply andb_true_iff in H as [Ha Hs].
  apply negb_true_iff in Ha. now rewrite Ha, (IH Hs).
Qed.

Lemma replaceAllStr_id c r s :
  Str.forallb (fun a => negb (Ascii.eqb a c)) s = true -> Str.replaceAllStr c r s = s.
Proof.
  induction s as [|a s IH]; simpl; [reflexivity|].
  intros H. apply andb_true_iff in H as [Ha Hs].
  apply negb_true_iff in Ha. now rewrite Ha, (IH Hs).
Qed.

Lemma decodeFrom_id s :
  Str.forallb (fun a => negb (Ascii.eqb a "%")) s = true ->
  decodeURIComponent s = Some s.
Proof.
  unfold decodeURIComponent.
  induction s as [|a s IH]; simpl; [reflexivity|].
  intros H. apply andb_true_iff in H as [Ha Hs].
  apply negb_true_iff in Ha. rewrite Ha, (IH Hs). reflexivity.
Qed.

Lemma hasEncodedSlash_none s :
  Str.forallb (fun a => negb (Ascii.eqb a "%")) s = true ->
  hasEncodedSlash s = false.
Proof.
  induction s as [|a s IH]; simpl; [reflexivity|].
  intros H. apply andb_true_iff in H as [Ha Hs].
  apply negb_true_iff in Ha. now rewrite Ha, (IH Hs).
Qed.

(** *** Plain characters *)

Lemma plainChar_facts c :
  plainChar c = true ->
  inPathSet c = false /\ inFragmentSet c = false
  /\ Ascii.eqb c "/" = false /\ Ascii.eqb c "\" = false
  /\ Ascii.eqb c "%" = false /\ Ascii.eqb c "#" = false
  /\ Ascii.eqb "/" c = false.
Proof.
  destruct c as [[] [] [] [] [] [] [] []]; vm_compute; intros H;
    repeat split; congruence.
Qed.

Lemma pathChar_facts c :
  pathChar c = true ->
  inFragmentSet c = false
  /\ Ascii.eqb c "\" = false /\ Ascii.eqb c "%" = false
  /\ Ascii.eqb c "010" = false /\ Ascii.eqb c "013" = false
  /\ Ascii.eqb c "009" = false
  /\ oneOf (String "009" (String "010" (String "013" ""))) c = false.
Proof.
  destruct c as [[] [] [] [] [] [] [] []]; vm_compute; intros H;
    repeat split; congruence.
Qed.

Lemma plainSegment_chars s :
  plainSegment s = true -> Str.forallb plainChar s = true.
Proof.
  unfold plainSegment. intros H. now apply andb_true_iff in H as [_ H].
Qed.

Lemma plainSegment_facts s :
  plainSegment s = true ->
  Str.isEmpty s = false /\ (s =? ".")%string = false /\ (s =? "..")%string = false.
Proof.
  unfold plainSegment. intros H.
  apply andb_true_iff in H as [H _].
  apply andb_true_iff in H as [H H3].
  apply andb_true_iff in H as [H1 H2].
  now rewrite negb_true_iff in H1, H2, H3.
Qed.

Lemma normalForm_Forall l :
  normalForm l = true <-> Forall (fun s => plainSegment s = true) l.
Proof.
  unfold normalForm. rewrite forallb_forall, Forall_forall.
  split; intros H x Hx; apply H; now apply list_elem_of_In.
Qed.

Lemma normalForm_app a b :
  normalForm (a ++ b) = normalForm a && normalForm b.
Proof. unfold normalForm. apply List.forallb_app. Qed.

Lemma normalForm_chars (p : ascii -> bool) l :
  (forall c, plainChar c = true -> p c = true) ->
  normalForm l = true -> Forall (fun s => Str.forallb p s = true) l.
Proof.
  intros Hp H. apply normalForm_Forall in H.
  eapply Forall_impl; [exact H|]. simpl. intros s Hs.
  apply (forallb_weaken plainChar); [exact Hp | now apply plainSegment_chars].
Qed.

Lemma pathChar_join l :
  normalForm l = true -> Str.forallb pathChar (Str.join "/" l) = true.
Proof.
  intros H. apply forallb_join; [reflexivity|].
  apply normalForm_chars; [|exact H].
  intros c Hc. unfold pathChar. now rewrite Hc.
Qed.

Lemma pathChar_absolute l :
  normalForm l = true -> Str.forallb pathChar (absolutePath l) = true.
Proof. intros H. unfold absolutePath. simpl. now apply pathChar_join. Qed.

End StrFacts.

Module PathFacts.
Import Url Observe StrFacts.

#[local] Arguments String.append : simpl nomatch.

Lemma string_snoc s : s <> "" -> exists t c, s = t +:+ String c "".
Proof.
  induction s as [|a s IH]; [congruence|]. intros _.
  destruct s as [|b s].
  - now exists "", a.
  - destruct IH as (t & c & E); [discriminate|].
    exists (String a t), c. simpl. now rewrite E.
Qed.

Lemma list_ascii_app a b :
  list_ascii_of_string (a +:+ b) = list_ascii_of_string a ++ list_ascii_of_string b.
Proof. induction a as [|x a IH]; simpl; [reflexivity | now rewrite IH]. Qed.

Lemma endsWith_slash_snoc t c :
  Str.endsWith "/" (t +:+ String c "") = Ascii.eqb c "/".
Proof.
  unfold Str.endsWith, Str.rev. rewrite list_ascii_app. simpl.
  rewrite rev_app_distr. simpl.
  destruct c as [[] [] [] [] [] [] [] []]; reflexivity.
Qed.

Lemma join_last sep l : l <> [] -> exists pre, Str.join sep l = pre +:+ List.last l "".
Proof.
  induction l as [|x l IH]; [congruence|]. intros _.
  destruct l as [|y l].
  - now exists "".
  - destruct IH as (pre & E); [discriminate|].
    exists (x +:+ sep +:+ pre).
    change (Str.join sep (x :: y :: l)) with (x +:+ sep +:+ Str.join sep (y :: l)).
    rewrite E. now rewrite !append_assoc.
Qed.

Lemma last_plain l :
  l <> [] -> normalForm l = true -> plainSegment (List.last l "") = true.
Proof.
  intros Hne H. apply normalForm_Forall in H. rewrite Forall_forall in H.
  apply H. apply list_elem_of_In.
  destruct l; [congruence|]. apply (@exists_last _ (s :: l)) in Hne as (l' & a & E).
  rewrite E, last_last. apply in_or_app. right. now left.
Qed.

Lemma endsWith_normalForm pre l :
  l <> [] -> normalForm l = true ->
  Str.endsWith "/" (pre +:+ Str.join "/" l) = false.
Proof.
  intros Hne H.
  destruct (join_last "/" l Hne) as (p & E). rewrite E.
  pose proof (last_plain l Hne H) as Hlast.
  destruct (plainSegment_facts _ Hlast) as (Hnonempty & _).
  destruct (string_snoc (List.last l "")) as (t & c & Et).
  { intros Hx. rewrite Hx in Hnonempty. discriminate. }
  rewrite Et, <- !append_assoc, endsWith_slash_snoc.
  apply plainSegment_chars in Hlast. rewrite Et, forallb_app in Hlast.
  apply andb_true_iff in Hlast as [_ Hc]. simpl in Hc.
  apply andb_true_iff in Hc as [Hc _].
  now apply plainChar_facts in Hc.
Qed.

Lemma nosep_slash l :
  normalForm l = true ->
  Forall (fun s => Str.forallb (fun a => negb (Ascii.eqb "/" a)) s = true) l.
Proof.
  apply normalForm_chars. intros c Hc.
  apply plainChar_facts in Hc as (_ & _ & _ & _ & _ & _ & H). now rewrite H.
Qed.

Lemma split_join l :
  l <> [] -> normalForm l = true -> Str.split "/" (Str.join "/" l) = l.
Proof.
  intros Hne H. unfold Str.split.
  apply splitBy_join; [reflexivity | exact Hne | now apply nosep_slash].
Qed.

Lemma split_absolute l :
  l <> [] -> normalForm l = true -> Str.split "/" (absolutePath l) = "" :: l.
Proof.
  intros Hne H. unfold absolutePath, Str.split. simpl.
  f_equal. now apply split_join.
Qed.

Lemma split_absolute_slash l :
  l <> [] -> normalForm l = true ->
  Str.split "/" (absolutePath l +:+ "/") = "" :: l ++ [""].
Proof.
  intros Hne H. unfold absolutePath, Str.split. simpl. f_equal.
  assert (E : Str.join "/" l +:+ "/" = Str.join "/" (l ++ [""])).
  { rewrite join_app by (congruence || discriminate). reflexivity. }
  rewrite E. apply splitBy_join; [reflexivity | now destruct l |].
  apply Forall_app. split; [now apply nosep_slash | now repeat constructor].
Qed.

Lemma normalizeSegments_normalForm a res l tail :
  normalForm l = true ->
  Path.normalizeSegments a res (l ++ tail)
  = Path.normalizeSegments a (List.rev l ++ res) tail.
Proof.
  revert res. induction l as [|s l IH]; intros res H; [reflexivity|].
  simpl in H. apply andb_true_iff in H as [Hs Hl].
  destruct (plainSegment_facts s Hs) as (H1 & H2 & H3).
  simpl. assert (E : (s =? "")%string = false) by (now destruct s).
  rewrite E, H2, H3. simpl. rewrite (IH _ Hl).
  now rewrite <- app_assoc.
Qed.

Lemma normalizeString_absolute l :
  l <> [] -> normalForm l = true ->
  Path.normalizeString (absolutePath l) false = Str.join "/" l.
Proof.
  intros Hne H. unfold Path.normalizeString.
  rewrite split_absolute by assumption. simpl.
  rewrite <- (app_nil_r l) at 1.
  rewrite normalizeSegments_normalForm by assumption. simpl.
  now rewrite app_nil_r, rev_involutive.
Qed.

Lemma normalizeString_absolute_slash l :
  l <> [] -> normalForm l = true ->
  Path.normalizeString (absolutePath l +:+ "/") false = Str.join "/" l.
Proof.
  intros Hne H. unfold Path.normalizeString.
  rewrite split_absolute_slash by assumption. simpl.
  rewrite normalizeSegments_normalForm by assumption. simpl.
  now rewrite app_nil_r, rev_involutive.
Qed.

Lemma normalize_absolute l :
  l <> [] -> normalForm l = true ->
  Path.normalize (absolutePath l) = absolutePath l.
Proof.
  intros Hne H. unfold Path.normalize.
  replace (Str.isEmpty (absolutePath l)) with false by reflexivity.
  replace (Path.isAbsolute (absolutePath l)) with true by reflexivity.
  assert (E : Str.endsWith "/" (absolutePath l) = false)
    by (now apply endsWith_normalForm).
  rewrite E. simpl negb.
  rewrite normalizeString_absolute by assumption.
  now rewrite !andb_false_r.
Qed.

Lemma join_nonempty l :
  l <> [] -> normalForm l = true -> Str.isEmpty (Str.join "/" l) = false.
Proof.
  intros Hne H. destruct l as [|s l]; [congruence|].
  simpl in H. apply andb_true_iff in H as [Hs _].
  destruct (plainSegment_facts s Hs) as (H1 & _).
  destruct s; [discriminate|]. now destruct l.
Qed.

Lemma absolute_app rs ps :
  rs <> [] -> ps <> [] ->
  absolutePath rs +:+ "/" +:+ Str.join "/" ps = absolutePath (rs ++ ps).
Proof.
  intros Hr Hp. unfold absolutePath. rewrite join_app by assumption.
  now rewrite !append_assoc.
Qed.

(** [path.posix.join] of a root in normal form and a relative path in
    normal form appends the segments. *)
Lemma join_absolute rs ps :
  rs <> [] -> normalForm rs = true -> normalForm ps = true ->
  Path.join [absolutePath rs; Str.join "/" ps] = absolutePath (rs ++ ps).
Proof.
  intros Hne Hr Hp. unfold Path.join.
  destruct ps as [|p ps].
  - simpl. rewrite app_nil_r. now apply normalize_absolute.
  - assert (Hps : p :: ps <> []) by discriminate.
    assert (E : List.filter (fun a => negb (Str.isEmpty a))
                  [absolutePath rs; Str.join "/" (p :: ps)]
                = [absolutePath rs; Str.join "/" (p :: ps)]).
    { cbn [List.filter].
      replace (Str.isEmpty (absolutePath rs)) with false by reflexivity.
      now rewrite (join_nonempty (p :: ps)) by assumption. }
    rewrite E.
    change (Str.join "/" [absolutePath rs; Str.join "/" (p :: ps)])
      with (absolutePath rs +:+ "/" +:+ Str.join "/" (p :: ps)).
    rewrite absolute_app by assumption.
    apply normalize_absolute; [now destruct rs|].
    now rewrite normalForm_app, Hr, Hp.
Qed.

Lemma resolve_absolute cwd l :
  l <> [] -> normalForm l = true ->
  Path.resolve cwd (absolutePath l) = absolutePath l.
Proof.
  intros Hne H. unfold Path.resolve.
  replace (Str.isEmpty (absolutePath l)) with false by reflexivity.
  replace (Path.isAbsolute (absolutePath l)) with true by reflexivity.
  simpl negb. now rewrite normalizeString_absolute_slash.
Qed.

Lemma segments_absolute l :
  l <> [] -> normalForm l = true -> Path.segments (absolutePath l) = l.
Proof.
  intros Hne H. unfold Path.segments. rewrite split_absolute by assumption.
  simpl. clear Hne. induction l as [|s l IH]; [reflexivity|].
  simpl in H. apply andb_true_iff in H as [Hs Hl].
  destruct (plainSegment_facts s Hs) as (H1 & _).
  simpl. rewrite H1. simpl. now rewrite IH.
Qed.

Lemma stripCommon_prefix rs ps : Path.stripCommon rs (rs ++ ps) = ([], ps).
Proof.
  induction rs as [|r rs IH]; simpl; [now destruct ps|].
  now rewrite String.eqb_refl.
Qed.

(** [path.relative] from a root in normal form to a path below it gives
    the segments below the root. *)
Lemma relative_absolute cwd rs ps :
  rs <> [] -> normalForm rs = true -> normalForm ps = true ->
  Path.relative cwd (absolutePath rs) (absolutePath (rs ++ ps)) = Str.join "/" ps.
Proof.
  intros Hne Hr Hp.
  assert (Hall : normalForm (rs ++ ps) = true) by (now rewrite normalForm_app, Hr, Hp).
  assert (Hne' : rs ++ ps <> []) by (now destruct rs).
  unfold Path.relative.
  destruct (String.eqb_spec (absolutePath rs) (absolutePath (rs ++ ps))) as [E|E].
  - apply (f_equal Path.segments) in E.
    rewrite !segments_absolute in E by assumption.
    rewrite <- (app_nil_r rs) in E at 1. apply app_inv_head in E. now subst.
  - rewrite !resolve_absolute by assumption.
    destruct (String.eqb_spec (absolutePath rs) (absolutePath (rs ++ ps)));
      [contradiction|].
    rewrite !segments_absolute by assumption.
    now rewrite stripCommon_prefix.
Qed.

End PathFacts.

Module UrlFacts.
Import Url Observe StrFacts PathFacts.

#[local] Arguments String.append : simpl nomatch.

Lemma plain_not_dots s :
  plainSegment s = true -> isDoubleDot s = false /\ isSingleDot s = false.
Proof.
  intros H. unfold isDoubleDot, isSingleDot. simpl.
  repeat match goal with
         | |- context [(s =? ?x)%string] =>
             destruct (String.eqb_spec s x) as [->|_];
             [vm_compute in H; discriminate|]
         end.
  auto.
Qed.

Lemma percentEncode_plain s :
  plainSegment s = true -> percentEncode inPathSet s = s.
Proof.
  intros H. apply percentEncode_id.
  apply (forallb_weaken plainChar); [|now apply plainSegment_chars].
  intros c Hc. apply plainChar_facts in Hc as (Hc & _). now rewrite Hc.
Qed.

Lemma pathState_step file path s rest :
  plainSegment s = true ->
  (path = [] -> isWindowsDriveLetter s = false) ->
  pathState file path (s :: rest) = pathState file (s :: path) rest.
Proof.
  intros Hs Hd. simpl. rewrite (percentEncode_plain s Hs).
  destruct (plain_not_dots s Hs) as (-> & ->).
  destruct path as [|p path].
  - rewrite (Hd eq_refl). now rewrite andb_false_r.
  - now rewrite andb_false_r.
Qed.

Lemma pathState_normalForm file path l :
  path <> [] -> normalForm l = true ->
  pathState file path l = List.rev path ++ l.
Proof.
  revert path. induction l as [|s l IH]; intros path Hne H.
  - simpl. now rewrite app_nil_r.
  - simpl in H. apply andb_true_iff in H as [Hs Hl].
    rewrite pathState_step by (assumption || congruence).
    rewrite IH by (assumption || discriminate).
    simpl. now rewrite <- app_assoc.
Qed.

Lemma pathState_root file l :
  normalForm l = true -> isWindowsDriveLetter (hd "" l) = false ->
  pathState file [] l = l.
Proof.
  intros H Hd. destruct l as [|s l]; [reflexivity|].
  simpl in H, Hd. apply andb_true_iff in H as [Hs Hl].
  rewrite pathState_step by auto.
  now rewrite pathState_normalForm by (assumption || discriminate).
Qed.

Lemma serializePath_absolute l :
  l <> [] -> serializePath l = absolutePath l.
Proof.
  unfold serializePath, absolutePath.
  induction l as [|x l IH]; [congruence|]. intros _.
  destruct l as [|y l]; [reflexivity|].
  change (String.concat "" (List.map (fun s => "/" +:+ s) (x :: y :: l)))
    with (("/" +:+ x) +:+ "" +:+ String.concat "" (List.map (fun s => "/" +:+ s) (y :: l))).
  rewrite IH by discriminate.
  change (Str.join "/" (x :: y :: l)) with (x +:+ "/" +:+ Str.join "/" (y :: l)).
  rewrite append_assoc. reflexivity.
Qed.

Lemma stripTabNewline_path s :
  Str.forallb pathChar s = true -> stripTabNewline s = s.
Proof.
  intros H. unfold stripTabNewline. apply filterChars_id.
  apply (forallb_weaken pathChar); [|exact H].
  intros c Hc. apply pathChar_facts in Hc as (_ & _ & _ & _ & _ & _ & Hc).
  now rewrite Hc.
Qed.

Lemma splitBy_separators (special : bool) l :
  l <> [] -> normalForm l = true ->
  Str.splitBy (fun c => Ascii.eqb c "/" || (special && Ascii.eqb c "\"))
    (Str.join "/" l) = l.
Proof.
  intros Hne H. apply splitBy_join; [reflexivity | exact Hne |].
  apply normalForm_chars; [|exact H].
  intros c Hc. apply plainChar_facts in Hc as (_ & _ & H1 & H2 & _).
  rewrite H1, H2. now rewrite andb_false_r.
Qed.

(** The [pathname] setter of a [file:] URL, given an absolute path in
    normal form, stores it as it is. *)
Lemma set_pathname_absolute u l :
  opaque u = false -> protocol u = "file:" ->
  l <> [] -> normalForm l = true -> isWindowsDriveLetter (hd "" l) = false ->
  set_pathname u (absolutePath l) = withPathname u (absolutePath l).
Proof.
  intros Ho Hp Hne H Hd. unfold set_pathname, withPathname.
  rewrite Ho, Hp. rewrite stripTabNewline_path by (now apply pathChar_absolute).
  unfold absolutePath at 1. simpl.
  rewrite (splitBy_separators true) by assumption.
  rewrite pathState_root by assumption.
  now rewrite serializePath_absolute.
Qed.

Lemma no_char_path (c : ascii) s :
  (forall a, pathChar a = true -> Ascii.eqb a c = false) ->
  Str.forallb pathChar s = true ->
  Str.forallb (fun a => negb (Ascii.eqb a c)) s = true.
Proof.
  intros Hc. apply forallb_weaken. intros a Ha. now rewrite (Hc a Ha).
Qed.

Lemma pathToFileURL_absolute cwd l :
  l <> [] -> normalForm l = true -> isWindowsDriveLetter (hd "" l) = false ->
  pathToFileURL cwd (absolutePath l) = withPathname emptyFileURL (absolutePath l).
Proof.
  intros Hne H Hd. unfold pathToFileURL. cbv zeta.
  rewrite resolve_absolute by assumption.
  assert (E : Str.endsWith "/" (absolutePath l) = false)
    by (now apply endsWith_normalForm).
  rewrite E. cbn [andb].
  pose proof (pathChar_absolute l H) as Hc.
  assert (Hno : forall c r,
             (forall a, pathChar a = true -> Ascii.eqb a c = false) ->
             Str.replaceAllStr c r (absolutePath l) = absolutePath l).
  { intros c r Hcr. apply replaceAllStr_id. now apply no_char_path. }
  rewrite (Hno "%"%char) by (intros a Ha; apply pathChar_facts in Ha; tauto).
  rewrite (Hno "\"%char) by (intros a Ha; apply pathChar_facts in Ha; tauto).
  rewrite (Hno "010"%char) by (intros a Ha; apply pathChar_facts in Ha; tauto).
  rewrite (Hno "013"%char) by (intros a Ha; apply pathChar_facts in Ha; tauto).
  rewrite (Hno "009"%char) by (intros a Ha; apply pathChar_facts in Ha; tauto).
  now apply set_pathname_absolute.
Qed.

Lemma fileURLToPath_absolute u l :
  protocol u = "file:" -> url_hostname u = "" -> normalForm l = true ->
  fileURLToPath (withPathname u (absolutePath l)) = inr (absolutePath l).
Proof.
  intros Hp Hh H. unfold fileURLToPath, withPathname, url_hostname in *. simpl.
  rewrite Hp, Hh. simpl.
  pose proof (pathChar_absolute l H) as Hc.
  assert (Hno : Str.forallb (fun a => negb (Ascii.eqb a "%")) (absolutePath l) = true).
  { apply no_char_path; [|exact Hc]. intros a Ha. apply pathChar_facts in Ha. tauto. }
  now rewrite hasEncodedSlash_none, decodeFrom_id.
Qed.

(** The [hash] setter, given a relative path in normal form, stores it as
    the fragment; given the empty string it removes the fragment. *)
Lemma set_hash_normalForm u l :
  normalForm l = true -> set_hash u (Str.join "/" l) = withFragment u (fragmentOf l).
Proof.
  intros H. unfold set_hash, withFragment. f_equal.
  destruct l as [|s l]; [reflexivity|].
  assert (Hne : s :: l <> []) by discriminate.
  pose proof (pathChar_join (s :: l) H) as Hc.
  pose proof (join_nonempty (s :: l) Hne H) as Hnonempty.
  unfold fragmentOf.
  destruct (Str.join "/" (s :: l)) as [|c r] eqn:E; [discriminate|].
  assert (Hhash : Ascii.eqb c "#" = false).
  { simpl in H. apply andb_true_iff in H as [Hs _].
    pose proof (plainSegment_chars s Hs) as Hpl.
    destruct s as [|c' s']; [discriminate|].
    assert (c = c').
    { destruct l; simpl in E; congruence. }
    subst c'. simpl in Hpl. apply andb_true_iff in Hpl as [Hpl _].
    apply plainChar_facts in Hpl. tauto. }
  rewrite Hhash. rewrite stripTabNewline_path by exact Hc.
  f_equal. apply percentEncode_id.
  apply (forallb_weaken pathChar); [|exact Hc].
  intros a Ha. apply pathChar_facts in Ha as (Ha & _). now rewrite Ha.
Qed.

Lemma hash_fragmentOf u l :
  normalForm l = true ->
  Str.substr1 (hash (withFragment u (fragmentOf l))) = Str.join "/" l.
Proof.
  intros H. unfold hash, withFragment. simpl.
  destruct l as [|s l]; [reflexivity|].
  unfold fragmentOf.
  now rewrite (join_nonempty (s :: l)) by (discriminate || assumption).
Qed.

Lemma replaceAll_backslash l :
  normalForm l = true ->
  Str.replaceAll "\" "/" (Str.join "/" l) = Str.join "/" l.
Proof.
  intros H. apply replaceAll_id.
  apply no_char_path; [|now apply pathChar_join].
  intros a Ha. apply pathChar_facts in Ha. tauto.
Qed.

End UrlFacts.

(** ** The two rewrite rules *)

Module RuleFacts.
Import Json Url Proxy Observe StrFacts PathFacts UrlFacts.

#[local] Arguments String.append : simpl nomatch.

(** The archive-to-filesystem rule never throws once the filesystem root
    exists, and reads nothing of its argument but the fragment. *)
Lemma transformZipToFileUri_fragment env st root u :
  fileRootUri st = Some root ->
  newURL env (JStr (href root)) = Some root ->
  transformZipToFileUri env st u
  = Ok (set_pathname root (Path.join [pathname root; Str.substr1 (hash u)])).
Proof.
  intros Hroot Hnew. unfold transformZipToFileUri, construct.
  now rewrite Hroot, Hnew.
Qed.

(** C1, as the code has it.  In a session whose extraction root is an
    absolute path in normal form (segments that are not empty, not [.] or
    [..], made of characters that need no escaping, the first not a drive
    letter), the two rules are inverse to each other on the addresses
    whose path below the root is in normal form: the archive address with
    fragment [p] is rewritten to the file address of [root/p], and that
    file address is rewritten back to the archive address with fragment
    [p]; the archive root itself, without fragment, corresponds to the
    extraction root. *)
Theorem rewrite_rules_inverse env st zip rs ps :
  rs <> [] -> normalForm rs = true -> isWindowsDriveLetter (hd "" rs) = false ->
  normalForm ps = true ->
  zipRootUri st = Some zip ->
  extractPath st = Some (absolutePath rs) ->
  fileRootUri st = Some (pathToFileURL (cwd env) (absolutePath rs)) ->
  newURL env (JStr (href zip)) = Some zip ->
  newURL env (JStr (href (pathToFileURL (cwd env) (absolutePath rs))))
  = Some (pathToFileURL (cwd env) (absolutePath rs)) ->
  let A := withFragment zip (fragmentOf ps) in
  let F := withPathname (pathToFileURL (cwd env) (absolutePath rs))
                        (absolutePath (rs ++ ps)) in
  transformZipToFileUri env st A = Ok F
  /\ transformFileToZipUri env st F = Ok A.
Proof.
  intros Hne Hrs Hd Hps Hzip Hextract Hfile Hnewzip Hnewfile A F.
  assert (Hall : normalForm (rs ++ ps) = true) by (now rewrite normalForm_app, Hrs, Hps).
  assert (Hne' : rs ++ ps <> []) by (now destruct rs).
  assert (Hd' : isWindowsDriveLetter (hd "" (rs ++ ps)) = false) by (now destruct rs).
  pose proof (pathToFileURL_absolute (cwd env) rs Hne Hrs Hd) as Eroot.
  split.
  - rewrite (transformZipToFileUri_fragment env st _ A Hfile Hnewfile).
    f_equal. unfold A. rewrite hash_fragmentOf by assumption.
    rewrite Eroot. cbn [pathname withPathname].
    rewrite join_absolute by assumption.
    now apply set_pathname_absolute.
  - unfold transformFileToZipUri, construct, F.
    rewrite fileURLToPath_absolute by (try assumption; now rewrite Eroot).
    rewrite Hzip, Hnewzip, Hextract. simpl obind.
    rewrite relative_absolute, replaceAll_backslash by assumption.
    now rewrite set_hash_normalForm.
Qed.

Lemma rewrite_rules_inverse_witness :
  let env := Sample.env [] in
  let st := Sample.active in
  let A := withFragment Sample.zipRoot (Some "src/index.ts") in
  let F := withPathname (pathToFileURL "/" "/tmp/ws/repo") "/tmp/ws/repo/src/index.ts" in
  ["tmp"; "ws"; "repo"] <> []
  /\ normalForm ["tmp"; "ws"; "repo"] = true
  /\ normalForm ["src"; "index.ts"] = true
  /\ transformZipToFileUri env st A = Ok F
  /\ transformFileToZipUri env st F = Ok A.
Proof.
  intros env st A F.
  assert (Hne : ["tmp"; "ws"; "repo"] <> []) by discriminate.
  split; [exact Hne|]. split; [reflexivity|]. split; [reflexivity|].
  exact (rewrite_rules_inverse env st Sample.zipRoot
           ["tmp"; "ws"; "repo"] ["src"; "index.ts"]
           Hne eq_refl eq_refl eq_refl eq_refl eq_refl eq_refl eq_refl eq_refl).
Defined.

(** C1 as stated fails on an archive address whose fragment ends with a
    slash: the file address keeps the slash, [path.relative] drops it, so
    the way back gives another archive address, and rewriting that one
    gives another file address. *)
Lemma rewrite_rules_not_inverse :
  let env := Sample.env [] in
  let st := Sample.active in
  let A := withFragment Sample.zipRoot (Some "src/") in
  exists F A' F',
    transformZipToFileUri env st A = Ok F
    /\ transformFileToZipUri env st F = Ok A'
    /\ transformZipToFileUri env st A' = Ok F'
    /\ A' <> A /\ F' <> F.
Proof.
  intros env st A.
  exists (withPathname (pathToFileURL "/" "/tmp/ws/repo") "/tmp/ws/repo/src/").
  exists (withFragment Sample.zipRoot (Some "src")).
  exists (withPathname (pathToFileURL "/" "/tmp/ws/repo") "/tmp/ws/repo/src").
  repeat split; try reflexivity; discriminate.
Qed.

(** C5, as the code has it.  On the way to the language server an address
    outside the archive root is not refused: whatever the address, the
    rule succeeds, and two addresses with the same fragment get the same
    file address.  On the way back the rule throws for an address whose
    scheme is not [file:] or whose host is not empty. *)
Theorem addresses_outside_roots env st root :
  fileRootUri st = Some root ->
  newURL env (JStr (href root)) = Some root ->
  (forall u, exists f, transformZipToFileUri env st u = Ok f)
  /\ (forall u v, hash u = hash v ->
                  transformZipToFileUri env st u = transformZipToFileUri env st v)
  /\ (forall u, protocol u <> "file:" ->
                transformFileToZipUri env st u
                = Throw (FileUrlError ERR_INVALID_URL_SCHEME))
  /\ (forall u, protocol u = "file:" -> url_hostname u <> "" ->
                transformFileToZipUri env st u
                = Throw (FileUrlError ERR_INVALID_FILE_URL_HOST)).
Proof.
  intros Hroot Hnew. split; [|split; [|split]].
  - intros u. eexists.
    exact (transformZipToFileUri_fragment env st root u Hroot Hnew).
  - intros u v Huv.
    rewrite !(transformZipToFileUri_fragment env st root) by assumption.
    now rewrite Huv.
  - intros u Hu. unfold transformFileToZipUri, fileURLToPath.
    destruct (String.eqb_spec (protocol u) "file:"); [contradiction | reflexivity].
  - intros u Hp Hh. unfold transformFileToZipUri, fileURLToPath.
    rewrite Hp. simpl. destruct (url_hostname u); [contradiction | reflexivity].
Qed.

Lemma addresses_outside_roots_witness :
  fileRootUri Sample.active = Some (pathToFileURL "/" "/tmp/ws/repo")
  /\ (exists f,
        transformZipToFileUri (Sample.env []) Sample.active
          {| protocol := "https:";
             host := Some {| userinfo := ""; hostname := "other.example"; port := "" |};
             opaque := false; pathname := "/else.zip"; query := None;
             fragment := Some "src/index.ts" |} = Ok f).
Proof.
  split; [reflexivity|].
  exact (proj1 (addresses_outside_roots (Sample.env []) Sample.active
                  (pathToFileURL "/" "/tmp/ws/repo") eq_refl eq_refl) _).
Defined.

(** C5 as stated fails: a request naming a file of another archive is
    forwarded to the language server with the address of a file of this
    session's checkout, and no error is reported. *)
Lemma outside_address_rewritten_silently :
  let message :=
    Sample.request 2 "textDocument/hover"
      (JObj [("textDocument",
              JObj [("uri", JStr "https://other.example/else.zip#src/index.ts")])]) in
  let t := events (onClientMessage (Sample.env []) message) Sample.active in
  toServer t
  = [Sample.request 2 "textDocument/hover"
       (JObj [("textDocument",
               JObj [("uri", JStr "file:///tmp/ws/repo/src/index.ts")])])]
  /\ toClient t = [].
Proof. split; reflexivity. Qed.

End RuleFacts.

(** ** Rewriting the [uri] properties of a message *)

Module RewriteFacts.
Import Json Url Proxy Observe.


Lemma namesUri_cons s p : p <> [] -> namesUri (s :: p) = namesUri p.
Proof. unfold namesUri. destruct p; [congruence | reflexivity]. Qed.

Lemma at_path_scalar p v :
  p <> [] ->
  match v with JObj _ | JArr _ => False | _ => True end ->
  at_path p v = None.
Proof. destruct p as [|[k|i] p]; [congruence| |]; now destruct v. Qed.

Section Rewrite.
Variable env : Env.
Variable transform : URL -> Outcome URL.

Let rewrites (m m' : json) : Prop := forall p, rewrittenAt env transform m m' p.

(** How one field of an object fares, [uri'] being the new value of the
    [uri] property if the object has one. *)
Let fieldRewritten (uri' : option json) (kv kv' : string * json) : Prop :=
  fst kv' = fst kv
  /\ match uri' with
     | Some s => if (fst kv =? "uri")%string then snd kv' = s
                 else rewrites (snd kv) (snd kv')
     | None => rewrites (snd kv) (snd kv')
     end.

Lemma forEach_fields uri' fs :
  Forall (fun kv => wellFormed env transform (snd kv)
                    -> exists m', rewriteUris env transform (snd kv) = Ok m'
                                  /\ rewrites (snd kv) m') fs ->
  Forall (fun kv => wellFormed env transform (snd kv)) fs ->
  exists fs',
    forEach (fun kv =>
               chk v' <- match uri' with
                         | Some s => if (fst kv =? "uri")%string then Ok s
                                     else rewriteUris env transform (snd kv)
                         | None => rewriteUris env transform (snd kv)
                         end ;;
               Ok (fst kv, v')) fs = Ok fs'
    /\ Forall2 (fieldRewritten uri') fs fs'.
Proof.
  intros IH Hwf. induction fs as [|kv fs IHfs].
  - exists []. split; [reflexivity | constructor].
  - inversion IH as [|? ? Hkv IHrest]; subst.
    inversion Hwf as [|? ? Wkv Wrest]; subst.
    destruct (IHfs IHrest Wrest) as (fs' & E & F).
    destruct (Hkv Wkv) as (m' & Em & Rm).
    cbn [forEach]. rewrite E.
    destruct uri' as [s|].
    + destruct (fst kv =? "uri")%string eqn:Ek.
      * exists ((fst kv, s) :: fs'). split; [reflexivity|].
        constructor; [|exact F]. split; [reflexivity|]. now rewrite Ek.
      * rewrite Em. exists ((fst kv, m') :: fs'). split; [reflexivity|].
        constructor; [|exact F]. split; [reflexivity|]. now rewrite Ek.
    + rewrite Em. exists ((fst kv, m') :: fs'). split; [reflexivity|].
      constructor; [|exact F]. now split.
Qed.

Lemma forEach_items l :
  Forall (fun v => wellFormed env transform v
                   -> exists m', rewriteUris env transform v = Ok m'
                                 /\ rewrites v m') l ->
  Forall (wellFormed env transform) l ->
  exists l',
    forEach (fun v => rewriteUris env transform v) l = Ok l'
    /\ Forall2 rewrites l l'.
Proof.
  intros IH Hwf. induction l as [|v l IHl].
  - exists []. split; [reflexivity | constructor].
  - inversion IH as [|? ? Hv IHrest]; subst.
    inversion Hwf as [|? ? Wv Wrest]; subst.
    destruct (IHl IHrest Wrest) as (l' & E & F).
    destruct (Hv Wv) as (m' & Em & Rm).
    cbn [forEach]. rewrite Em, E.
    exists (m' :: l'). split; [reflexivity | now constructor].
Qed.

Lemma fields_keys uri' fs fs' :
  Forall2 (fieldRewritten uri') fs fs' -> List.map fst fs = List.map fst fs'.
Proof.
  induction 1 as [|kv kv' fs fs' [Hk _] _ IH]; [reflexivity|].
  simpl. now rewrite Hk, IH.
Qed.

Lemma fields_get uri' fs fs' k :
  Forall2 (fieldRewritten uri') fs fs' ->
  match obj_get k fs with
  | None => obj_get k fs' = None
  | Some v =>
      exists v', obj_get k fs' = Some v'
                 /\ match uri' with
                    | Some s => if (k =? "uri")%string then v' = s
                                else rewrites v v'
                    | None => rewrites v v'
                    end
  end.
Proof.
  induction 1 as [|[k1 v1] [k1' v1'] fs fs' [Hk Hv] _ IH]; [reflexivity|].
  simpl in Hk, Hv. subst k1'. simpl.
  destruct (String.eqb_spec k1 k) as [->|Hne]; [|exact IH].
  exists v1'. split; [reflexivity | exact Hv].
Qed.

Lemma items_nth l l' i :
  Forall2 rewrites l l' ->
  match nth_error l i with
  | None => nth_error l' i = None
  | Some v => exists v', nth_error l' i = Some v' /\ rewrites v v'
  end.
Proof.
  intros F. revert i. induction F as [|v v' l l' Hv _ IH]; intros i.
  - now destruct i.
  - destruct i as [|i]; simpl; [now exists v' | apply IH].
Qed.

Lemma rewrites_node m m' : rewrites m m' -> sameNode m m'.
Proof.
  intros H. specialize (H []). unfold rewrittenAt in H. simpl in H.
  destruct H as (y & [= <-] & Hy). exact Hy.
Qed.

(** The general statement, by induction on the message. *)
Lemma rewriteUris_rewrites m :
  wellFormed env transform m ->
  exists m', rewriteUris env transform m = Ok m' /\ rewrites m m'.
Proof.
  induction m as [| b | n | s | l IH | fs IH] using json_induction; intros Hwf.
  1-4: eexists; split; [reflexivity|]; intros p; unfold rewrittenAt;
       destruct p as [|st p];
       [ simpl; eexists; split; [reflexivity | simpl; auto]
       | now rewrite !at_path_scalar by (discriminate || exact I) ].
  - inversion Hwf as [| | | | ? Hl |]; subst.
    destruct (forEach_items l IH Hl) as (l' & E & F).
    exists (JArr l'). cbn [rewriteUris]. rewrite E. split; [reflexivity|].
    intros p. unfold rewrittenAt. destruct p as [|[k|i] p].
    + simpl. eexists; split; [reflexivity|]. simpl.
      now apply Forall2_length in F.
    + reflexivity.
    + simpl. pose proof (items_nth l l' i F) as Hi.
      destruct (nth_error l i) as [v|]; [|now rewrite Hi].
      destruct Hi as (v' & -> & Hv).
      destruct p as [|st p].
      * simpl. exists v'. split; [reflexivity | now apply rewrites_node].
      * rewrite namesUri_cons by discriminate. exact (Hv (st :: p)).
  - inversion Hwf as [| | | | | ? Huri Hfs]; subst.
    assert (Euri : exists uri',
               match obj_get "uri" fs with
               | Some v =>
                   chk u <- match newURL env v with
                            | Some u => Ok u
                            | None => Throw (InvalidURL v)
                            end ;;
                   chk t <- transform u ;;
                   Ok (Some (JStr (href t)))
               | None => Ok None
               end = Ok uri'
               /\ match obj_get "uri" fs with
                  | Some v => exists s u t,
                      v = JStr s /\ newURL env v = Some u /\ transform u = Ok t
                      /\ uri' = Some (JStr (href t))
                  | None => uri' = None
                  end).
    { destruct (obj_get "uri" fs) as [v|].
      - destruct (Huri v eq_refl) as (s & u & t & Hs & Hu & Ht).
        exists (Some (JStr (href t))). rewrite Hu. simpl. rewrite Ht.
        split; [reflexivity|]. now exists s, u, t.
      - now exists None. }
    destruct Euri as (uri' & Euri & Huri').
    destruct (forEach_fields uri' fs IH Hfs) as (fs' & E & F).
    exists (JObj fs'). cbn [rewriteUris]. rewrite Euri. cbn [obind].
    rewrite E. split; [reflexivity|].
    intros p. unfold rewrittenAt. destruct p as [|[k|i] p].
    + simpl. eexists; split; [reflexivity|]. simpl.
      now apply fields_keys in F.
    + simpl. pose proof (fields_get uri' fs fs' k F) as Hk.
      destruct (obj_get k fs) as [v|] eqn:Ev; [|now rewrite Hk].
      destruct Hk as (v' & -> & Hv).
      destruct (String.eqb_spec k "uri") as [->|Hne].
      * rewrite Ev in Huri'. destruct Huri' as (s & u & t & -> & Hu & Ht & ->).
        subst v'. destruct p as [|st p].
        -- simpl. now exists u, t.
        -- now rewrite !at_path_scalar by (discriminate || exact I).
      * assert (Hv' : rewrites v v') by (now destruct uri').
        destruct p as [|st p].
        -- simpl. unfold namesUri. simpl.
           destruct (String.eqb_spec k "uri"); [contradiction|].
           exists v'. split; [reflexivity | now apply rewrites_node].
        -- rewrite namesUri_cons by discriminate. exact (Hv' (st :: p)).
    + reflexivity.
Qed.

End Rewrite.

(** C2, as the code has it.  On a message whose every [uri] property
    holds a string that the URL constructor accepts and that the rule in
    use maps to an address, [rewriteUris] does not throw, and the message
    it leaves
    differs from the original only at the [uri] properties: a position
    that exists holds, if it is a [uri] property, the rewritten address,
    and otherwise the same scalar, an array of the same length or an
    object with the same keys; a position that does not exist still does
    not exist. *)
Theorem rewriteUris_total_minimal env transform m :
  wellFormed env transform m ->
  exists m',
    rewriteUris env transform m = Ok m'
    /\ forall p,
        match at_path p m with
        | None => at_path p m' = None
        | Some x =>
            if namesUri p then
              exists u t, newURL env x = Some u /\ transform u = Ok t
                          /\ at_path p m' = Some (JStr (href t))
            else exists y, at_path p m' = Some y /\ sameNode x y
        end.
Proof.
  intros Hwf. destruct (rewriteUris_rewrites env transform m Hwf) as (m' & E & R).
  exists m'. split; [exact E|]. intros p. exact (R p).
Qed.

Ltac wellFormed_message :=
  lazymatch goal with
  | |- wellFormed _ _ (JObj _) =>
      apply wf_obj;
      [ intros v Hv; simpl in Hv;
        first [ discriminate
              | injection Hv as <-; do 3 eexists; repeat split; reflexivity ]
      | wellFormed_message ]
  | |- wellFormed _ _ (JArr _) => apply wf_arr; wellFormed_message
  | |- wellFormed _ _ _ => constructor
  | |- Forall _ [] => constructor
  | |- Forall _ (_ :: _) => constructor; [simpl; wellFormed_message | wellFormed_message]
  end.

Lemma rewriteUris_total_minimal_witness :
  let env := Sample.env [] in
  let message :=
    Sample.request 2 "textDocument/hover"
      (JObj [("textDocument",
              JObj [("uri", JStr "https://example.com/repo.zip#src/index.ts")]);
             ("position", JObj [("line", JNum 3); ("character", JNum 7)])]) in
  wellFormed env (transformZipToFileUri env Sample.active) message
  /\ exists m',
       rewriteUris env (transformZipToFileUri env Sample.active) message = Ok m'
       /\ at_path [Key "params"; Key "textDocument"; Key "uri"] m'
          = Some (JStr "file:///tmp/ws/repo/src/index.ts")
       /\ at_path [Key "params"; Key "position"; Key "line"] m' = Some (JNum 3).
Proof.
  intros env message.
  assert (Hwf : wellFormed env (transformZipToFileUri env Sample.active) message)
    by (unfold message, Sample.request; wellFormed_message).
  split; [exact Hwf|].
  destruct (rewriteUris_total_minimal env _ message Hwf) as (m' & E & R).
  exists m'. split; [exact E|].
  injection E as <-. split; reflexivity.
Defined.

(** C2 as stated fails on a message whose [uri] property holds a valid
    URI string that the rule in use refuses.  The same response, with the
    [https:] address that the URL constructor accepts, makes rewriting
    throw under the rule for messages of the language server, which
    refuses an address that is not a [file:] address, and under the rule
    for messages of the client as long as no handshake has set the
    filesystem root. *)
Lemma rewriteUris_throws_on_valid_uri :
  let env := Sample.env [] in
  let address := JStr "https://example.com/repo.zip#src/index.ts" in
  let message := Sample.response 2 (JObj [("uri", address)]) in
  (exists u, newURL env address = Some u)
  /\ rewriteUris env (transformFileToZipUri env Sample.active) message
     = Throw (FileUrlError Url.ERR_INVALID_URL_SCHEME)
  /\ rewriteUris env (transformZipToFileUri env initialState) message
     = Throw (NullAccess "href").
Proof.
  intros env address message.
  split; [eexists; reflexivity|]. split; reflexivity.
Qed.

End RewriteFacts.

(** ** Reasoning about handler computations *)

Module MonadFacts.
Import Json Url Proxy Observe TraceFacts.

Lemma collect_none {A B} (f : A -> option B) l :
  Forall (fun x => f x = None) l -> collect f l = [].
Proof.
  induction 1 as [|x l Hx _ IH]; simpl; [reflexivity|]. now rewrite Hx.
Qed.

(** Running a bind. *)
Lemma run_bind {A B} (c : M A) (k : A -> M B) s :
  bind c k s
  = match c s with
    | (Ok a, s1, t1) => (fst (fst (k a s1)), snd (fst (k a s1)), t1 ++ snd (k a s1))
    | (Throw e, s1, t1) => (Throw e, s1, t1)
    end.
Proof.
  unfold bind. destruct (c s) as [[[a|e] s1] t1]; [|reflexivity].
  now destruct (k a s1) as [[r s2] t2].
Qed.

Lemma run_tryCatch {A} (c : M A) (h : JsError -> M A) s :
  tryCatch c h s
  = match c s with
    | (Ok a, s1, t1) => (Ok a, s1, t1)
    | (Throw e, s1, t1) => (fst (fst (h e s1)), snd (fst (h e s1)), t1 ++ snd (h e s1))
    end.
Proof.
  unfold tryCatch. destruct (c s) as [[[a|e] s1] t1]; [reflexivity|].
  now destruct (h e s1) as [[r s2] t2].
Qed.

Lemma run_promiseAll {A} (c : M A) (cs : list (M A)) s :
  promiseAll (c :: cs) s
  = match c s with
    | (r, s1, t1) =>
        match promiseAll cs s1 with
        | (rs, s2, t2) =>
            (match r, rs with
             | Ok a, Ok l => Ok (a :: l)
             | Throw e, _ => Throw e
             | Ok _, Throw e => Throw e
             end, s2, t1 ++ t2)
        end
    end.
Proof.
  cbn [promiseAll]. unfold bind, tryCatch, ret, throw.
  destruct (c s) as [[[a|e] s1] t1]; simpl;
    destruct (promiseAll cs s1) as [[[l|e'] s2] t2]; simpl;
    now rewrite ?app_nil_r.
Qed.

Section Respects.
Variable Pev : Event -> Prop.
Variable R : State -> State -> Prop.
Hypothesis R_refl : forall s, R s s.
Hypothesis R_trans : forall a b c, R a b -> R b c -> R a c.

Abbreviation respects := (respects Pev R).

Lemma respects_weaken {A} (P Q : JsError -> Prop) (c : M A) :
  (forall e, P e -> Q e) -> respects P c -> respects Q c.
Proof. intros HPQ H s. destruct (H s) as (He & Hr & Ht). auto. Qed.

Lemma respects_ret {A} Perr (a : A) : respects Perr (ret a).
Proof. intros s. repeat split; [constructor | apply R_refl | discriminate]. Qed.

Lemma respects_throw {A} (Perr : JsError -> Prop) e :
  Perr e -> respects Perr (@throw A e).
Proof.
  intros H s. repeat split; [constructor | apply R_refl |].
  unfold outcome, throw. simpl. now intros ? [= <-].
Qed.

Lemma respects_emit Perr e : Pev e -> respects Perr (emit e).
Proof.
  intros H s. repeat split; [now repeat constructor | apply R_refl | discriminate].
Qed.

Lemma respects_get Perr : respects Perr get.
Proof. intros s. repeat split; [constructor | apply R_refl | discriminate]. Qed.

Lemma respects_modify Perr f : (forall s, R s (f s)) -> respects Perr (modify f).
Proof. intros H s. repeat split; [constructor | apply H | discriminate]. Qed.

Lemma respects_lift {A} (Perr : JsError -> Prop) (o : Outcome A) :
  (forall e, o = Throw e -> Perr e) -> respects Perr (lift o).
Proof. intros H s. repeat split; [constructor | apply R_refl | exact H]. Qed.

Lemma respects_bind {A B} Perr (c : M A) (k : A -> M B) :
  respects Perr c -> (forall a, respects Perr (k a)) -> respects Perr (bind c k).
Proof.
  intros Hc Hk s. unfold events, finalState, outcome. rewrite run_bind.
  destruct (Hc s) as (He & Hr & Ht). unfold events, finalState, outcome in *.
  destruct (c s) as [[[a|e] s1] t1]; simpl in *;
    [|split; [assumption | split; [assumption | intros e0 [= <-]; now apply Ht]]].
  destruct (Hk a s1) as (He' & Hr' & Ht').
  unfold events, finalState, outcome in *.
  repeat split; [now apply Forall_app | eauto | exact Ht'].
Qed.

Lemma respects_tryCatch {A} Perr (c : M A) (h : JsError -> M A) :
  respects anyError c -> (forall e, respects Perr (h e)) ->
  respects Perr (tryCatch c h).
Proof.
  intros Hc Hh s. unfold events, finalState, outcome. rewrite run_tryCatch.
  destruct (Hc s) as (He & Hr & _). unfold events, finalState, outcome in *.
  destruct (c s) as [[[a|e] s1] t1]; simpl in *.
  - repeat split; [assumption | assumption | discriminate].
  - destruct (Hh e s1) as (He' & Hr' & Ht').
    unfold events, finalState, outcome in *.
    repeat split; [now apply Forall_app | eauto | exact Ht'].
Qed.

Lemma respects_tryCatch_from {A} Perr Perr' (c : M A) (h : JsError -> M A) :
  respects Perr' c -> (forall e, Perr' e -> respects Perr (h e)) ->
  respects Perr (tryCatch c h).
Proof.
  intros Hc Hh s. unfold events, finalState, outcome. rewrite run_tryCatch.
  destruct (Hc s) as (He & Hr & Ht). unfold events, finalState, outcome in *.
  destruct (c s) as [[[a|e] s1] t1]; simpl in *.
  - repeat split; [assumption | assumption | discriminate].
  - destruct (Hh e (Ht e eq_refl) s1) as (He' & Hr' & Ht').
    unfold events, finalState, outcome in *.
    repeat split; [now apply Forall_app | eauto | exact Ht'].
Qed.

Lemma respects_tryFinally {A} Perr (c : M A) (f : M unit) :
  respects Perr c -> respects anyError f -> respects Perr (tryFinally c f).
Proof.
  intros Hc Hf s. unfold events, finalState, outcome, tryFinally.
  destruct (Hc s) as (He & Hr & Ht). unfold events, finalState, outcome in *.
  destruct (c s) as [[r s1] t1]; simpl in *.
  destruct (Hf s1) as (He' & Hr' & _).
  unfold events, finalState, outcome in *.
  destruct (f s1) as [[r' s2] t2]; simpl in *.
  repeat split; [now apply Forall_app | eauto | exact Ht].
Qed.

Lemma respects_call Perr e result :
  Pev e -> (forall err, result = Some err -> Perr (Rejected err)) ->
  respects Perr (call e result).
Proof.
  intros He Hr. unfold call. apply respects_bind; [now apply respects_emit|].
  intros _. destruct result as [err|].
  - apply respects_throw. now apply Hr.
  - apply respects_ret.
Qed.

Lemma respects_promiseAll {A} Perr (cs : list (M A)) :
  Forall (respects Perr) cs -> respects Perr (promiseAll cs).
Proof.
  induction 1 as [|c cs Hc _ IH]; [apply respects_ret|].
  intros s. unfold events, finalState, outcome. rewrite run_promiseAll.
  destruct (Hc s) as (He & Hr & Ht). unfold events, finalState, outcome in *.
  destruct (c s) as [[r s1] t1]; simpl in *.
  destruct (IH s1) as (He' & Hr' & Ht'). unfold events, finalState, outcome in *.
  destruct (promiseAll cs s1) as [[rs s2] t2]; simpl in *.
  repeat split; [now apply Forall_app | eauto |].
  destruct r as [a|e]; [destruct rs as [l|e']|]; intros x [= <-]; auto.
Qed.

Section Handlers.
Variable env : Env.
Hypothesis R_bump : forall s, R s (bump_spans s).
Hypothesis Pev_span_start : forall h n p, Pev (SpanStart h n p).
Hypothesis Pev_span_tag : forall h k v, Pev (SpanTag h k v).
Hypothesis Pev_span_log : forall h e, Pev (SpanLogError h e).
Hypothesis Pev_span_finish : forall h, Pev (SpanFinish h).

Lemma respects_newSpan Perr : respects Perr newSpan.
Proof. intros s. repeat split; [constructor | apply R_bump | discriminate]. Qed.

Lemma respects_startSpan Perr name parent : respects Perr (startSpan name parent).
Proof.
  unfold startSpan. apply respects_bind; [apply respects_newSpan|].
  intros h. apply respects_bind; [now apply respects_emit|].
  intros _. apply respects_ret.
Qed.

Lemma respects_tracePromise {A} Perr name span (operation : nat -> M A) :
  (forall child, respects Perr (operation child)) ->
  respects Perr (tracePromise name span operation).
Proof.
  intros Hop. unfold tracePromise, setTag.
  apply respects_bind; [apply respects_startSpan|].
  intros child. apply respects_tryFinally.
  - apply (respects_tryCatch_from Perr Perr); [apply Hop|].
    intros e He. apply respects_bind; [now apply respects_emit|].
    intros _. apply respects_bind; [now apply respects_emit|].
    intros _. now apply respects_throw.
  - now apply respects_emit.
Qed.
End Handlers.

End Respects.

Lemma respects_mono {A} (P P' : Event -> Prop) (R R' : State -> State -> Prop)
    (E E' : JsError -> Prop) (c : M A) :
  (forall e, P e -> P' e) -> (forall s s', R s s' -> R' s s') ->
  (forall e, E e -> E' e) ->
  Observe.respects P R E c -> Observe.respects P' R' E' c.
Proof.
  intros HP HR HE H s. destruct (H s) as (He & Hr & Ht).
  split; [|split; auto]. eapply Forall_impl; [exact He | exact HP].
Qed.

(** Steps through a computation built from the combinators, by the shape
    of its head, leaving the side conditions to [side]. *)
Ltac respects_step side :=
  lazymatch goal with
  | |- forall _, _ => intro
  | |- Forall _ [] => constructor
  | |- Forall _ (_ :: _) => constructor
  | |- Observe.respects _ _ _ ?c =>
      lazymatch c with
      | ret _ => eapply respects_ret; solve [side]
      | get => eapply respects_get; solve [side]
      | throw _ => eapply respects_throw; solve [side]
      | emit _ => eapply respects_emit; solve [side]
      | modify _ => eapply respects_modify; solve [side]
      | lift _ => eapply respects_lift; solve [side]
      | call _ _ => eapply respects_call; solve [side]
      | newSpan => eapply respects_newSpan; solve [side]
      | startSpan _ _ => eapply respects_startSpan; solve [side]
      | tracePromise _ _ _ => eapply respects_tracePromise; try solve [side]
      | promiseAll _ => eapply respects_promiseAll; try solve [side]
      | tryFinally _ _ => eapply respects_tryFinally; try solve [side]
      | tryCatch _ _ => eapply respects_tryCatch; try solve [side]
      | bind _ _ => eapply respects_bind; try solve [side]
      | match ?x with _ => _ end => destruct x
      | let _ := _ in _ => cbv zeta
      end
  end.

Ltac respects_auto side := repeat respects_step side.


End MonadFacts.

(** ** The message handlers *)

Module SessionFacts.
Import Json Url Proxy Observe TraceFacts MonadFacts.

Ltac session_side :=
  intros;
  first [ exact I | reflexivity | discriminate
        | unfold same in *; congruence
        | unfold notTooMany; discriminate
        | match goal with
          | H : construct _ _ = Throw _ |- _ =>
              unfold construct in H;
              match type of H with
              | context [newURL ?env ?v] => destruct (newURL env v)
              end;
              [ discriminate | injection H as <-; unfold notTooMany; discriminate ]
          end ].

(** The steps of the handshake write to neither peer, start no process
    and leave the span map alone.  The installation of one package, and
    of all of them, never throws; the other steps never throw the refusal
    of several workspace folders. *)
Lemma installPackage_respects env span ep gf cf rel :
  respects quiet (same requestSpans) noError (installPackage env span ep gf cf rel).
Proof.
  unfold installPackage, logger_error, setTag.
  respects_auto session_side.
Qed.

Lemma installDependencies_respects env span ep gf cf manifests :
  respects quiet (same requestSpans) noError
    (installDependencies env span ep gf cf manifests).
Proof.
  unfold installDependencies.
  respects_auto session_side.
  apply Forall_map, Forall_forall. intros rel _. apply installPackage_respects.
Qed.

Lemma fetchWorkspace_respects env span zip :
  respects quiet (same requestSpans) notTooMany (fetchWorkspace env span zip).
Proof.
  unfold fetchWorkspace, logger_log, setTag.
  respects_auto session_side.
Qed.

Lemma materialize_respects env span message rootUri :
  respects quiet (same requestSpans) notTooMany (materialize env span message rootUri).
Proof.
  unfold materialize, setTag.
  respects_auto session_side.
  - apply fetchWorkspace_respects.
  - eapply respects_weaken; [|apply installDependencies_respects].
    intros e [].
Qed.

Lemma initialize_respects env span message :
  respects quiet (same requestSpans) anyError (initialize env span message).
Proof.
  unfold initialize.
  respects_auto session_side.
  eapply respects_weaken; [|apply materialize_respects]. intros; exact I.
Qed.

Ltac same_side :=
  intros;
  first [ exact I | reflexivity | discriminate
        | unfold same in *; congruence ].

Lemma quiet_trace t :
  Forall quiet t -> toServer t = [] /\ toClient t = [] /\ spawns t = 0.
Proof.
  intros H. unfold toServer, toClient, spawns.
  rewrite !collect_none; [auto | | |];
    (eapply Forall_impl; [exact H|]); intros [] Hq; simpl in *; tauto.
Qed.

Lemma beginSpan_respects message :
  respects quiet (same fileRootUri) noError (beginSpan message).
Proof.
  unfold beginSpan, setTag.
  respects_auto same_side.
Qed.

Lemma onError_run env span message e s :
  onError env span message e s = (Ok tt, s, errorEvents env span message e).
Proof.
  unfold onError, errorEvents, when, setTag, logger_error, bind, emit, ret.
  now destruct (isRequestMessage message).
Qed.

(** A message is handled in two stages: the span is started, then the
    message is forwarded, or the exception answered. *)
Lemma onClientMessage_run env message st :
  exists span s1 t1,
    beginSpan message st = (Ok span, s1, t1)
    /\ Forall quiet t1
    /\ fileRootUri s1 = fileRootUri st
    /\ onClientMessage env message st
       = match forwardToServer env span message s1 with
         | (Ok _, s2, t2) => (Ok tt, s2, t1 ++ t2)
         | (Throw e, s2, t2) =>
             (Ok tt, s2, t1 ++ t2 ++ errorEvents env span message e)
         end.
Proof.
  destruct (beginSpan_respects message st) as (Hq & Hs & Hok).
  unfold events, finalState, outcome in *.
  destruct (beginSpan message st) as [[[span|e] s1] t1] eqn:E; simpl in *;
    [|now destruct (Hok e eq_refl)].
  exists span, s1, t1. repeat split; [exact Hq | exact Hs |].
  unfold onClientMessage. rewrite run_bind, E, run_tryCatch.
  destruct (forwardToServer env span message s1) as [[[[]|e] s2] t2]; simpl;
    [reflexivity|].
  now rewrite onError_run.
Qed.

Lemma bind_lift_ok {A B} (a : A) (k : A -> M B) s : bind (lift (Ok a)) k s = k a s.
Proof.
  unfold bind, lift. now destruct (k a s) as [[r s2] t2].
Qed.

(** When the interception of [initialize] throws, nothing has been
    written to either peer and the exception reaches the catch block. *)
Lemma forwardToServer_initialize_fails env span message s e :
  isRequestMessage message = true -> methodOf message = "initialize" ->
  outcome (initialize env span message) s = Throw e ->
  exists s2 t2,
    forwardToServer env span message s = (Throw e, s2, t2) /\ Forall quiet t2.
Proof.
  intros Hreq Hm Hthrow. unfold forwardToServer. rewrite Hreq, Hm. simpl.
  destruct (initialize_respects env span message s) as (Hq & _ & _).
  unfold events, outcome in *. rewrite run_bind.
  destruct (initialize env span message s) as [[[m|e'] s2] t2]; simpl in *;
    [discriminate|].
  injection Hthrow as ->. now exists s2, t2.
Qed.

Lemma handshake_fails_events env st message e :
  isRequestMessage message = true -> methodOf message = "initialize" ->
  outcome (bind (beginSpan message) (fun span => initialize env span message)) st
  = Throw e ->
  let t := events (onClientMessage env message) st in
  spawns t = 0 /\ toServer t = [] /\ toClient t = [errResponse env message e].
Proof.
  intros Hreq Hm Hthrow t.
  destruct (onClientMessage_run env message st) as (span & s1 & t1 & E & Hq1 & _ & Erun).
  unfold outcome in Hthrow. rewrite run_bind, E in Hthrow. simpl in Hthrow.
  destruct (forwardToServer_initialize_fails env span message s1 e Hreq Hm Hthrow)
    as (s2 & t2 & Ef & Hq2).
  unfold t, events. rewrite Erun, Ef. simpl.
  destruct (quiet_trace t1 Hq1) as (S1 & C1 & P1).
  destruct (quiet_trace t2 Hq2) as (S2 & C2 & P2).
  unfold spawns, toServer, toClient, errorEvents in *.
  rewrite !collect_app, Hreq. simpl.
  apply length_zero_iff_nil in P1, P2.
  rewrite S1, S2, C1, C2, P1, P2. auto.
Qed.

(** C4, as the code has it.  The language server is started when the
    connection is accepted, before any message is read.  When the
    interception of [initialize] throws (the root address is refused, or
    creating the folders, the download, the extraction or the search
    fails), the handler starts no process, writes nothing to the
    language server and answers the request with the error response
    built from the exception. *)
Theorem failed_handshake env st message e :
  isRequestMessage message = true -> methodOf message = "initialize" ->
  outcome (bind (beginSpan message) (fun span => initialize env span message)) st
  = Throw e ->
  spawns (events (onConnection) st) = 1
  /\ spawns (events (onClientMessage env message) st) = 0
  /\ toServer (events (onClientMessage env message) st) = []
  /\ toClient (events (onClientMessage env message) st) = [errResponse env message e].
Proof.
  intros Hreq Hm Hthrow. split; [reflexivity|].
  now apply handshake_fails_events.
Qed.

Lemma failed_handshake_witness :
  let env := Sample.envFailingDownload in
  let message :=
    Sample.initializeRequest 1 [("rootUri", JStr "https://example.com/repo.zip")] in
  let e := Rejected (Sample.failure "ECONNRESET") in
  outcome (bind (beginSpan message) (fun span => initialize env span message))
          (finalState onConnection initialState) = Throw e
  /\ toServer (events (onClientMessage env message) (finalState onConnection initialState)) = []
  /\ toClient (events (onClientMessage env message) (finalState onConnection initialState))
     = [errResponse env message e].
Proof.
  intros env message e. split; [reflexivity|].
  exact (proj2 (proj2 (failed_handshake env (finalState onConnection initialState)
                         message e eq_refl eq_refl eq_refl))).
Defined.

(** C4 as stated fails: in a session whose download fails, the language
    server has been started all the same, when the connection was
    accepted. *)
Lemma worker_started_before_handshake :
  let env := Sample.envFailingDownload in
  let message :=
    Sample.initializeRequest 1 [("rootUri", JStr "https://example.com/repo.zip")] in
  let session := bind onConnection (fun _ => onClientMessage env message) in
  (exists e, toClient (events session initialState) = [errResponse env message e])
  /\ spawns (events session initialState) = 1.
Proof.
  intros env message session. split; [|reflexivity].
  exists (Rejected (Sample.failure "ECONNRESET")). reflexivity.
Qed.

(** *** Before the handshake *)

Section NoRoot.
Variable env : Env.
Variable st : State.
Hypothesis Hroot : fileRootUri st = None.

Let rule := transformZipToFileUri env st.

Lemma rule_throws u : exists e, rule u = Throw e.
Proof. unfold rule, transformZipToFileUri. rewrite Hroot. eauto. Qed.

Lemma forEach_untouched fs :
  Forall (fun kv =>
            (mentionsUri (snd kv) = false
             -> rewriteUris env rule (snd kv) = Ok (snd kv))
            /\ (mentionsUri (snd kv) = true
                -> exists e, rewriteUris env rule (snd kv) = Throw e)) fs ->
  (existsb (fun kv => mentionsUri (snd kv)) fs = false
   -> forEach (fun kv : string * json =>
                 chk v' <- rewriteUris env rule (snd kv) ;; Ok (fst kv, v')) fs
      = Ok fs)
  /\ (existsb (fun kv => mentionsUri (snd kv)) fs = true
      -> exists e,
        forEach (fun kv : string * json =>
                 chk v' <- rewriteUris env rule (snd kv) ;; Ok (fst kv, v')) fs
        = Throw e).
Proof.
  induction 1 as [|[k v] fs [Hno Hyes] _ [IHno IHyes]]; simpl in *.
  - split; [reflexivity | discriminate].
  - destruct (mentionsUri v) eqn:Ev; simpl.
    + split; [discriminate|]. intros _.
      destruct (Hyes eq_refl) as (e & ->). now exists e.
    + rewrite (Hno eq_refl). simpl. split.
      * intros H. now rewrite (IHno H).
      * intros H. destruct (IHyes H) as (e & ->). now exists e.
Qed.

Lemma forEach_items_untouched l :
  Forall (fun v =>
            (mentionsUri v = false -> rewriteUris env rule v = Ok v)
            /\ (mentionsUri v = true -> exists e, rewriteUris env rule v = Throw e)) l ->
  (existsb mentionsUri l = false
   -> forEach (fun v => rewriteUris env rule v) l = Ok l)
  /\ (existsb mentionsUri l = true
      -> exists e, forEach (fun v => rewriteUris env rule v) l = Throw e).
Proof.
  induction 1 as [|v l [Hno Hyes] _ [IHno IHyes]]; simpl in *.
  - split; [reflexivity | discriminate].
  - destruct (mentionsUri v) eqn:Ev; simpl.
    + split; [discriminate|]. intros _.
      destruct (Hyes eq_refl) as (e & ->). now exists e.
    + rewrite (Hno eq_refl). simpl. split.
      * intros H. now rewrite (IHno H).
      * intros H. destruct (IHyes H) as (e & ->). now exists e.
Qed.

(** Without a filesystem root, rewriting leaves a message that names no
    [uri] as it is, and throws on any other. *)
Lemma rewriteUris_no_root m :
  (mentionsUri m = false -> rewriteUris env rule m = Ok m)
  /\ (mentionsUri m = true -> exists e, rewriteUris env rule m = Throw e).
Proof.
  induction m as [| b | n | s | l IH | fs IH] using json_induction;
    try (split; [reflexivity | discriminate]).
  - destruct (forEach_items_untouched l IH) as [Hno Hyes].
    cbn [rewriteUris mentionsUri]. split; intros H.
    + now rewrite (Hno H).
    + destruct (Hyes H) as (e & ->). now exists e.
  - cbn [rewriteUris mentionsUri].
    destruct (obj_get "uri" fs) as [v|]; simpl.
    + split; [discriminate|]. intros _.
      destruct (newURL env v) as [u|]; simpl; [|eauto].
      destruct (rule_throws u) as (e & ->). eauto.
    + destruct (forEach_untouched fs IH) as [Hno Hyes]. split; intros H.
      * now rewrite (Hno H).
      * destruct (Hyes H) as (e & ->). now exists e.
Qed.

End NoRoot.

(** C7, as the code has it.  Before a handshake has succeeded, a message
    that is not an [initialize] request takes the same path as any
    message.  If no [uri] property occurs in it, it is written to the
    language server as it is and nothing is sent to the client.  If one
    occurs, rewriting throws for want of a filesystem root: nothing is
    written to the language server, and the client gets an error response
    when the message is a request and nothing when it is not. *)
Theorem before_handshake env st message :
  fileRootUri st = None ->
  isRequestMessage message && (methodOf message =? "initialize")%string = false ->
  let t := events (onClientMessage env message) st in
  if mentionsUri message then
    toServer t = []
    /\ exists e, toClient t
                 = if isRequestMessage message then [errResponse env message e] else []
  else toServer t = [message] /\ toClient t = [].
Proof.
  intros Hroot Hnot t.
  destruct (onClientMessage_run env message st) as (span & s1 & t1 & E & Hq1 & Hs1 & Erun).
  destruct (quiet_trace t1 Hq1) as (S1 & C1 & _).
  assert (Hroot1 : fileRootUri s1 = None) by congruence.
  destruct (rewriteUris_no_root env s1 Hroot1 message) as [Hno Hyes].
  unfold t, events. rewrite Erun. unfold forwardToServer. rewrite Hnot.
  unfold bind, ret, get, lift, emit. simpl.
  destruct (mentionsUri message).
  - destruct (Hyes eq_refl) as (e & ->). simpl.
    unfold toServer, toClient, errorEvents in *. rewrite !collect_app, S1, C1. simpl.
    split; [now destruct (isRequestMessage message)|].
    exists e. now destruct (isRequestMessage message).
  - rewrite (Hno eq_refl). simpl.
    unfold toServer, toClient in *. rewrite !collect_app, S1, C1. auto.
Qed.

Lemma before_handshake_witness :
  let env := Sample.env [] in
  let message :=
    Sample.notification "textDocument/didOpen"
      (JObj [("textDocument", JObj [("uri", JStr "https://example.com/repo.zip#a.ts")])]) in
  fileRootUri initialState = None
  /\ toServer (events (onClientMessage env message) initialState) = []
  /\ exists e, toClient (events (onClientMessage env message) initialState)
               = if isRequestMessage message then [errResponse env message e] else [].
Proof.
  intros env message. split; [reflexivity|].
  exact (before_handshake env initialState message eq_refl eq_refl).
Defined.

(** C7 as stated fails: a [shutdown] request sent as the first message of
    a session is written to the language server, and the client gets no
    error. *)
Lemma first_message_forwarded :
  let env := Sample.env [] in
  let message := Sample.request 3 "shutdown" JNull in
  let t := events (bind onConnection (fun _ => onClientMessage env message)) initialState in
  toServer t = [message] /\ toClient t = [].
Proof. split; reflexivity. Qed.

(** *** The checks of the handshake *)

(** C6, as the code has it.  An [initialize] request with a root address
    and a list of workspace folders is refused for its folders exactly
    when the list has more than one entry: an empty list passes the check
    like a list of one.  A request so refused is answered with the error
    response and nothing is written to the language server. *)
Theorem workspace_folder_check env st span message pfields rootUri folders :
  prop "params" message = Some (JObj pfields) ->
  obj_get "rootUri" pfields = Some rootUri ->
  truthy (Some rootUri) = true ->
  obj_get "workspaceFolders" pfields = Some (JArr folders) ->
  (outcome (initialize env span message) st = Throw (Error moreThanOneFolder)
   <-> 1 < length folders)
  /\ (1 < length folders ->
      isRequestMessage message = true -> methodOf message = "initialize" ->
      toServer (events (onClientMessage env message) st) = []
      /\ toClient (events (onClientMessage env message) st)
         = [errResponse env message (Error moreThanOneFolder)]).
Proof.
  intros Hparams Hroot Htruthy Hfolders.
  assert (Hinit : forall span s,
             outcome (initialize env span message) s = Throw (Error moreThanOneFolder)
             <-> 1 < length folders).
  { intros sp s. unfold initialize, outcome. rewrite Hparams. simpl paramsProp.
    rewrite bind_lift_ok, Hroot, Htruthy. cbn [negb].
    rewrite bind_lift_ok, Hfolders.
    unfold tooManyFolders, lengthGreaterThanOne. cbn [truthy andb].
    destruct (Nat.ltb_spec 1 (length folders)) as [Hlt|Hge].
    - simpl. tauto.
    - split; [|lia]. intros H.
      destruct (materialize_respects env sp message rootUri s) as (_ & _ & Hnot).
      now destruct (Hnot _ H). }
  split; [apply Hinit|].
  intros Hlt Hreq Hm.
  apply handshake_fails_events; [exact Hreq | exact Hm |].
  unfold outcome. rewrite run_bind.
  destruct (beginSpan_respects message st) as (_ & _ & Hok).
  unfold outcome in Hok.
  destruct (beginSpan message st) as [[[sp|e] s1] t1]; simpl in *;
    [|now destruct (Hok e eq_refl)].
  now apply Hinit.
Qed.

Lemma workspace_folder_check_witness :
  let env := Sample.env [] in
  let folder := JObj [("name", JStr "a"); ("uri", JStr "https://example.com/repo.zip")] in
  let pfields :=
    [("rootUri", JStr "https://example.com/repo.zip");
     ("workspaceFolders", JArr [folder; folder])] in
  let message := Sample.initializeRequest 1 pfields in
  prop "params" message = Some (JObj pfields)
  /\ toServer (events (onClientMessage env message) initialState) = []
  /\ toClient (events (onClientMessage env message) initialState)
     = [errResponse env message (Error moreThanOneFolder)].
Proof.
  intros env folder pfields message. split; [reflexivity|].
  refine (proj2 (workspace_folder_check env initialState 0 message pfields
                   (JStr "https://example.com/repo.zip") [folder; folder]
                   eq_refl eq_refl eq_refl eq_refl) _ eq_refl eq_refl).
  simpl. lia.
Defined.

(** C6 as stated fails: a handshake whose list of workspace folders is
    empty is accepted, and reaches the language server. *)
Lemma no_workspace_folder_accepted :
  let env := Sample.env [] in
  let message :=
    Sample.initializeRequest 1
      [("rootUri", JStr "https://example.com/repo.zip"); ("workspaceFolders", JArr [])] in
  let t := events (onClientMessage env message) initialState in
  toServer t
  = [Sample.initializeRequest 1
       [("rootUri", JStr "file:///tmp/example.com_repo.zip_uuid0/repo");
        ("workspaceFolders",
         JArr [JObj [("name", JStr "");
                     ("uri", JStr "file:///tmp/example.com_repo.zip_uuid0/repo")]]);
        ("rootPath", JStr "/tmp/example.com_repo.zip_uuid0/repo")]]
  /\ toClient t = [].
Proof. split; reflexivity. Qed.

End SessionFacts.

(** ** Spans of pending requests *)

Module SpanFacts.
Import Json Url Proxy Observe TraceFacts MonadFacts SessionFacts.

(** What the first stage of the handler does to the span map: a request
    gets an entry under its identifier, any other message none. *)
Lemma beginSpan_spans message st :
  requestSpans (finalState (beginSpan message) st)
  = if isRequestMessage message then
      match idOf (prop "id" message) with
      | Some id => <[id := S (spansMade st)]> (requestSpans st)
      | None => requestSpans st
      end
    else requestSpans st.
Proof.
  unfold beginSpan, startSpan, newSpan, setTag, finalState, bind, emit, modify,
    get, ret.
  destruct (isRequestMessage message); simpl.
  - destruct (idOf (prop "id" message)); simpl;
      now destruct (zipRootUri st).
  - destruct (isNotificationMessage message); simpl;
      now destruct (zipRootUri st).
Qed.

Lemma handling_keeps_spans env span message :
  respects anyEvent (same requestSpans) anyError
    (tryCatch (forwardToServer env span message) (onError env span message)).
Proof.
  unfold forwardToServer, onError, when, setTag, logger_error.
  respects_auto session_side.
  eapply respects_mono; [| | |apply initialize_respects]; auto.
  intros; exact I.
Qed.

Lemma client_spans env message st :
  requestSpans (finalState (onClientMessage env message) st)
  = if isRequestMessage message then
      match idOf (prop "id" message) with
      | Some id => <[id := S (spansMade st)]> (requestSpans st)
      | None => requestSpans st
      end
    else requestSpans st.
Proof.
  rewrite <- beginSpan_spans.
  unfold onClientMessage, finalState. rewrite run_bind.
  destruct (beginSpan_respects message st) as (_ & _ & Hok).
  unfold outcome in Hok.
  destruct (beginSpan message st) as [[[span|e] s1] t1]; simpl in *;
    [|now destruct (Hok e eq_refl)].
  destruct (handling_keeps_spans env span message s1) as (_ & Hs & _).
  exact Hs.
Qed.

(** What the language server's side does to the span map: a response
    removes the entry of its identifier, any other message none. *)
Lemma server_spans env message st :
  requestSpans (finalState (forward env message) st)
  = match isResponseMessage message, idOf (prop "id" message) with
    | true, Some id => delete id (requestSpans st)
    | _, _ => requestSpans st
    end.
Proof.
  unfold forward, onServerMessage, finalState.
  destruct (isResponseMessage message) eqn:Hresp; simpl.
  - destruct (prop "id" message) as [[| | n | s | |]|] eqn:Hid; simpl;
      try (unfold bind, ret, get, lift, emit; simpl;
           match goal with
           | |- context [rewriteUris ?e ?r ?m] => now destruct (rewriteUris e r m)
           end).
    + unfold bind, get, ret, lift, emit, modify. simpl.
      destruct (requestSpans st !! IdNum n) eqn:Hl; simpl.
      * match goal with
        | |- context [rewriteUris ?e ?r ?m] => now destruct (rewriteUris e r m)
        end.
      * rewrite delete_id by exact Hl.
        match goal with
        | |- context [rewriteUris ?e ?r ?m] => now destruct (rewriteUris e r m)
        end.
    + unfold bind, get, ret, lift, emit, modify. simpl.
      destruct (requestSpans st !! IdStr s) eqn:Hl; simpl.
      * match goal with
        | |- context [rewriteUris ?e ?r ?m] => now destruct (rewriteUris e r m)
        end.
      * rewrite delete_id by exact Hl.
        match goal with
        | |- context [rewriteUris ?e ?r ?m] => now destruct (rewriteUris e r m)
        end.
  - unfold bind, ret, get, lift, emit. simpl.
    match goal with
    | |- context [rewriteUris ?e ?r ?m] => now destruct (rewriteUris e r m)
    end.
Qed.

Lemma server_finishes env message st id span :
  isResponseMessage message = true -> idOf (prop "id" message) = Some id ->
  requestSpans st !! id = Some span ->
  In span (finished (events (forward env message) st)).
Proof.
  intros Hresp Hid Hl.
  unfold forward, onServerMessage, events. rewrite Hresp.
  destruct (prop "id" message) as [[| | n | s | |]|]; simpl in Hid; try discriminate;
    injection Hid as <-; simpl;
    unfold bind, get, ret, lift, emit, modify; simpl; rewrite Hl; simpl;
    match goal with
    | |- context [rewriteUris ?e ?r ?m] => destruct (rewriteUris e r m)
    end; simpl; now left.
Qed.

(** C9.  Handling a client request leaves an entry under its identifier
    in the span map, whether or not the request could be forwarded;
    handling a message that is not a request leaves the map as it was,
    and no client message removes an entry.  On the language server's
    side an entry is removed exactly by a response carrying its
    identifier, its span being finished then; otherwise it stays as it
    was. *)
Theorem span_correlation env st message :
  (forall id,
      isRequestMessage message = true -> idOf (prop "id" message) = Some id ->
      is_Some (requestSpans (finalState (onClientMessage env message) st) !! id))
  /\ (isRequestMessage message = false ->
      requestSpans (finalState (onClientMessage env message) st) = requestSpans st)
  /\ (forall id,
        is_Some (requestSpans st !! id) ->
        is_Some (requestSpans (finalState (onClientMessage env message) st) !! id))
  /\ (forall id span,
        requestSpans st !! id = Some span ->
        let st' := finalState (forward env message) st in
        (requestSpans st' !! id = None
         <-> isResponseMessage message = true /\ idOf (prop "id" message) = Some id)
        /\ (requestSpans st' !! id = None ->
            In span (finished (events (forward env message) st)))
        /\ (requestSpans st' !! id <> None -> requestSpans st' !! id = Some span)).
Proof.
  split; [|split; [|split]].
  - intros id Hreq Hid. rewrite client_spans, Hreq, Hid.
    rewrite lookup_insert_eq. eauto.
  - intros Hnot. now rewrite client_spans, Hnot.
  - intros id Hsome. rewrite client_spans.
    destruct (isRequestMessage message); [|exact Hsome].
    destruct (idOf (prop "id" message)) as [id'|]; [|exact Hsome].
    apply lookup_insert_is_Some'. now right.
  - intros id span Hl st'.
    assert (Hiff : requestSpans st' !! id = None
                   <-> isResponseMessage message = true
                       /\ idOf (prop "id" message) = Some id).
    { unfold st'. rewrite server_spans.
      destruct (isResponseMessage message);
        [|rewrite Hl; split; [discriminate | intros [? _]; discriminate]].
      destruct (idOf (prop "id" message)) as [id'|];
        [|rewrite Hl; split; [discriminate | intros [_ ?]; discriminate]].
      destruct (decide (id' = id)) as [->|Hne].
      - rewrite lookup_delete_eq. tauto.
      - rewrite lookup_delete_ne, Hl by exact Hne.
        split; [discriminate | intros [_ [= ?]]; contradiction]. }
    split; [exact Hiff|]. split.
    + intros Hnone. apply Hiff in Hnone as [Hresp Hid].
      now apply server_finishes with (id := id).
    + intros Hsome. unfold st' in *. rewrite server_spans in *.
      destruct (isResponseMessage message); [|exact Hl].
      destruct (idOf (prop "id" message)) as [id'|]; [|exact Hl].
      destruct (decide (id' = id)) as [->|Hne].
      * rewrite lookup_delete_eq in Hsome. contradiction.
      * now rewrite lookup_delete_ne by exact Hne.
Qed.

Lemma span_correlation_witness :
  let env := Sample.env [] in
  let req := Sample.request 7 "textDocument/hover" (JObj []) in
  let st1 := finalState (onClientMessage env req) Sample.active in
  let st2 := finalState (forward env (Sample.response 7 JNull)) st1 in
  isRequestMessage req = true
  /\ is_Some (requestSpans st1 !! IdNum 7)
  /\ (requestSpans st2 !! IdNum 7 = None
      <-> isResponseMessage (Sample.response 7 JNull) = true
          /\ idOf (prop "id" (Sample.response 7 JNull)) = Some (IdNum 7)).
Proof.
  intros env req st1 st2. split; [reflexivity|]. split.
  - exact (proj1 (span_correlation env Sample.active req) (IdNum 7) eq_refl eq_refl).
  - destruct (span_correlation env st1 (Sample.response 7 JNull)) as (_ & _ & _ & H).
    exact (proj1 (H (IdNum 7) 1 eq_refl)).
Defined.

End SpanFacts.

(** ** Installing the dependencies *)

Module InstallFacts.
Import Json Url Proxy Observe TraceFacts MonadFacts SessionFacts.

#[local] Opaque Path.join Path.dirname String.append.

Section Install.
Variable env : Env.
Variables ep gf cf : string.

(** One task: it ends normally whatever fails, having given the
    manifest to [filterDependencies]; yarn is started when the
    preparation succeeded, and a failure is written to the logger. *)
Lemma installPackage_run span rel st :
  exists st' t,
    installPackage env span ep gf cf rel st = (Ok tt, st', t)
    /\ filterCalls t = [manifestPath ep rel]
    /\ yarnCalls t = (if prepared env ep gf cf rel then [installDir ep rel] else [])
    /\ installErrors t
       = match failureLog env ep gf cf rel with Some l => [l] | None => [] end.
Proof.
  unfold failureLog, installFailure, prepared, manifestPath, installDir,
    globalFolder, cacheFolder, installPackage, tracePromise, call.
  destruct (filterDependencies env (Path.join [ep; rel])) as [e1|];
    [|destruct (mkdirp env (Path.join [Path.join [gf; Path.dirname rel]])) as [e2|],
               (mkdirp env (Path.join [Path.join [cf; Path.dirname rel]])) as [e3|];
      [| | |destruct (yarnInstall env (Path.join [ep; Path.dirname rel])) as [e4|]]];
    cbv -[Path.join Path.dirname String.append];
    do 2 eexists; repeat split.
Qed.

Lemma promiseAll_installs span manifests st :
  exists results st' t,
    promiseAll (List.map (installPackage env span ep gf cf) manifests) st
    = (Ok results, st', t)
    /\ filterCalls t = List.map (manifestPath ep) manifests
    /\ yarnCalls t
       = List.map (installDir ep) (List.filter (prepared env ep gf cf) manifests)
    /\ installErrors t = collect (failureLog env ep gf cf) manifests.
Proof.
  revert st. induction manifests as [|rel manifests IH]; intros st.
  - exists [], st, []. repeat split.
  - cbn [List.map]. rewrite run_promiseAll.
    destruct (installPackage_run span rel st) as (s1 & t1 & -> & F1 & Y1 & E1).
    destruct (IH s1) as (rs & s2 & t2 & -> & F2 & Y2 & E2).
    exists (tt :: rs), s2, (t1 ++ t2).
    unfold filterCalls, yarnCalls, installErrors in *.
    rewrite !collect_app, F1, F2, Y1, Y2, E1, E2. cbn [List.filter collect].
    repeat split.
    + now destruct (prepared env ep gf cf rel).
    + now destruct (failureLog env ep gf cf rel).
Qed.

Lemma installDependencies_run span manifests st :
  exists st' t,
    installDependencies env span ep gf cf manifests st = (Ok tt, st', t)
    /\ filterCalls t = List.map (manifestPath ep) manifests
    /\ yarnCalls t
       = List.map (installDir ep) (List.filter (prepared env ep gf cf) manifests)
    /\ installErrors t = collect (failureLog env ep gf cf) manifests.
Proof.
  unfold installDependencies, tracePromise, startSpan, newSpan, setTag.
  unfold tryFinally. rewrite run_bind. simpl.
  rewrite run_tryCatch, run_bind.
  destruct (promiseAll_installs (spansMade st) manifests (bump_spans st))
    as (rs & s1 & t & E & F & Y & L).
  rewrite E. simpl. do 2 eexists. split; [reflexivity|].
  unfold filterCalls, yarnCalls, installErrors in *.
  cbn [collect]. rewrite !collect_app, F, Y, L. cbn [collect].
  now rewrite !app_nil_r.
Qed.

End Install.

(** C8.  The installation step ends normally whatever fails in it: every
    manifest found is given to [filterDependencies], yarn is started for
    every manifest whose own preparation succeeded, whatever happened to
    the other manifests, and each failure is written to the logger under
    the name of its manifest.  The handshake goes on: once the root
    address has passed the checks and the workspace has been fetched, the
    interception of [initialize] ends normally, with the rewritten
    message, whichever installations failed. *)
Theorem install_failures_not_fatal env span st message rootUri zip manifests
    extractPath cacheFolderRoot globalFolderRoot :
  (let run := installDependencies env span extractPath globalFolderRoot cacheFolderRoot
                manifests in
   outcome run st = Ok tt
   /\ filterCalls (events run st) = List.map (manifestPath extractPath) manifests
   /\ yarnCalls (events run st)
      = List.map (installDir extractPath)
          (List.filter (prepared env extractPath globalFolderRoot cacheFolderRoot)
                       manifests)
   /\ installErrors (events run st)
      = collect (failureLog env extractPath globalFolderRoot cacheFolderRoot) manifests)
  /\ (construct env rootUri = Ok zip ->
      Str.endsWith ".zip" (pathname zip) = true ->
      protocol zip = "http:" \/ protocol zip = "https:" ->
      outcome (fetchWorkspace env span zip) (set_zipRootUri zip st)
      = Ok (extractPath, cacheFolderRoot, globalFolderRoot, manifests) ->
      outcome (materialize env span message rootUri) st
      = Ok (rewriteParams message (pathToFileURL (cwd env) extractPath) extractPath)).
Proof.
  split.
  - intros run.
    destruct (installDependencies_run env extractPath globalFolderRoot
                cacheFolderRoot span manifests st) as (s1 & t & E & F & Y & L).
    unfold run, outcome, events. rewrite E. auto.
  - intros Hzip Hext Hproto Hfetch.
    unfold materialize, outcome. rewrite Hzip, bind_lift_ok.
    unfold setTag. unfold bind at 1, modify at 1. unfold bind at 1, emit at 1.
    rewrite Hext.
    assert (Hp : negb (protocol zip =? "http:")%string
                 && negb (protocol zip =? "https:")%string = false).
    { destruct Hproto as [-> | ->]; reflexivity. }
    rewrite Hp. cbn [negb].
    unfold outcome in Hfetch. rewrite run_bind.
    destruct (fetchWorkspace env span zip (set_zipRootUri zip st))
      as [[[ws|e] s1] t1]; simpl in Hfetch; [|discriminate].
    injection Hfetch as ->.
    rewrite run_bind.
    destruct (installDependencies_run env extractPath globalFolderRoot
                cacheFolderRoot span manifests s1) as (s2 & t & E & _).
    cbn [fst snd]. rewrite E. reflexivity.
Qed.

Lemma install_failures_not_fatal_witness :
  let manifests := ["package.json"; "packages/a/package.json"] in
  let env := Sample.envFailingInstalls manifests
               ["/tmp/example.com_repo.zip_uuid0/repo"] in
  let message :=
    Sample.initializeRequest 1 [("rootUri", JStr "https://example.com/repo.zip")] in
  construct env (JStr "https://example.com/repo.zip") = Ok Sample.zipRoot
  /\ installErrors (events (onClientMessage env message) initialState)
     = [("Installation for package.json failed", Rejected (Sample.failure "yarn failed"))]
  /\ outcome (materialize env 1 message (JStr "https://example.com/repo.zip")) initialState
     = Ok (rewriteParams message
             (pathToFileURL "/" "/tmp/example.com_repo.zip_uuid0/repo")
             "/tmp/example.com_repo.zip_uuid0/repo").
Proof.
  intros manifests env message. split; [reflexivity|]. split; [reflexivity|].
  refine (proj2 (install_failures_not_fatal env 1 initialState message
                   (JStr "https://example.com/repo.zip") Sample.zipRoot manifests
                   "/tmp/example.com_repo.zip_uuid0/repo"
                   "/tmp/example.com_repo.zip_uuid0/cache"
                   "/tmp/example.com_repo.zip_uuid0/global")
                eq_refl eq_refl _ eq_refl).
  now right.
Defined.

End InstallFacts.

(** ** Rewriting, for any rule *)

Module RewritingFacts.
Import Json Url Proxy Observe Rewriting.

(** *** Loops *)

Lemma forEach_ok {A B} (g : A -> Outcome B) l l' :
  forEach g l = Ok l' -> Forall2 (fun x y => g x = Ok y) l l'.
Proof.
  revert l'. induction l as [|a l IH]; simpl; intros l' H.
  - injection H as <-. constructor.
  - destruct (g a) as [b|e] eqn:E; simpl in H; [|discriminate].
    destruct (forEach g l) as [r|e] eqn:E2; simpl in H; [|discriminate].
    injection H as <-. constructor; auto.
Qed.

Lemma forEach_throw {A B} (g : A -> Outcome B) l e :
  forEach g l = Throw e -> exists x, In x l /\ g x = Throw e.
Proof.
  induction l as [|a l IH]; simpl; intros H; [discriminate|].
  destruct (g a) as [b|e'] eqn:E; simpl in H.
  - destruct (forEach g l) as [r|e''] eqn:E2; simpl in H; [discriminate|].
    injection H as ->. destruct (IH eq_refl) as (x & Hx & Ex). eauto.
  - injection H as ->. eauto.
Qed.

Lemma forEach_map {A B} (g : A -> Outcome B) (h : A -> B) l :
  (forall x, In x l -> g x = Ok (h x)) -> forEach g l = Ok (List.map h l).
Proof.
  induction l as [|a l IH]; simpl; intros H; [reflexivity|].
  rewrite (H a) by now left. simpl. rewrite IH by (intros; apply H; now right).
  reflexivity.
Qed.

Lemma Forall2_In_l {A B} (R : A -> B -> Prop) l l' x :
  Forall2 R l l' -> In x l -> exists y, In y l' /\ R x y.
Proof.
  induction 1 as [|a b l l' Hab _ IH]; simpl; [tauto|].
  intros [->|Hx]; [eauto|]. destruct (IH Hx) as (y & Hy & Hr). eauto.
Qed.

Lemma Forall2_map_eq {A B} (g : A -> Outcome B) (h : A -> B) l l' :
  Forall2 (fun x y => g x = Ok y) l l' ->
  (forall x y, In x l -> g x = Ok y -> y = h x) ->
  l' = List.map h l.
Proof.
  induction 1 as [|a b l l' Hab _ IH]; simpl; intros H; [reflexivity|].
  rewrite (H a b) by auto. f_equal. apply IH. intros x y Hx. apply H. now right.
Qed.

(** *** Objects *)

Lemma obj_get_In k v fs : obj_get k fs = Some v -> In (k, v) fs.
Proof.
  induction fs as [|[k' v'] fs IH]; simpl; [discriminate|].
  destruct (String.eqb_spec k' k) as [->|Hne].
  - intros [= ->]. now left.
  - intros H. right. auto.
Qed.

Lemma In_obj_get k v fs : In (k, v) fs -> exists x, obj_get k fs = Some x.
Proof.
  induction fs as [|[k' v'] fs IH]; simpl; [tauto|].
  intros [[= -> ->]|H].
  - rewrite String.eqb_refl. eauto.
  - destruct (k' =? k)%string; eauto.
Qed.

Lemma existsb_eqb_In x (l : list string) : existsb (String.eqb x) l = true <-> In x l.
Proof.
  rewrite existsb_exists. split.
  - intros (y & Hy & E). apply String.eqb_eq in E. now subst.
  - intros H. exists x. split; [exact H | apply String.eqb_refl].
Qed.

Lemma nodupb_get k v fs :
  nodupb (List.map fst fs) = true -> In (k, v) fs -> obj_get k fs = Some v.
Proof.
  induction fs as [|[k' v'] fs IH]; simpl; [tauto|].
  intros H. apply andb_true_iff in H as [Hk Hnd].
  intros [[= -> ->]|Hin].
  - now rewrite String.eqb_refl.
  - destruct (String.eqb_spec k' k) as [->|Hne]; [|auto].
    apply negb_true_iff in Hk.
    assert (Hx : existsb (String.eqb k) (List.map fst fs) = true).
    { apply existsb_eqb_In. now apply (in_map fst) in Hin. }
    congruence.
Qed.

Section Walk.
Variable env : Env.
Variable transform : URL -> Outcome URL.

Let one := rewriteOne env transform.
Let walk := rewriteUris env transform.

(** The visit of one field, [uri'] being the new value of the [uri]
    property if the object has one. *)
Let field (uri' : option json) (kv : string * json) : Outcome (string * json) :=
  chk v' <- match uri' with
            | Some s => if (fst kv =? "uri")%string then Ok s else walk (snd kv)
            | None => walk (snd kv)
            end ;;
  Ok (fst kv, v').

Lemma rewriteUris_obj fs :
  walk (JObj fs)
  = chk uri' <- match obj_get "uri" fs with
                | Some v => chk y <- one v ;; Ok (Some y)
                | None => Ok None
                end ;;
    chk fs' <- forEach (field uri') fs ;;
    Ok (JObj fs').
Proof.
  unfold walk, one, field. cbn [rewriteUris].
  destruct (obj_get "uri" fs) as [v|]; [|reflexivity].
  unfold rewriteOne, construct. destruct (newURL env v) as [u|]; [|reflexivity].
  simpl. now destruct (transform u).
Qed.

Lemma rewriteUris_arr l :
  walk (JArr l) = chk l' <- forEach walk l ;; Ok (JArr l').
Proof. reflexivity. Qed.

(** What a run of [rewriteUris] amounts to: when it returns, every
    top-most [uri] value could be rewritten and the result is the
    message with these values replaced; when it throws, the exception is
    the one met at some top-most [uri] value. *)
Lemma rewriteUris_cases m :
  match walk m with
  | Ok m' =>
      m' = mapUris (force env transform) m
      /\ forall x, topUri m x -> exists y, one x = Ok y
  | Throw e => exists x, topUri m x /\ one x = Throw e
  end.
Proof.
  induction m as [| b | n | s | l IH | fs IH] using json_induction;
    try (simpl; split; [reflexivity | intros x Hx; inversion Hx]).
  - rewrite rewriteUris_arr.
    destruct (forEach walk l) as [l'|e] eqn:E; simpl.
    + apply forEach_ok in E. split.
      * f_equal. apply (Forall2_map_eq walk); [exact E|].
        intros v v' Hv Ev.
        apply (proj1 (List.Forall_forall _ _) IH) in Hv.
        rewrite Ev in Hv. tauto.
      * intros x Hx. inversion Hx as [| |? v ? Hin Hv]; subst.
        destruct (Forall2_In_l _ _ _ _ E Hin) as (v' & _ & Ev).
        apply (proj1 (List.Forall_forall _ _) IH) in Hin.
        rewrite Ev in Hin. now apply Hin.
    + apply forEach_throw in E as (v & Hin & Ev).
      pose proof (proj1 (List.Forall_forall _ _) IH v Hin) as Hv.
      simpl in Hv. rewrite Ev in Hv. destruct Hv as (x & Hx & Ex).
      exists x. split; [now apply top_item with v | exact Ex].
  - rewrite rewriteUris_obj.
    assert (Hfield : forall kv uri',
               In kv fs ->
               (uri' = None -> obj_get "uri" fs = None) ->
               match field uri' kv with
               | Ok kv' =>
                   fst kv' = fst kv
                   /\ (match uri' with
                       | Some s => if (fst kv =? "uri")%string then snd kv' = s
                                   else snd kv' = mapUris (force env transform) (snd kv)
                       | None => snd kv' = mapUris (force env transform) (snd kv)
                       end)
                   /\ (fst kv <> "uri" ->
                       forall x, topUri (snd kv) x -> exists y, one x = Ok y)
               | Throw e => exists x, topUri (JObj fs) x /\ one x = Throw e
               end).
    { intros [k v] uri' Hin Hnone. unfold field. cbn [fst snd].
      pose proof (proj1 (List.Forall_forall _ _) IH (k, v) Hin) as Hv.
      cbn [snd] in Hv.
      assert (Hrec : match chk v' <- walk v ;; Ok (k, v') with
                     | Ok kv' =>
                         fst kv' = k
                         /\ snd kv' = mapUris (force env transform) v
                         /\ (forall x, topUri v x -> exists y, one x = Ok y)
                     | Throw e =>
                         k <> "uri" -> exists x, topUri (JObj fs) x /\ one x = Throw e
                     end).
      { destruct (walk v) as [v'|e]; simpl; [tauto|].
        intros Hk. destruct Hv as (x & Hx & Ex).
        exists x. split; [now apply top_field with k v | exact Ex]. }
      destruct uri' as [s|].
      - destruct (String.eqb_spec k "uri") as [->|Hk]; simpl.
        + repeat split. intros H. congruence.
        + destruct (chk v' <- walk v ;; Ok (k, v')) as [kv'|e]; [|auto].
          destruct Hrec as (H1 & H2 & H3). auto.
      - assert (Hk : k <> "uri").
        { intros ->. destruct (In_obj_get _ _ _ Hin) as (x & Ex).
          rewrite (Hnone eq_refl) in Ex. discriminate. }
        destruct (chk v' <- walk v ;; Ok (k, v')) as [kv'|e]; [|auto].
        destruct Hrec as (H1 & H2 & H3). auto. }
    destruct (obj_get "uri" fs) as [v|] eqn:Euri.
    + destruct (one v) as [y|e] eqn:Ey; simpl;
        [|exists v; split; [now apply top_here | exact Ey]].
      destruct (forEach (field (Some y)) fs) as [fs'|e] eqn:E; simpl.
      * apply forEach_ok in E. split.
        -- cbn [mapUris]. rewrite Euri. f_equal.
           apply (Forall2_map_eq (field (Some y))); [exact E|].
           intros kv kv' Hin Ekv.
           specialize (Hfield kv (Some y) Hin). rewrite Ekv in Hfield.
           destruct Hfield as (H1 & H2 & _); [discriminate|].
           destruct kv' as [k' v']. simpl in *. subst k'. f_equal.
           destruct (fst kv =? "uri")%string; [|exact H2].
           unfold force. fold one. now rewrite Ey.
        -- intros x Hx. inversion Hx as [? ? Hget | ? k w ? Hin Hk Hw |]; subst.
           ++ rewrite Euri in Hget. injection Hget as <-. eauto.
           ++ destruct (Forall2_In_l _ _ _ _ E Hin) as (kv' & _ & Ekv).
              specialize (Hfield (k, w) (Some y) Hin). rewrite Ekv in Hfield.
              destruct Hfield as (_ & _ & H3); [discriminate|]. now apply H3.
      * apply forEach_throw in E as (kv & Hin & Ekv).
        specialize (Hfield kv (Some y) Hin). rewrite Ekv in Hfield.
        apply Hfield. discriminate.
    + simpl.
      destruct (forEach (field None) fs) as [fs'|e] eqn:E; simpl.
      * apply forEach_ok in E. split.
        -- cbn [mapUris]. rewrite Euri. f_equal.
           apply (Forall2_map_eq (field None)); [exact E|].
           intros kv kv' Hin Ekv.
           specialize (Hfield kv None Hin). rewrite Ekv in Hfield.
           destruct Hfield as (H1 & H2 & _); [auto|].
           destruct kv' as [k' v']. simpl in *. subst k'. f_equal.
           destruct (String.eqb_spec (fst kv) "uri") as [Hk|_]; [|exact H2].
           destruct kv as [k w]. simpl in Hk. subst k.
           destruct (In_obj_get _ _ _ Hin) as (x & Ex). congruence.
        -- intros x Hx. inversion Hx as [? ? Hget | ? k w ? Hin Hk Hw |]; subst.
           ++ congruence.
           ++ destruct (Forall2_In_l _ _ _ _ E Hin) as (kv' & _ & Ekv).
              specialize (Hfield (k, w) None Hin). rewrite Ekv in Hfield.
              destruct Hfield as (_ & _ & H3); [auto|]. now apply H3.
      * apply forEach_throw in E as (kv & Hin & Ekv).
        specialize (Hfield kv None Hin). rewrite Ekv in Hfield.
        now apply Hfield.
Qed.

Lemma rewriteUris_mapUris m m' :
  walk m = Ok m' -> m' = mapUris (force env transform) m.
Proof.
  intros H. pose proof (rewriteUris_cases m) as C. rewrite H in C. tauto.
Qed.

Lemma rewriteUris_returns m :
  (forall x, topUri m x -> exists y, one x = Ok y) ->
  walk m = Ok (mapUris (force env transform) m).
Proof.
  intros H. pose proof (rewriteUris_cases m) as C.
  destruct (walk m) as [m'|e].
  - now destruct C as [-> _].
  - destruct C as (x & Hx & Ex). destruct (H x Hx) as (y & Ey). congruence.
Qed.

End Walk.

(** *** Replacing the values of the [uri] properties *)

Lemma obj_get_map (h : string * json -> json) k fs :
  obj_get k (List.map (fun kv => (fst kv, h kv)) fs)
  = match obj_get k fs with
    | Some v => Some (h (k, v))
    | None => None
    end.
Proof.
  induction fs as [|[k' v'] fs IH]; simpl; [reflexivity|].
  destruct (String.eqb_spec k' k) as [->|_]; [reflexivity | exact IH].
Qed.

Lemma mapUris_obj f fs : mapUris f (JObj fs) = JObj (mapFields f fs).
Proof. reflexivity. Qed.

Lemma mapFields_get f k fs :
  obj_get k (mapFields f fs)
  = match obj_get k fs with
    | Some v => Some (if (k =? "uri")%string then f v else mapUris f v)
    | None => None
    end.
Proof.
  unfold mapFields. erewrite obj_get_map.
  destruct (obj_get k fs) as [v|] eqn:E; [|reflexivity].
  cbn [fst snd].
  destruct (String.eqb_spec k "uri") as [->|_]; [|reflexivity].
  now rewrite E.
Qed.

(** The value at a key other than [uri] keeps its kind. *)
Lemma mapUris_prop f k m :
  k <> "uri" ->
  prop k (mapUris f m) = option_map (mapUris f) (prop k m).
Proof.
  intros Hk. destruct m as [| | | | l | fs]; try reflexivity.
  rewrite mapUris_obj. unfold prop. rewrite mapFields_get.
  destruct (obj_get k fs) as [v|]; [|reflexivity].
  destruct (String.eqb_spec k "uri"); [contradiction | reflexivity].
Qed.

Lemma mapUris_scalars f (o : option json) :
  isString (option_map (mapUris f) o) = isString o
  /\ isNumber (option_map (mapUris f) o) = isNumber o
  /\ truthy (option_map (mapUris f) o) = truthy o
  /\ idOf (option_map (mapUris f) o) = idOf o
  /\ match option_map (mapUris f) o with Some JNull => true | _ => false end
     = match o with Some JNull => true | _ => false end
  /\ match option_map (mapUris f) o with Some _ => true | None => false end
     = match o with Some _ => true | None => false end
  /\ match option_map (mapUris f) o with Some (JStr s) => s | _ => "" end
     = match o with Some (JStr s) => s | _ => "" end.
Proof. destruct o as [[]|]; repeat split; reflexivity. Qed.

Lemma mapUris_kind f m :
  isRequestMessage (mapUris f m) = isRequestMessage m
  /\ isNotificationMessage (mapUris f m) = isNotificationMessage m
  /\ isResponseMessage (mapUris f m) = isResponseMessage m
  /\ methodOf (mapUris f m) = methodOf m
  /\ idOf (prop "id" (mapUris f m)) = idOf (prop "id" m).
Proof.
  unfold isRequestMessage, isNotificationMessage, isResponseMessage, methodOf.
  rewrite !mapUris_prop by discriminate.
  destruct (mapUris_scalars f (prop "method" m)) as (M1 & _ & _ & _ & _ & _ & M7).
  destruct (mapUris_scalars f (prop "id" m)) as (I1 & I2 & _ & I4 & I5 & I6 & _).
  destruct (mapUris_scalars f (prop "result" m)) as (_ & _ & _ & _ & _ & R6 & _).
  destruct (mapUris_scalars f (prop "error" m)) as (_ & _ & E3 & _).
  rewrite M1, M7, I1, I2, I4, R6, E3.
  repeat split.
  - f_equal. destruct (prop "id" m); reflexivity.
  - do 2 f_equal. destruct (prop "id" m) as [[]|]; reflexivity.
Qed.

Lemma topUri_mentions m x : topUri m x -> mentionsUri m = true.
Proof.
  induction 1 as [fs x H | fs k v x Hin Hk _ IH | l v x Hin _ IH]; simpl.
  - now rewrite H.
  - apply orb_true_iff. right. apply existsb_exists. now exists (k, v).
  - apply existsb_exists. now exists v.
Qed.

Lemma mapUris_image f m y :
  topUri (mapUris f m) y -> exists x, topUri m x /\ y = f x.
Proof.
  revert y. induction m as [| b | n | s | l IH | fs IH] using json_induction;
    intros y Hy; try (now inversion Hy).
  - cbn [mapUris] in Hy. inversion Hy as [| |? v' ? Hin Hv']; subst.
    apply in_map_iff in Hin as (v & <- & Hin).
    destruct (proj1 (List.Forall_forall _ _) IH v Hin y Hv') as (x & Hx & ->).
    exists x. split; [now apply top_item with v | reflexivity].
  - rewrite mapUris_obj in Hy.
    inversion Hy as [? ? Hget | ? k v' ? Hin Hk Hv' |]; subst.
    + rewrite mapFields_get in Hget.
      destruct (obj_get "uri" fs) as [x|] eqn:E; [|discriminate].
      injection Hget as <-. exists x. split; [now apply top_here | reflexivity].
    + unfold mapFields in Hin.
      apply in_map_iff in Hin as ([k0 v] & [= -> <-] & Hin). cbn [fst snd] in *.
      destruct (String.eqb_spec k "uri"); [contradiction|].
      destruct (proj1 (List.Forall_forall _ _) IH (k, v) Hin y Hv') as (x & Hx & ->).
      exists x. split; [now apply top_field with k v | reflexivity].
Qed.

Lemma mapUris_compose f g m :
  mapUris g (mapUris f m) = mapUris (fun x => g (f x)) m.
Proof.
  induction m as [| b | n | s | l IH | fs IH] using json_induction;
    try reflexivity.
  - cbn [mapUris]. f_equal. rewrite List.map_map. apply List.map_ext_in.
    intros v Hv. exact (proj1 (List.Forall_forall _ _) IH v Hv).
  - rewrite !mapUris_obj. f_equal. unfold mapFields at 1.
    rewrite mapFields_get. unfold mapFields.
    rewrite List.map_map. apply List.map_ext_in.
    intros [k v] Hin. cbn [fst snd]. f_equal.
    destruct (String.eqb_spec k "uri") as [->|_].
    + destruct (In_obj_get _ _ _ Hin) as (x & ->). reflexivity.
    + exact (proj1 (List.Forall_forall _ _) IH (k, v) Hin).
Qed.

Lemma map_fixed {A} (h : A -> A) l : (forall x, In x l -> h x = x) -> List.map h l = l.
Proof.
  intros H. rewrite <- (List.map_id l) at 2. now apply List.map_ext_in.
Qed.

Lemma mapUris_fixed f m :
  distinctKeys m = true ->
  (forall x, topUri m x -> f x = x) ->
  mapUris f m = m.
Proof.
  induction m as [| b | n | s | l IH | fs IH] using json_induction;
    try reflexivity; intros Hd Hf.
  - cbn [mapUris distinctKeys] in *. f_equal.
    apply map_fixed. intros v Hv.
    apply (proj1 (List.Forall_forall _ _) IH v Hv).
    + now apply (proj1 (forallb_forall _ _) Hd).
    + intros x Hx. apply Hf. now apply top_item with v.
  - rewrite mapUris_obj. cbn [distinctKeys] in Hd.
    apply andb_true_iff in Hd as [Hnd Hd].
    f_equal. unfold mapFields. apply map_fixed.
    intros [k v] Hin. cbn [fst snd]. f_equal.
    destruct (String.eqb_spec k "uri") as [->|Hk].
    + rewrite (nodupb_get _ _ _ Hnd Hin). apply Hf. apply top_here.
      now apply nodupb_get.
    + apply (proj1 (List.Forall_forall _ _) IH (k, v) Hin).
      * exact (proj1 (forallb_forall _ _) Hd (k, v) Hin).
      * intros x Hx. apply Hf. now apply top_field with k v.
Qed.

Lemma mapUris_untouched f m : mentionsUri m = false -> mapUris f m = m.
Proof.
  induction m as [| b | n | s | l IH | fs IH] using json_induction;
    try reflexivity; intros Hm.
  - cbn [mapUris mentionsUri] in *. f_equal.
    apply map_fixed. intros v Hv.
    apply (proj1 (List.Forall_forall _ _) IH v Hv).
    destruct (mentionsUri v) eqn:E; [|reflexivity].
    assert (existsb mentionsUri l = true) by (apply existsb_exists; eauto).
    congruence.
  - rewrite mapUris_obj. cbn [mentionsUri] in Hm.
    apply orb_false_iff in Hm as [Hget Hm].
    destruct (obj_get "uri" fs) as [x|] eqn:E; [discriminate|].
    f_equal. unfold mapFields. apply map_fixed.
    intros [k v] Hin. cbn [fst snd]. f_equal.
    destruct (String.eqb_spec k "uri") as [->|Hk].
    + now rewrite E.
    + apply (proj1 (List.Forall_forall _ _) IH (k, v) Hin). cbn [snd].
      destruct (mentionsUri v) eqn:Ev; [|reflexivity].
      assert (existsb (fun kv => mentionsUri (snd kv)) fs = true)
        by (apply existsb_exists; exists (k, v); auto).
      congruence.
Qed.

(** *** The properties *)

(** X1.  [rewriteUris] returns exactly when every [uri] property that it
    reaches (one that does not lie inside the value of another [uri]
    property) holds a value that the [URL] constructor accepts and the
    rule maps to an address.  When it throws, the exception is the one
    the constructor or the rule raised on the value of such a property;
    nothing is caught or replaced on the way up. *)
Theorem rewriteUris_throws_at_uri env transform m :
  match rewriteUris env transform m with
  | Ok _ => forall x, topUri m x -> exists y, rewriteOne env transform x = Ok y
  | Throw e => exists x, topUri m x /\ rewriteOne env transform x = Throw e
  end.
Proof.
  pose proof (rewriteUris_cases env transform m) as C.
  destruct (rewriteUris env transform m); tauto.
Qed.

(** X2.  Rewriting never changes what kind of JSON-RPC message a message
    is: the rewritten message is a request, a notification or a response
    exactly when the original is, with the same method and the same
    identifier. *)
Theorem rewriteUris_keeps_kind env transform m m' :
  rewriteUris env transform m = Ok m' ->
  isRequestMessage m' = isRequestMessage m
  /\ isNotificationMessage m' = isNotificationMessage m
  /\ isResponseMessage m' = isResponseMessage m
  /\ methodOf m' = methodOf m
  /\ idOf (prop "id" m') = idOf (prop "id" m).
Proof.
  intros H. apply rewriteUris_mapUris in H. subst m'. apply mapUris_kind.
Qed.

Lemma rewriteUris_keeps_kind_witness :
  let env := Sample.env [] in
  let message :=
    Sample.request 2 "textDocument/hover"
      (JObj [("textDocument",
              JObj [("uri", JStr "https://example.com/repo.zip#src/index.ts")])]) in
  let message' :=
    Sample.request 2 "textDocument/hover"
      (JObj [("textDocument",
              JObj [("uri", JStr "file:///tmp/ws/repo/src/index.ts")])]) in
  rewriteUris env (transformZipToFileUri env Sample.active) message = Ok message'
  /\ isRequestMessage message' = isRequestMessage message
  /\ methodOf message' = methodOf message.
Proof.
  intros env message message'. split; [reflexivity|].
  pose proof (rewriteUris_keeps_kind env (transformZipToFileUri env Sample.active)
                message message' eq_refl) as H.
  split; [exact (proj1 H) | exact (proj1 (proj2 (proj2 (proj2 H))))].
Defined.

(** X3.  A message in which no property is named [uri] is returned as it
    is, whatever the rule: the rule is not consulted, so that even a rule
    that always throws lets such a message through. *)
Theorem rewriteUris_without_uri env m :
  mentionsUri m = false ->
  forall transform, rewriteUris env transform m = Ok m.
Proof.
  intros Hm transform.
  rewrite (rewriteUris_returns env transform m).
  - now rewrite mapUris_untouched.
  - intros x Hx. apply topUri_mentions in Hx. congruence.
Qed.

Lemma rewriteUris_without_uri_witness :
  let message := Sample.request 3 "shutdown" JNull in
  mentionsUri message = false
  /\ rewriteUris (Sample.env []) (fun _ => Throw (Error "no rule")) message = Ok message.
Proof.
  intros message. split; [reflexivity|].
  exact (rewriteUris_without_uri (Sample.env []) message eq_refl
           (fun _ => Throw (Error "no rule"))).
Defined.

End RewritingFacts.

(** ** Addresses inside and outside the checkout *)

Module AddressFacts.
Import Json Url Proxy Observe Rewriting StrFacts PathFacts UrlFacts RewritingFacts.

#[local] Arguments String.append : simpl nomatch.

(** *** Relative paths that may climb *)

(** The segments of such a path: not empty and made of plain characters,
    [..] included. *)
Abbreviation loose l :=
  (Forall (fun s => Str.isEmpty s = false /\ Str.forallb plainChar s = true) l).

Lemma stripCommon_spec rs fs :
  exists common up down,
    Path.stripCommon rs fs = (up, down) /\ rs = common ++ up /\ fs = common ++ down.
Proof.
  revert fs. induction rs as [|r rs IH]; intros fs.
  - exists [], [], fs. now destruct fs.
  - destruct fs as [|f fs]; [now exists [], (r :: rs), []|].
    simpl. destruct (String.eqb_spec r f) as [->|Hne].
    + destruct (IH fs) as (c & u & d & E & -> & ->).
      exists (f :: c), u, d. now rewrite E.
    + now exists [], (r :: rs), (f :: fs).
Qed.

Lemma normalForm_loose l : normalForm l = true -> loose l.
Proof.
  intros H. apply normalForm_Forall in H.
  eapply Forall_impl; [exact H|]. simpl. intros s Hs. split.
  - now apply plainSegment_facts in Hs.
  - now apply plainSegment_chars.
Qed.

Lemma climb_loose rs fs :
  normalForm rs = true -> normalForm fs = true -> loose (climb rs fs).
Proof.
  intros Hr Hf. unfold climb.
  destruct (stripCommon_spec rs fs) as (c & u & d & E & -> & ->). rewrite E.
  rewrite normalForm_app in Hf. apply andb_true_iff in Hf as [_ Hd].
  apply Forall_app. split.
  - apply Forall_forall. intros s Hs. apply list_elem_of_In in Hs.
    apply in_map_iff in Hs as (x & <- & _). split; reflexivity.
  - now apply normalForm_loose.
Qed.

Lemma loose_nonempty l : l <> [] -> loose l -> Str.isEmpty (Str.join "/" l) = false.
Proof.
  intros Hne H. destruct H as [|s l [Hs _] _]; [congruence|].
  destruct s; [discriminate|]. now destruct l.
Qed.

Lemma loose_chars (p : ascii -> bool) l :
  (forall c, plainChar c = true -> p c = true) ->
  loose l -> Forall (fun s => Str.forallb p s = true) l.
Proof.
  intros Hp H. eapply Forall_impl; [exact H|]. simpl. intros s [_ Hs].
  now apply (forallb_weaken plainChar).
Qed.

Lemma loose_pathChar l : loose l -> Str.forallb pathChar (Str.join "/" l) = true.
Proof.
  intros H. apply forallb_join; [reflexivity|].
  apply loose_chars; [|exact H]. intros c Hc. unfold pathChar. now rewrite Hc.
Qed.

Lemma loose_first l c r :
  loose l -> Str.join "/" l = String c r -> plainChar c = true.
Proof.
  intros H E. destruct H as [|s l [Hs Hc] _]; [discriminate|].
  destruct s as [|c' s']; [discriminate|].
  assert (c = c') by (destruct l; simpl in E; congruence). subst c'.
  simpl in Hc. now apply andb_true_iff in Hc as [Hc _].
Qed.

Lemma set_hash_loose u l :
  loose l -> set_hash u (Str.join "/" l) = withFragment u (fragmentOf l).
Proof.
  intros H. unfold set_hash, withFragment. f_equal.
  destruct l as [|s l]; [reflexivity|].
  pose proof (loose_pathChar _ H) as Hc.
  pose proof (loose_nonempty (s :: l) ltac:(discriminate) H) as Hnonempty.
  unfold fragmentOf.
  destruct (Str.join "/" (s :: l)) as [|c r] eqn:E; [discriminate|].
  pose proof (loose_first _ _ _ H E) as Hfirst.
  apply plainChar_facts in Hfirst as (_ & _ & _ & _ & _ & Hhash & _).
  rewrite Hhash. rewrite stripTabNewline_path by exact Hc.
  f_equal. apply percentEncode_id.
  apply (forallb_weaken pathChar); [|exact Hc].
  intros a Ha. apply pathChar_facts in Ha as (Ha & _). now rewrite Ha.
Qed.

Lemma hash_loose u l :
  loose l -> Str.substr1 (hash (withFragment u (fragmentOf l))) = Str.join "/" l.
Proof.
  intros H. unfold hash, withFragment. simpl.
  destruct l as [|s l]; [reflexivity|].
  unfold fragmentOf.
  now rewrite (loose_nonempty (s :: l)) by (discriminate || assumption).
Qed.

Lemma replaceAll_loose l :
  loose l -> Str.replaceAll "\" "/" (Str.join "/" l) = Str.join "/" l.
Proof.
  intros H. apply replaceAll_id.
  apply no_char_path; [|now apply loose_pathChar].
  intros a Ha. apply pathChar_facts in Ha. tauto.
Qed.

Lemma loose_last l : l <> [] -> loose l ->
  Str.isEmpty (List.last l "") = false /\ Str.forallb plainChar (List.last l "") = true.
Proof.
  intros Hne H. rewrite Forall_forall in H. apply H. apply list_elem_of_In.
  destruct l as [|s l]; [congruence|].
  apply (@exists_last _ (s :: l)) in Hne as (l' & a & E).
  rewrite E, last_last. apply in_or_app. right. now left.
Qed.

Lemma endsWith_loose pre l :
  l <> [] -> loose l -> Str.endsWith "/" (pre +:+ Str.join "/" l) = false.
Proof.
  intros Hne H.
  destruct (join_last "/" l Hne) as (p & E). rewrite E.
  destruct (loose_last l Hne H) as (Hnonempty & Hlast).
  destruct (string_snoc (List.last l "")) as (t & c & Et).
  { intros Hx. rewrite Hx in Hnonempty. discriminate. }
  rewrite Et, <- !append_assoc, endsWith_slash_snoc.
  rewrite Et, forallb_app in Hlast.
  apply andb_true_iff in Hlast as [_ Hc]. simpl in Hc.
  apply andb_true_iff in Hc as [Hc _].
  now apply plainChar_facts in Hc.
Qed.

Lemma split_absolute_loose l :
  l <> [] -> loose l -> Str.split "/" (absolutePath l) = "" :: l.
Proof.
  intros Hne H. unfold absolutePath, Str.split. simpl. f_equal.
  apply splitBy_join; [reflexivity | exact Hne |].
  apply loose_chars; [|exact H]. intros c Hc.
  apply plainChar_facts in Hc as (_ & _ & _ & _ & _ & _ & Hc). now rewrite Hc.
Qed.

(** One [..] removes the segment kept last. *)
Lemma normalizeSegments_pop a stack res tail :
  normalForm stack = true ->
  Path.normalizeSegments a (stack ++ res) (repeat ".." (length stack) ++ tail)
  = Path.normalizeSegments a res tail.
Proof.
  induction stack as [|s stack IH]; intros H; [reflexivity|].
  simpl in H. apply andb_true_iff in H as [Hs Hst].
  destruct (plainSegment_facts s Hs) as (_ & _ & Hdd).
  simpl. rewrite Hdd. now apply IH.
Qed.

Lemma normalForm_rev l : normalForm (List.rev l) = normalForm l.
Proof.
  unfold normalForm. apply eq_true_iff_eq. rewrite !forallb_forall.
  split; intros H x Hx; apply H; [now apply in_rev in Hx | now apply in_rev].
Qed.

Lemma map_dots (up : list string) :
  List.map (fun _ => "..") up = repeat ".." (length up).
Proof. induction up as [|x up IH]; simpl; [reflexivity | now rewrite IH]. Qed.

(** [path.posix.join] of a directory in normal form and the relative path
    from it to a path in normal form gives that path. *)
Lemma join_climb rs fs :
  rs <> [] -> normalForm rs = true -> fs <> [] -> normalForm fs = true ->
  Path.join [absolutePath rs; Str.join "/" (climb rs fs)] = absolutePath fs.
Proof.
  intros Hr Hnr Hf Hnf.
  pose proof (climb_loose rs fs Hnr Hnf) as Hloose.
  destruct (climb rs fs) as [|c cl] eqn:Ec.
  - assert (rs = fs).
    { unfold climb in Ec.
      destruct (stripCommon_spec rs fs) as (co & u & d & E & -> & ->).
      rewrite E in Ec. apply app_eq_nil in Ec as [Eu ->].
      apply map_eq_nil in Eu. now subst. }
    subst fs. unfold Path.join. simpl. now apply normalize_absolute.
  - rewrite <- Ec in *.
    assert (Hne : climb rs fs <> []) by (rewrite Ec; discriminate).
    unfold Path.join.
    assert (E : List.filter (fun a => negb (Str.isEmpty a))
                  [absolutePath rs; Str.join "/" (climb rs fs)]
                = [absolutePath rs; Str.join "/" (climb rs fs)]).
    { cbn [List.filter].
      replace (Str.isEmpty (absolutePath rs)) with false by reflexivity.
      now rewrite (loose_nonempty (climb rs fs)) by assumption. }
    rewrite E.
    change (Str.join "/" [absolutePath rs; Str.join "/" (climb rs fs)])
      with (absolutePath rs +:+ "/" +:+ Str.join "/" (climb rs fs)).
    rewrite absolute_app by assumption.
    assert (Hall : loose (rs ++ climb rs fs)).
    { apply Forall_app. split; [now apply normalForm_loose | exact Hloose]. }
    assert (Hne' : rs ++ climb rs fs <> []) by (now destruct rs).
    unfold Path.normalize.
    replace (Str.isEmpty (absolutePath (rs ++ climb rs fs))) with false by reflexivity.
    replace (Path.isAbsolute (absolutePath (rs ++ climb rs fs))) with true by reflexivity.
    assert (Et : Str.endsWith "/" (absolutePath (rs ++ climb rs fs)) = false)
      by (now apply endsWith_loose).
    rewrite Et. simpl negb.
    unfold Path.normalizeString. rewrite split_absolute_loose by assumption.
    assert (Es : Path.normalizeSegments false [] ("" :: rs ++ climb rs fs) = fs).
    { simpl. unfold climb.
      destruct (stripCommon_spec rs fs) as (co & u & d & Es & -> & ->).
      rewrite Es. rewrite normalForm_app in Hnr, Hnf.
      apply andb_true_iff in Hnr as [Hco Hu].
      apply andb_true_iff in Hnf as [_ Hd].
      rewrite <- !app_assoc.
      rewrite normalizeSegments_normalForm by exact Hco.
      rewrite normalizeSegments_normalForm by exact Hu.
      rewrite map_dots, <- (length_rev u).
      rewrite normalizeSegments_pop by (now rewrite normalForm_rev).
      rewrite <- (app_nil_r d) at 1.
      rewrite normalizeSegments_normalForm by exact Hd.
      simpl. rewrite !app_nil_r, rev_app_distr, !rev_involutive. reflexivity. }
    rewrite Es. rewrite !andb_false_r. reflexivity.
Qed.

(** [path.relative] between two absolute paths in normal form. *)
Lemma relative_climb cwd rs fs :
  rs <> [] -> normalForm rs = true -> fs <> [] -> normalForm fs = true ->
  Path.relative cwd (absolutePath rs) (absolutePath fs) = Str.join "/" (climb rs fs).
Proof.
  intros Hr Hnr Hf Hnf. unfold Path.relative, climb.
  destruct (String.eqb_spec (absolutePath rs) (absolutePath fs)) as [E|E].
  - apply (f_equal Path.segments) in E.
    rewrite !segments_absolute in E by assumption. subst fs.
    rewrite <- (app_nil_r rs) at 2. now rewrite stripCommon_prefix.
  - rewrite !resolve_absolute by assumption.
    destruct (String.eqb_spec (absolutePath rs) (absolutePath fs)); [contradiction|].
    rewrite !segments_absolute by assumption.
    now destruct (Path.stripCommon rs fs).
Qed.

(** *** A session with its roots *)

Section Session.
Variable env : Env.
Variable st : State.
Variable zip : URL.
Variable rs : list string.

#[local] Abbreviation root := (pathToFileURL (cwd env) (absolutePath rs)).

Hypothesis root_nonempty : rs <> [].
Hypothesis root_normal : normalForm rs = true.
Hypothesis root_no_drive : isWindowsDriveLetter (hd "" rs) = false.
Hypothesis session_zip : zipRootUri st = Some zip.
Hypothesis session_extract : extractPath st = Some (absolutePath rs).
Hypothesis session_file : fileRootUri st = Some root.
Hypothesis zip_parses : newURL env (JStr (href zip)) = Some zip.
Hypothesis root_parses : newURL env (JStr (href root)) = Some root.

Lemma root_is : root = withPathname emptyFileURL (absolutePath rs).
Proof. now apply pathToFileURL_absolute. Qed.

(** Both rules on the file address of any absolute path in normal
    form. *)
Lemma rules_on_files fs :
  fs <> [] -> normalForm fs = true -> isWindowsDriveLetter (hd "" fs) = false ->
  transformFileToZipUri env st (fileAddress root fs)
  = Ok (archiveAddress zip (climb rs fs))
  /\ transformZipToFileUri env st (archiveAddress zip (climb rs fs))
     = Ok (fileAddress root fs).
Proof.
  intros Hf Hnf Hd.
  pose proof (climb_loose rs fs root_normal Hnf) as Hloose.
  unfold fileAddress, archiveAddress. split.
  - unfold transformFileToZipUri, construct.
    rewrite fileURLToPath_absolute by (try assumption; now rewrite root_is).
    rewrite session_zip, zip_parses, session_extract. cbn [obind].
    rewrite relative_climb, replaceAll_loose by assumption.
    now rewrite set_hash_loose.
  - unfold transformZipToFileUri, construct.
    rewrite session_file, root_parses. cbn [obind].
    rewrite hash_loose by assumption.
    f_equal. rewrite root_is. cbn [pathname withPathname].
    rewrite join_climb by assumption.
    now apply set_pathname_absolute.
Qed.

Lemma climb_below ps : climb rs (rs ++ ps) = ps.
Proof. unfold climb. now rewrite stripCommon_prefix. Qed.

End Session.

(** X4.  The rule for server messages and the rule for client messages
    are inverse to each other on the file address of every absolute path
    in normal form, inside the checkout or not: the file address is
    rewritten to the archive address whose fragment is the relative path
    from the extraction root, with one [..] for every segment of the root
    that the path does not share, and that archive address is rewritten
    back to the file address.  So every such path of the machine is the
    image of an archive address: the checkout does not confine the
    addresses a client can name. *)
Theorem file_addresses_round_trip env st zip rs fs :
  rs <> [] -> normalForm rs = true -> isWindowsDriveLetter (hd "" rs) = false ->
  zipRootUri st = Some zip ->
  extractPath st = Some (absolutePath rs) ->
  fileRootUri st = Some (pathToFileURL (cwd env) (absolutePath rs)) ->
  newURL env (JStr (href zip)) = Some zip ->
  newURL env (JStr (href (pathToFileURL (cwd env) (absolutePath rs))))
  = Some (pathToFileURL (cwd env) (absolutePath rs)) ->
  fs <> [] -> normalForm fs = true -> isWindowsDriveLetter (hd "" fs) = false ->
  let F := fileAddress (pathToFileURL (cwd env) (absolutePath rs)) fs in
  let A := archiveAddress zip (climb rs fs) in
  transformFileToZipUri env st F = Ok A
  /\ transformZipToFileUri env st A = Ok F.
Proof.
  intros. now apply rules_on_files.
Qed.

Lemma file_addresses_round_trip_witness :
  let env := Sample.env [] in
  let st := Sample.active in
  let F := fileAddress (pathToFileURL "/" "/tmp/ws/repo") ["usr"; "lib"; "lib.d.ts"] in
  let A := archiveAddress Sample.zipRoot [".."; ".."; ".."; "usr"; "lib"; "lib.d.ts"] in
  normalForm ["usr"; "lib"; "lib.d.ts"] = true
  /\ href F = "file:///usr/lib/lib.d.ts"
  /\ href A = "https://example.com/repo.zip#../../../usr/lib/lib.d.ts"
  /\ transformFileToZipUri env st F = Ok A
  /\ transformZipToFileUri env st A = Ok F.
Proof.
  intros env st F A.
  split; [reflexivity|]. split; [reflexivity|]. split; [reflexivity|].
  exact (file_addresses_round_trip env st Sample.zipRoot
           ["tmp"; "ws"; "repo"] ["usr"; "lib"; "lib.d.ts"]
           ltac:(discriminate) eq_refl eq_refl eq_refl eq_refl eq_refl eq_refl eq_refl
           ltac:(discriminate) eq_refl eq_refl).
Defined.

(** X5.  A message of a client whose [uri] properties are archive
    addresses of paths in normal form below the archive root comes back
    as it was after being rewritten for the language server and then
    rewritten for the client: both rewritings return, and the second
    undoes the first. *)
Theorem message_round_trip env st zip rs m :
  rs <> [] -> normalForm rs = true -> isWindowsDriveLetter (hd "" rs) = false ->
  zipRootUri st = Some zip ->
  extractPath st = Some (absolutePath rs) ->
  fileRootUri st = Some (pathToFileURL (cwd env) (absolutePath rs)) ->
  newURL env (JStr (href zip)) = Some zip ->
  newURL env (JStr (href (pathToFileURL (cwd env) (absolutePath rs))))
  = Some (pathToFileURL (cwd env) (absolutePath rs)) ->
  distinctKeys m = true ->
  (forall x, topUri m x -> isArchiveAddress env zip rs x) ->
  exists m1,
    rewriteUris env (transformZipToFileUri env st) m = Ok m1
    /\ rewriteUris env (transformFileToZipUri env st) m1 = Ok m.
Proof.
  intros Hr Hnr Hdr Hzip Hextract Hfile Hpz Hpr Hkeys Hm.
  set (root := pathToFileURL (cwd env) (absolutePath rs)) in *.
  set (toFile := transformZipToFileUri env st).
  set (toZip := transformFileToZipUri env st).
  assert (Hone : forall x, topUri m x ->
             exists ps,
               rewriteOne env toFile x = Ok (JStr (href (fileAddress root (rs ++ ps))))
               /\ rewriteOne env toZip (JStr (href (fileAddress root (rs ++ ps)))) = Ok x).
  { intros x Hx. destruct (Hm x Hx) as (ps & Hps & -> & Hparse & Hparse').
    exists ps.
    assert (Hall : normalForm (rs ++ ps) = true) by (now rewrite normalForm_app, Hnr, Hps).
    destruct (rules_on_files env st zip rs Hr Hnr Hdr Hzip Hextract Hfile Hpz Hpr
                (rs ++ ps)) as [Hback Hforth];
      [now destruct rs | exact Hall | now destruct rs |].
    rewrite climb_below in Hback, Hforth.
    unfold rewriteOne, construct. fold root in Hparse'.
    rewrite Hparse, Hparse'. simpl.
    unfold toFile, toZip. fold root in Hback, Hforth. now rewrite Hforth, Hback. }
  exists (mapUris (force env toFile) m). split.
  - apply rewriteUris_returns. intros x Hx.
    destruct (Hone x Hx) as (ps & E & _). eauto.
  - rewrite rewriteUris_returns.
    + f_equal. rewrite mapUris_compose. apply mapUris_fixed; [exact Hkeys|].
      intros x Hx. destruct (Hone x Hx) as (ps & E & E').
      unfold force. rewrite E, E'. reflexivity.
    + intros y Hy. apply mapUris_image in Hy as (x & Hx & ->).
      destruct (Hone x Hx) as (ps & E & E').
      unfold force. rewrite E. eauto.
Qed.

Lemma message_round_trip_witness :
  let env := Sample.env [] in
  let message :=
    Sample.request 2 "textDocument/hover"
      (JObj [("textDocument",
              JObj [("uri", JStr "https://example.com/repo.zip#src/index.ts")]);
             ("position", JObj [("line", JNum 3); ("character", JNum 7)])]) in
  distinctKeys message = true
  /\ exists m1,
       rewriteUris env (transformZipToFileUri env Sample.active) message = Ok m1
       /\ rewriteUris env (transformFileToZipUri env Sample.active) m1 = Ok message.
Proof.
  intros env message. split; [reflexivity|].
  apply (message_round_trip env Sample.active Sample.zipRoot ["tmp"; "ws"; "repo"]);
    try reflexivity; try discriminate.
  intros x Hx.
  assert (E : x = JStr "https://example.com/repo.zip#src/index.ts").
  { unfold message, Sample.request in Hx.
    repeat match goal with
           | H : topUri (JObj _) _ |- _ =>
               inversion H; clear H; subst; simpl in *
           | H : topUri (JStr _) _ |- _ => inversion H
           | H : topUri (JNum _) _ |- _ => inversion H
           | H : _ \/ _ |- _ => destruct H
           | H : (_, _) = (_, _) |- _ => injection H as <- <-
           | H : False |- _ => destruct H
           | H : None = Some _ |- _ => discriminate H
           | H : Some _ = Some _ |- _ => injection H as <-
           | H : ?k <> ?k |- _ => now destruct H
           end; reflexivity. }
  subst x. exists ["src"; "index.ts"]. repeat split; reflexivity.
Defined.

End AddressFacts.

(** ** The handshake, step by step *)

Module HandshakeFacts.
Import Json Url Proxy Observe Rewriting Sessions.
Import TraceFacts MonadFacts SessionFacts RewritingFacts.

#[local] Opaque Path.join String.append Str.replaceAll href url_hostname
  pathToFileURL.

Lemma bind_inv {A B} (c : M A) (k : A -> M B) s r s' t :
  bind c k s = (Ok r, s', t) ->
  exists a s1 t1 t2,
    c s = (Ok a, s1, t1) /\ k a s1 = (Ok r, s', t2) /\ t = t1 ++ t2.
Proof.
  unfold bind. destruct (c s) as [[[a|e] s1] t1]; [|discriminate].
  destruct (k a s1) as [[r' s2] t2] eqn:E. intros [= -> -> <-].
  now exists a, s1, t1, t2.
Qed.

(** What a successful [fetchWorkspace] has done to the session. *)
Lemma fetchWorkspace_ok env span zip s ws s' t :
  fetchWorkspace env span zip s = (Ok ws, s', t) ->
  let dir := Path.join [CACHE_DIR env; tempName zip (uuid_v1 env (uuidsMade s))] in
  (exists manifests,
      ws = (Path.join [dir; "repo"], Path.join [dir; "cache"],
            Path.join [dir; "global"], manifests))
  /\ zipRootUri s' = zipRootUri s /\ fileRootUri s' = fileRootUri s
  /\ tempDir s' = Some dir
  /\ extractPath s' = Some (Path.join [dir; "repo"])
  /\ cacheFolderRoot s' = Some (Path.join [dir; "cache"])
  /\ globalFolderRoot s' = Some (Path.join [dir; "global"])
  /\ connectionCleanupFns s' = connectionCleanupFns s ++ [DeleteTempDir]
  /\ requestSpans s' = requestSpans s
  /\ uuidsMade s' = S (uuidsMade s).
Proof.
  intros H dir. revert H. unfold fetchWorkspace.
  unfold bind at 1. unfold get at 1. cbv beta iota zeta.
  change (Str.replaceAll "/" "_" (url_hostname zip +:+ pathname zip)
          +:+ "_" +:+ uuid_v1 env (uuidsMade s))
    with (tempName zip (uuid_v1 env (uuidsMade s))).
  fold dir.
  unfold tracePromise, call, logger_log, setTag, startSpan, newSpan.
  destruct (mkdirp env dir) as [e1|];
    [cbv [promiseAll tryFinally tryCatch bind modify emit ret throw app fst snd];
     discriminate|].
  destruct (mkdir env (Path.join [dir; "repo"])) as [e2|],
           (mkdir env (Path.join [dir; "cache"])) as [e3|],
           (mkdir env (Path.join [dir; "global"])) as [e4|];
    try (cbv [promiseAll tryFinally tryCatch bind modify emit ret throw app fst snd];
         discriminate).
  destruct (fetch env (href zip) (Path.join [dir; "archive.zip"])) as [e5|bytes];
    [cbv [promiseAll tryFinally tryCatch bind modify emit ret throw app fst snd];
     discriminate|].
  destruct (decompress env (Path.join [dir; "archive.zip"]) (Path.join [dir; "repo"]))
    as [e6|];
    [cbv [promiseAll tryFinally tryCatch bind modify emit ret throw app fst snd];
     discriminate|].
  destruct (glob env (Path.join [dir; "repo"])) as [e7|manifests];
    [cbv [promiseAll tryFinally tryCatch bind modify emit ret throw app fst snd];
     discriminate|].
  cbv [promiseAll tryFinally tryCatch bind modify emit ret throw app fst snd].
  intros [= <- <- <-]. split; [eauto|]. repeat split.
Qed.

(** Whatever happens next, [fetchWorkspace] begins by naming the
    temporary directory and asking for it to be made. *)
Lemma fetchWorkspace_start env span zip s :
  let dir := Path.join [CACHE_DIR env; tempName zip (uuid_v1 env (uuidsMade s))] in
  exists r s' t',
    fetchWorkspace env span zip s = (r, s', Mkdirp dir :: t')
    /\ tempDir s' = Some dir.
Proof.
  intros dir. unfold fetchWorkspace.
  unfold bind at 1. unfold get at 1. cbv beta iota zeta.
  change (Str.replaceAll "/" "_" (url_hostname zip +:+ pathname zip)
          +:+ "_" +:+ uuid_v1 env (uuidsMade s))
    with (tempName zip (uuid_v1 env (uuidsMade s))).
  fold dir.
  unfold tracePromise, call, logger_log, setTag, startSpan, newSpan.
  destruct (mkdirp env dir) as [e1|];
    [cbv [promiseAll tryFinally tryCatch bind modify emit ret throw app fst snd];
     do 3 eexists; split; reflexivity|].
  destruct (mkdir env (Path.join [dir; "repo"])) as [e2|],
           (mkdir env (Path.join [dir; "cache"])) as [e3|],
           (mkdir env (Path.join [dir; "global"])) as [e4|];
    try (cbv [promiseAll tryFinally tryCatch bind modify emit ret throw app fst snd];
         do 3 eexists; split; reflexivity).
  destruct (fetch env (href zip) (Path.join [dir; "archive.zip"])) as [e5|bytes];
    [cbv [promiseAll tryFinally tryCatch bind modify emit ret throw app fst snd];
     do 3 eexists; split; reflexivity|].
  destruct (decompress env (Path.join [dir; "archive.zip"]) (Path.join [dir; "repo"]))
    as [e6|];
    [cbv [promiseAll tryFinally tryCatch bind modify emit ret throw app fst snd];
     do 3 eexists; split; reflexivity|].
  destruct (glob env (Path.join [dir; "repo"])) as [e7|manifests];
    cbv [promiseAll tryFinally tryCatch bind modify emit ret throw app fst snd];
    do 3 eexists; split; reflexivity.
Qed.

Ltac variables_side :=
  intros;
  first [ exact I | discriminate
        | unfold sameVariables, sameRoots in *; simpl; intuition congruence ].

(** The installation changes no session variable but the cleanup list. *)
Lemma installPackage_variables env span ep gf cf rel :
  respects anyEvent sameVariables noError (installPackage env span ep gf cf rel).
Proof.
  unfold installPackage, logger_error, setTag.
  respects_auto variables_side.
Qed.

Lemma installDependencies_variables env span ep gf cf manifests :
  respects anyEvent sameVariables noError
    (installDependencies env span ep gf cf manifests).
Proof.
  unfold installDependencies.
  respects_auto variables_side.
  apply Forall_map, Forall_forall. intros rel _. apply installPackage_variables.
Qed.

(** What a successful interception has found and done. *)
Lemma materialize_ok env span message rootUri s m1 s' t :
  materialize env span message rootUri s = (Ok m1, s', t) ->
  exists zip,
    let dir := Path.join [CACHE_DIR env; tempName zip (uuid_v1 env (uuidsMade s))] in
    let extract := Path.join [dir; "repo"] in
    construct env rootUri = Ok zip
    /\ Str.endsWith ".zip" (pathname zip) = true
    /\ (protocol zip = "http:" \/ protocol zip = "https:")
    /\ m1 = rewriteParams message (pathToFileURL (cwd env) extract) extract
    /\ zipRootUri s' = Some zip
    /\ fileRootUri s' = Some (pathToFileURL (cwd env) extract)
    /\ tempDir s' = Some dir
    /\ extractPath s' = Some extract
    /\ cacheFolderRoot s' = Some (Path.join [dir; "cache"])
    /\ globalFolderRoot s' = Some (Path.join [dir; "global"])
    /\ requestSpans s' = requestSpans s
    /\ uuidsMade s' = S (uuidsMade s).
Proof.
  unfold materialize. intros H.
  apply bind_inv in H as (zip & s1 & t1 & t2 & Hc & H & ->).
  unfold lift in Hc. injection Hc as Hzip <- <-.
  apply bind_inv in H as ([] & s2 & t3 & t4 & Hm & H & ->).
  unfold modify in Hm. injection Hm as <- <-.
  apply bind_inv in H as ([] & s3 & t5 & t6 & Ht & H & ->).
  unfold setTag, emit in Ht. injection Ht as <- <-.
  destruct (Str.endsWith ".zip" (pathname zip)) eqn:Hext; [|discriminate].
  cbn [negb] in H.
  destruct (negb (protocol zip =? "http:")%string
            && negb (protocol zip =? "https:")%string) eqn:Hproto; [discriminate|].
  apply bind_inv in H as (ws & s4 & t7 & t8 & Hf & H & ->).
  apply fetchWorkspace_ok in Hf. cbv zeta in Hf. cbn [uuidsMade set_zipRootUri] in Hf.
  destruct Hf as ((manifests & ->) & F1 & F2 & F3 & F4 & F5 & F6 & F7 & F8 & F9).
  apply bind_inv in H as ([] & s5 & t9 & t10 & Hi & H & ->).
  match type of Hi with
  | installDependencies _ _ ?ep ?gf ?cf _ _ = _ =>
      destruct (installDependencies_variables env span ep gf cf manifests s4)
        as (_ & ((V1 & V2 & V3 & V4 & V5 & V6) & V7 & V8) & _)
  end.
  unfold finalState in *. rewrite Hi in *. cbn [fst snd] in *.
  apply bind_inv in H as ([] & s6 & t11 & t12 & Hm & H & ->).
  unfold modify in Hm. injection Hm as <- <-.
  unfold ret in H. injection H as <- <- <-.
  exists zip. cbv zeta. cbn [zipRootUri fileRootUri tempDir extractPath cacheFolderRoot
                               globalFolderRoot requestSpans uuidsMade set_fileRootUri].
  repeat split; try congruence.
  - apply andb_false_iff in Hproto as [Hp|Hp]; apply negb_false_iff in Hp;
      apply String.eqb_eq in Hp; auto.
  - rewrite V1, F1. reflexivity.
  - rewrite V7, F8. reflexivity.
Qed.

Lemma initialize_ok env span message s m1 s' t :
  initialize env span message s = (Ok m1, s', t) ->
  exists pfields rootUri,
    prop "params" message = Some (JObj pfields)
    /\ obj_get "rootUri" pfields = Some rootUri
    /\ truthy (Some rootUri) = true
    /\ tooManyFolders (obj_get "workspaceFolders" pfields) = false
    /\ materialize env span message rootUri s = (Ok m1, s', t).
Proof.
  unfold initialize. intros H.
  destruct (prop "params" message) as [[| b | n | str | l | pfields]|] eqn:Hp;
    try discriminate;
    cbn [paramsProp prop] in H; rewrite bind_lift_ok in H; try discriminate.
  destruct (obj_get "rootUri" pfields) as [rootUri|] eqn:Hr; [|discriminate].
  destruct (truthy (Some rootUri)) eqn:Ht; [|discriminate].
  cbn [negb] in H. rewrite bind_lift_ok in H.
  destruct (tooManyFolders (obj_get "workspaceFolders" pfields)) eqn:Hf;
    [discriminate|].
  now exists pfields, rootUri.
Qed.

(** The second stage of the handler writes the message to the language
    server as its last step, and writes to neither peer before. *)
Lemma forwardToServer_run env span message s :
  match forwardToServer env span message s with
  | (Ok _, s2, t2) =>
      exists q m0 m',
        t2 = q ++ [ToLanguageServer m'] /\ Forall quiet q
        /\ rewriteUris env (transformZipToFileUri env s2) m0 = Ok m'
        /\ (if isRequestMessage message && (methodOf message =? "initialize")%string
            then initialize env span message s = (Ok m0, s2, q)
            else m0 = message /\ s2 = s)
  | (Throw e, s2, t2) => Forall quiet t2
  end.
Proof.
  unfold forwardToServer.
  set (first := if isRequestMessage message && (methodOf message =? "initialize")%string
                then initialize env span message else ret message).
  assert (Hfirst : respects quiet (same requestSpans) anyError first).
  { unfold first. destruct (_ && _); [apply initialize_respects|].
    apply respects_ret. intros ?. reflexivity. }
  rewrite run_bind. destruct (Hfirst s) as (Hq & _ & _).
  unfold events in Hq.
  destruct (first s) as [[[m0|e] s1] t1] eqn:E1; simpl in *; [|exact Hq].
  unfold bind, get, lift, emit. simpl.
  destruct (rewriteUris env (transformZipToFileUri env s1) m0) as [m'|e] eqn:E2; simpl.
  - exists t1, m0, m'. repeat split; try assumption.
    unfold first in E1. destruct (_ && _); [exact E1|].
    unfold ret in E1. now injection E1 as <- <- <-.
  - now rewrite app_nil_r.
Qed.

(** *** Failures of the handshake *)

Ltac rejected_side :=
  intros;
  first [ exact I | discriminate | eexists; reflexivity
        | match goal with H : noError _ |- _ => destruct H end ].

Lemma fetchWorkspace_rejects env span zip :
  respects anyEvent (fun _ _ => True) isRejected (fetchWorkspace env span zip).
Proof.
  unfold fetchWorkspace, logger_log, setTag.
  respects_auto rejected_side.
Qed.

Lemma installDependencies_quietly env span ep gf cf manifests :
  respects anyEvent (fun _ _ => True) isRejected
    (installDependencies env span ep gf cf manifests).
Proof.
  eapply respects_mono; [| | |apply installDependencies_variables]; auto.
  intros e [].
Qed.

(** A refusal by the checks on the root address: the address has become
    the session's archive root all the same, and only the [rootUri] tag
    has been written. *)
Lemma materialize_refused env span message rootUri zip s :
  construct env rootUri = Ok zip ->
  Str.endsWith ".zip" (pathname zip) = false
  \/ (protocol zip <> "http:" /\ protocol zip <> "https:") ->
  materialize env span message rootUri s
  = (Throw (Error (if Str.endsWith ".zip" (pathname zip)
                   then "Protocol must be http or https"
                   else "rootUri must end with .zip")),
     set_zipRootUri zip s, [SpanTag span "rootUri" (JStr (href zip))]).
Proof.
  intros Hzip Hbad. unfold materialize. rewrite Hzip, bind_lift_ok.
  unfold setTag. unfold bind at 1, modify at 1. unfold bind at 1, emit at 1.
  destruct (Str.endsWith ".zip" (pathname zip)) eqn:Hext; [|reflexivity].
  destruct Hbad as [Hbad | [H1 H2]]; [discriminate|].
  apply String.eqb_neq in H1, H2. rewrite H1, H2. reflexivity.
Qed.

(** Whatever makes [materialize] throw before the temporary directory is
    made is not a rejection by a collaborator, and conversely. *)
Lemma materialize_fails env span message rootUri s e s' t :
  materialize env span message rootUri s = (Throw e, s', t) ->
  ~ isRejected e ->
  calls t = []
  /\ (s' = s \/ exists zip, construct env rootUri = Ok zip /\ s' = set_zipRootUri zip s).
Proof.
  intros H Hnot.
  destruct (construct env rootUri) as [zip|e0] eqn:Hzip.
  - destruct (Str.endsWith ".zip" (pathname zip)) eqn:Hext;
      [destruct (negb (protocol zip =? "http:")%string
                 && negb (protocol zip =? "https:")%string) eqn:Hproto|].
    + rewrite (materialize_refused env span message rootUri zip s Hzip) in H.
      * injection H as <- <- <-. split; [reflexivity | eauto].
      * right. apply andb_true_iff in Hproto as [H1 H2].
        apply negb_true_iff in H1, H2. now apply String.eqb_neq in H1, H2.
    + exfalso. revert H. unfold materialize. rewrite Hzip, bind_lift_ok.
      unfold setTag. unfold bind at 1, modify at 1. unfold bind at 1, emit at 1.
      rewrite Hext, Hproto. cbn [negb].
      match goal with
      | |- context [bind (fetchWorkspace env span zip) ?K] =>
          assert (Hrest : respects anyEvent (fun _ _ => True) isRejected
                            (bind (fetchWorkspace env span zip) K))
      end.
      { respects_auto rejected_side.
        - apply fetchWorkspace_rejects.
        - apply installDependencies_quietly. }
      match goal with
      | |- context [bind (fetchWorkspace env span zip) ?K ?s0] =>
          destruct (Hrest s0) as (_ & _ & Hthrow); unfold outcome in Hthrow;
          destruct (bind (fetchWorkspace env span zip) K s0) as [[[m|e1] s2] t2]
      end; [discriminate|].
      intros [= -> _ _]. apply Hnot. now apply Hthrow.
    + rewrite (materialize_refused env span message rootUri zip s Hzip) in H
        by now left.
      injection H as <- <- <-. split; [reflexivity | eauto].
  - revert H. unfold materialize. rewrite Hzip. unfold bind, lift.
    intros [= <- <- <-]. split; [reflexivity | now left].
Qed.

Lemma initialize_fails env span message s e s' t :
  initialize env span message s = (Throw e, s', t) ->
  ~ isRejected e ->
  calls t = []
  /\ (s' = s \/ exists zip, s' = set_zipRootUri zip s).
Proof.
  unfold initialize. intros H Hnot.
  assert (Hdone : forall e0,
             @throw json e0 s = (Throw e, s', t) ->
             calls t = [] /\ (s' = s \/ exists zip, s' = set_zipRootUri zip s)).
  { intros e0. unfold throw. intros [= <- <- <-]. split; [reflexivity | now left]. }
  assert (Hlift : forall B e0 (k : option json -> M B),
             bind (lift (Throw e0)) k s = (Throw e0, s, [])) by reflexivity.
  destruct (prop "params" message) as [[| b | n | str | l | pfields]|] eqn:Hp;
    cbn [paramsProp prop] in H;
    try (rewrite Hlift in H; injection H as <- <- <-;
         split; [reflexivity | now left]);
    rewrite bind_lift_ok in H; try (now apply (Hdone _ H)).
  destruct (obj_get "rootUri" pfields) as [rootUri|] eqn:Hr; [|now apply (Hdone _ H)].
  destruct (truthy (Some rootUri)) eqn:Ht; [|now apply (Hdone _ H)].
  cbn [negb] in H. rewrite bind_lift_ok in H.
  destruct (tooManyFolders (obj_get "workspaceFolders" pfields)) eqn:Hf;
    [now apply (Hdone _ H)|].
  destruct (materialize_fails _ _ _ _ _ _ _ _ H Hnot) as (Hc & [-> | (zip & _ & ->)]);
    split; eauto.
Qed.

(** *** Objects *)

Lemma obj_get_set k v fs : obj_get k (obj_set k v fs) = Some v.
Proof.
  induction fs as [|[k' v'] fs IH]; simpl.
  - now rewrite String.eqb_refl.
  - destruct (String.eqb_spec k' k) as [->|Hne]; simpl.
    + now rewrite String.eqb_refl.
    + destruct (String.eqb_spec k' k); [contradiction | exact IH].
Qed.

Lemma obj_get_set_other k k' v fs :
  k <> k' -> obj_get k (obj_set k' v fs) = obj_get k fs.
Proof.
  intros Hne. induction fs as [|[k0 v0] fs IH]; simpl.
  - destruct (String.eqb_spec k' k); [congruence | reflexivity].
  - destruct (String.eqb_spec k0 k') as [->|Hne0]; simpl.
    + destruct (String.eqb_spec k' k); [congruence | reflexivity].
    + destruct (String.eqb_spec k0 k); [reflexivity | exact IH].
Qed.

Lemma rewriteParams_prop message f p k :
  k <> "params" -> prop k (rewriteParams message f p) = prop k message.
Proof.
  intros Hk. unfold rewriteParams.
  destruct message as [| | | | |mfields]; try reflexivity.
  destruct (obj_get "params" mfields) as [[| | | | |pfields]|]; try reflexivity.
  cbn [prop]. now apply obj_get_set_other.
Qed.

Lemma rewriteParams_params message pfields f p :
  prop "params" message = Some (JObj pfields) ->
  exists pfields',
    prop "params" (rewriteParams message f p) = Some (JObj pfields')
    /\ obj_get "rootUri" pfields' = Some (JStr (href f))
    /\ obj_get "rootPath" pfields' = Some (JStr p)
    /\ obj_get "workspaceFolders" pfields'
       = Some (JArr [JObj [("name", JStr ""); ("uri", JStr (href f))]]).
Proof.
  intros Hp. unfold rewriteParams.
  destruct message as [| | | | |mfields]; try discriminate.
  cbn [prop] in Hp. rewrite Hp. cbn [prop]. rewrite obj_get_set.
  eexists. split; [reflexivity|].
  rewrite obj_get_set.
  rewrite !obj_get_set_other by discriminate.
  rewrite obj_get_set, obj_get_set_other, obj_get_set by discriminate.
  auto.
Qed.

Lemma at_path_keys a b v :
  at_path [Key a; Key b] v
  = match prop a v with Some x => prop b x | None => None end.
Proof.
  destruct v as [| | | | |fs]; try reflexivity. simpl.
  destruct (obj_get a fs) as [[| | | | |gs]|]; try reflexivity.
  simpl. now destruct (obj_get b gs).
Qed.

Lemma beginSpan_uuids message :
  respects quiet (same uuidsMade) noError (beginSpan message).
Proof.
  unfold beginSpan, setTag.
  respects_auto same_side.
Qed.

(** *** The properties *)

(** X6.  The listener never throws, and every message of the client
    meets exactly one of two fates.  Either it is written to the language
    server, once, with the identifier and the method it came with, and
    nothing is sent to the client; or nothing is written to the language
    server, the failure is written to the logger, and the client gets the
    error response when the message is a request and nothing when it is
    not. *)
Theorem client_message_fate env st message :
  let run := onClientMessage env message in
  outcome run st = Ok tt
  /\ ((exists m',
          toServer (events run st) = [m'] /\ toClient (events run st) = []
          /\ idOf (prop "id" m') = idOf (prop "id" message)
          /\ methodOf m' = methodOf message)
      \/ (exists e,
             toServer (events run st) = []
             /\ toClient (events run st)
                = (if isRequestMessage message then [errResponse env message e]
                   else [])
             /\ In (LoggerError [LStr ("Error handling message" +:+ nl); LStr nl; LErr e])
                   (events run st))).
Proof.
  intros run. unfold run, outcome, events.
  destruct (onClientMessage_run env message st) as (span & s1 & t1 & E & Hq1 & _ & ->).
  destruct (quiet_trace t1 Hq1) as (S1 & C1 & _).
  pose proof (forwardToServer_run env span message s1) as Hrun.
  destruct (forwardToServer env span message s1) as [[[[]|e] s2] t2]; simpl.
  - split; [reflexivity|]. left.
    destruct Hrun as (q & m0 & m' & -> & Hq & Hrw & Hfirst).
    destruct (quiet_trace q Hq) as (S2 & C2 & _).
    exists m'. unfold toServer, toClient in *.
    rewrite !collect_app, S1, S2, C1, C2. simpl.
    split; [reflexivity|]. split; [reflexivity|].
    apply rewriteUris_mapUris in Hrw. subst m'.
    destruct (mapUris_kind (force env (transformZipToFileUri env s2)) m0)
      as (_ & _ & _ & Hmethod & Hid).
    rewrite Hmethod, Hid.
    destruct (isRequestMessage message && (methodOf message =? "initialize")%string).
    + apply initialize_ok in Hfirst as (pf & r & _ & _ & _ & _ & Hm).
      apply materialize_ok in Hm as (zip & _ & _ & _ & -> & _).
      unfold methodOf. now rewrite !rewriteParams_prop by discriminate.
    + now destruct Hfirst as [-> _].
  - split; [reflexivity|]. right. exists e.
    destruct (quiet_trace t2 Hrun) as (S2 & C2 & _).
    unfold toServer, toClient, errorEvents in *.
    rewrite !collect_app, S1, S2, C1, C2. simpl.
    split; [now destruct (isRequestMessage message)|].
    split; [now destruct (isRequestMessage message)|].
    apply in_or_app. right. apply in_or_app. right. simpl. auto.
Qed.

(** X7.  The checks of the handshake come before its effects.  When the
    interception of [initialize] fails with anything but a rejection by a
    collaborator (no parameters, no root address, several workspace
    folders, an address the [URL] constructor refuses, a path not ending
    in [.zip], a scheme other than http and https), no collaborator has
    been called: no directory made, nothing downloaded, no process
    started.  The session is as before, except that a root address the
    constructor accepted has become the archive root. *)
Theorem handshake_checks_first env span message st e :
  outcome (initialize env span message) st = Throw e ->
  ~ isRejected e ->
  calls (events (initialize env span message) st) = []
  /\ (finalState (initialize env span message) st = st
      \/ exists zip, finalState (initialize env span message) st = set_zipRootUri zip st).
Proof.
  unfold outcome, events, finalState. intros H Hnot.
  destruct (initialize env span message st) as [[r s'] t] eqn:E.
  simpl in *. subst r. exact (initialize_fails _ _ _ _ _ _ _ E Hnot).
Qed.

Lemma handshake_checks_first_witness :
  let env := Sample.env [] in
  let message :=
    Sample.initializeRequest 1 [("rootUri", JStr "https://example.com/repo.tar")] in
  outcome (initialize env 0 message) initialState
  = Throw (Error "rootUri must end with .zip")
  /\ calls (events (initialize env 0 message) initialState) = [].
Proof.
  intros env message. split; [reflexivity|].
  refine (proj1 (handshake_checks_first env 0 message initialState
                   (Error "rootUri must end with .zip") eq_refl _)).
  intros [io Hio]. discriminate Hio.
Defined.

(** X8.  A root address is stored before it is checked: an [initialize]
    request whose root address the [URL] constructor accepts, but whose
    path does not end in [.zip] or whose scheme is neither http nor
    https, is answered with the error response and is not forwarded, and
    yet its address has replaced the session's archive root, the
    filesystem root staying as it was. *)
Theorem refused_root_is_kept env st message pfields rootUri zip :
  isRequestMessage message = true -> methodOf message = "initialize" ->
  prop "params" message = Some (JObj pfields) ->
  obj_get "rootUri" pfields = Some rootUri ->
  truthy (Some rootUri) = true ->
  tooManyFolders (obj_get "workspaceFolders" pfields) = false ->
  newURL env rootUri = Some zip ->
  Str.endsWith ".zip" (pathname zip) = false
  \/ (protocol zip <> "http:" /\ protocol zip <> "https:") ->
  let run := onClientMessage env message in
  zipRootUri (finalState run st) = Some zip
  /\ fileRootUri (finalState run st) = fileRootUri st
  /\ toServer (events run st) = []
  /\ toClient (events run st)
     = [errResponse env message
          (Error (if Str.endsWith ".zip" (pathname zip)
                  then "Protocol must be http or https"
                  else "rootUri must end with .zip"))].
Proof.
  intros Hreq Hm Hp Hr Ht Hf Hzip Hbad run. unfold run, finalState, events.
  destruct (onClientMessage_run env message st) as (span & s1 & t1 & E & Hq1 & Hroot & ->).
  destruct (quiet_trace t1 Hq1) as (S1 & C1 & _).
  assert (Hinit : initialize env span message s1
                  = (Throw (Error (if Str.endsWith ".zip" (pathname zip)
                                   then "Protocol must be http or https"
                                   else "rootUri must end with .zip")),
                     set_zipRootUri zip s1,
                     [SpanTag span "rootUri" (JStr (href zip))])).
  { unfold initialize. rewrite Hp. cbn [paramsProp prop].
    rewrite bind_lift_ok, Hr, Ht. cbn [negb]. rewrite bind_lift_ok, Hf.
    apply materialize_refused; [|exact Hbad].
    unfold construct. now rewrite Hzip. }
  unfold forwardToServer. rewrite Hreq, Hm. cbn [andb String.eqb Ascii.eqb Bool.eqb].
  rewrite run_bind, Hinit. cbn [fst snd zipRootUri fileRootUri set_zipRootUri].
  unfold toServer, toClient, errorEvents in *.
  rewrite !collect_app, S1, C1, Hreq. simpl. auto.
Qed.

Lemma refused_root_is_kept_witness :
  let env := Sample.env [] in
  let message :=
    Sample.initializeRequest 9 [("rootUri", JStr "file://example.com/other.zip")] in
  let run := onClientMessage env message in
  zipRootUri Sample.active = Some Sample.zipRoot
  /\ (exists zip, zipRootUri (finalState run Sample.active) = Some zip
                  /\ href zip = "file://example.com/other.zip")
  /\ fileRootUri (finalState run Sample.active) = fileRootUri Sample.active
  /\ toServer (events run Sample.active) = [].
Proof.
  intros env message run. split; [reflexivity|].
  destruct (refused_root_is_kept env Sample.active message
              [("rootUri", JStr "file://example.com/other.zip")]
              (JStr "file://example.com/other.zip")
              {| protocol := "file:";
                 host := Some {| userinfo := ""; hostname := "example.com"; port := "" |};
                 opaque := false; pathname := "/other.zip"; query := None;
                 fragment := None |}
              eq_refl eq_refl eq_refl eq_refl eq_refl eq_refl eq_refl)
    as (H1 & H2 & H3 & _).
  - right. split; discriminate.
  - split; [eexists; split; [exact H1 | reflexivity]|]. split; assumption.
Defined.

(** X9.  When an [initialize] request is forwarded, the handshake has
    succeeded and the session names one checkout: the archive root is the
    address of the request, the temporary directory is the child of the
    cache directory named after the address and a fresh identifier, the
    extraction root is its [repo] folder, and the filesystem root is the
    file address of that folder.  The request written to the language
    server names the checkout and not the archive: its [rootUri] is the
    filesystem root, its [rootPath] the extraction root, and it lists
    exactly one workspace folder. *)
Theorem handshake_postcondition env st message m' :
  isRequestMessage message = true -> methodOf message = "initialize" ->
  toServer (events (onClientMessage env message) st) = [m'] ->
  let st' := finalState (onClientMessage env message) st in
  exists rootUri zip,
    let dir := Path.join [CACHE_DIR env; tempName zip (uuid_v1 env (uuidsMade st))] in
    let extract := Path.join [dir; "repo"] in
    let fileRoot := pathToFileURL (cwd env) extract in
    at_path [Key "params"; Key "rootUri"] message = Some rootUri
    /\ newURL env rootUri = Some zip
    /\ zipRootUri st' = Some zip
    /\ tempDir st' = Some dir
    /\ extractPath st' = Some extract
    /\ fileRootUri st' = Some fileRoot
    /\ uuidsMade st' = S (uuidsMade st)
    /\ at_path [Key "params"; Key "rootUri"] m' = Some (JStr (href fileRoot))
    /\ at_path [Key "params"; Key "rootPath"] m' = Some (JStr extract)
    /\ exists folder,
         at_path [Key "params"; Key "workspaceFolders"] m' = Some (JArr [folder]).
Proof.
  intros Hreq Hm Hsent st'. unfold st', finalState. revert Hsent. unfold events.
  destruct (onClientMessage_run env message st) as (span & s1 & t1 & E & Hq1 & _ & ->).
  destruct (quiet_trace t1 Hq1) as (S1 & _ & _).
  destruct (beginSpan_uuids message st) as (_ & Huuid & _).
  unfold finalState, same in Huuid. rewrite E in Huuid. cbn [fst snd] in Huuid.
  pose proof (forwardToServer_run env span message s1) as Hrun.
  destruct (forwardToServer env span message s1) as [[[[]|e] s2] t2]; cbn [fst snd].
  - destruct Hrun as (q & m0 & m1 & -> & Hq & Hrw & Hfirst).
    destruct (quiet_trace q Hq) as (S2 & _ & _).
    unfold toServer in *. rewrite !collect_app, S1, S2. cbn [collect app].
    intros [= ->].
    rewrite Hreq, Hm in Hfirst. cbn [andb String.eqb Ascii.eqb Bool.eqb] in Hfirst.
    apply initialize_ok in Hfirst as (pfields & rootUri & Hp & Hr & _ & _ & Hmat).
    apply materialize_ok in Hmat
      as (zip & Hzip & _ & _ & Hm0 & Z1 & Z2 & Z3 & Z4 & _ & _ & _ & Z8).
    exists rootUri, zip. cbv zeta. rewrite Huuid in *.
    unfold construct in Hzip.
    destruct (newURL env rootUri) as [zip'|] eqn:Hnew; [|discriminate].
    injection Hzip as ->.
    apply rewriteUris_mapUris in Hrw.
    destruct (rewriteParams_params message pfields
                (pathToFileURL (cwd env)
                   (Path.join [Path.join [CACHE_DIR env;
                                          tempName zip (uuid_v1 env (uuidsMade st))];
                               "repo"]))
                (Path.join [Path.join [CACHE_DIR env;
                                        tempName zip (uuid_v1 env (uuidsMade st))];
                            "repo"]) Hp)
      as (pfields' & P0 & P1 & P2 & P3).
    rewrite <- Hm0 in P0.
    assert (Hat : forall k, k <> "uri" ->
               at_path [Key "params"; Key k] m'
               = option_map (mapUris (force env (transformZipToFileUri env s2)))
                   (obj_get k pfields')).
    { intros k Hk. rewrite at_path_keys, Hrw.
      rewrite mapUris_prop by discriminate. rewrite P0. cbn [option_map].
      rewrite mapUris_prop by exact Hk. reflexivity. }
    repeat split; try assumption.
    + now rewrite at_path_keys, Hp.
    + rewrite Hat by discriminate. now rewrite P1.
    + rewrite Hat by discriminate. now rewrite P2.
    + rewrite Hat by discriminate. rewrite P3. cbn [option_map mapUris List.map].
      eexists. reflexivity.
  - destruct (quiet_trace t2 Hrun) as (S2 & _ & _).
    unfold toServer, errorEvents in *. rewrite !collect_app, S1, S2.
    simpl. now destruct (isRequestMessage message).
Qed.

Lemma handshake_postcondition_witness :
  let env := Sample.env [] in
  let message :=
    Sample.initializeRequest 1 [("rootUri", JStr "https://example.com/repo.zip")] in
  let m' :=
    Sample.initializeRequest 1
      [("rootUri", JStr "file:///tmp/example.com_repo.zip_uuid0/repo");
       ("rootPath", JStr "/tmp/example.com_repo.zip_uuid0/repo");
       ("workspaceFolders",
        JArr [JObj [("name", JStr "");
                    ("uri", JStr "file:///tmp/example.com_repo.zip_uuid0/repo")]])] in
  let st' := finalState (onClientMessage env message) initialState in
  toServer (events (onClientMessage env message) initialState) = [m']
  /\ tempDir st' = Some "/tmp/example.com_repo.zip_uuid0"
  /\ exists rootUri zip,
       let dir := Path.join [CACHE_DIR env;
                             tempName zip (uuid_v1 env (uuidsMade initialState))] in
       let extract := Path.join [dir; "repo"] in
       let fileRoot := pathToFileURL (cwd env) extract in
       at_path [Key "params"; Key "rootUri"] message = Some rootUri
       /\ newURL env rootUri = Some zip
       /\ zipRootUri st' = Some zip
       /\ tempDir st' = Some dir
       /\ extractPath st' = Some extract
       /\ fileRootUri st' = Some fileRoot
       /\ uuidsMade st' = S (uuidsMade initialState)
       /\ at_path [Key "params"; Key "rootUri"] m' = Some (JStr (href fileRoot))
       /\ at_path [Key "params"; Key "rootPath"] m' = Some (JStr extract)
       /\ exists folder,
            at_path [Key "params"; Key "workspaceFolders"] m' = Some (JArr [folder]).
Proof.
  intros env message m' st'. split; [reflexivity|]. split; [reflexivity|].
  exact (handshake_postcondition env initialState message m' eq_refl eq_refl eq_refl).
Defined.

End HandshakeFacts.

(** ** The folders of a session *)

(** How the installation names the folders it gives to yarn. *)
Module InstallRuns.
Import Json Url Proxy Observe Sessions TraceFacts MonadFacts.

#[local] Opaque Path.join Path.dirname String.append.

Section Install.
Variable env : Env.
Variables ep gf cf : string.

(** The three folders of the installation for one manifest. *)
Let foldersOf (rel : string) : string * string * string :=
  (Path.join [ep; Path.dirname rel], Path.join [gf; Path.dirname rel],
   Path.join [cf; Path.dirname rel]).

Lemma installPackage_starts span rel st :
  exists st' t,
    installPackage env span ep gf cf rel st = (Ok tt, st', t)
    /\ yarnStarts t = (if prepared env ep gf cf rel then [foldersOf rel] else []).
Proof.
  unfold foldersOf, prepared, manifestPath, globalFolder, cacheFolder,
    installPackage, tracePromise, call.
  destruct (filterDependencies env (Path.join [ep; rel])) as [e1|];
    [|destruct (mkdirp env (Path.join [Path.join [gf; Path.dirname rel]])) as [e2|],
               (mkdirp env (Path.join [Path.join [cf; Path.dirname rel]])) as [e3|];
      [| | |destruct (yarnInstall env (Path.join [ep; Path.dirname rel])) as [e4|]]];
    cbv -[Path.join Path.dirname String.append];
    do 2 eexists; repeat split.
Qed.

Lemma promiseAll_starts span manifests st :
  exists results st' t,
    promiseAll (List.map (installPackage env span ep gf cf) manifests) st
    = (Ok results, st', t)
    /\ yarnStarts t
       = List.map foldersOf (List.filter (prepared env ep gf cf) manifests).
Proof.
  revert st. induction manifests as [|rel manifests IH]; intros st.
  - exists [], st, []. repeat split.
  - cbn [List.map]. rewrite run_promiseAll.
    destruct (installPackage_starts span rel st) as (s1 & t1 & -> & Y1).
    destruct (IH s1) as (rs & s2 & t2 & -> & Y2).
    exists (tt :: rs), s2, (t1 ++ t2).
    unfold yarnStarts in *.
    rewrite !collect_app, Y1, Y2. cbn [List.filter].
    split; [reflexivity|].
    now destruct (prepared env ep gf cf rel).
Qed.

Lemma installDependencies_starts span manifests st :
  yarnStarts (events (installDependencies env span ep gf cf manifests) st)
  = List.map foldersOf (List.filter (prepared env ep gf cf) manifests).
Proof.
  unfold events, installDependencies, tracePromise, startSpan, newSpan, setTag.
  unfold tryFinally. rewrite run_bind. simpl.
  rewrite run_tryCatch, run_bind.
  destruct (promiseAll_starts (spansMade st) manifests (bump_spans st))
    as (rs & s1 & t & E & Y).
  rewrite E. simpl.
  unfold yarnStarts in *.
  cbn [collect]. rewrite !collect_app, Y. cbn [collect].
  now rewrite !app_nil_r.
Qed.

End Install.

End InstallRuns.

Module FolderFacts.
Import Json Url Proxy Observe Sessions StrFacts PathFacts TraceFacts MonadFacts.
Import HandshakeFacts InstallRuns.

#[local] Arguments String.append : simpl nomatch.

(** *** Paths made of file names *)

Lemma fileName_facts s :
  fileName s = true ->
  noSlash s = true /\ (s =? "")%string = false /\ (s =? ".")%string = false
  /\ (s =? "..")%string = false.
Proof.
  unfold fileName. intros H.
  apply andb_true_iff in H as [H H4]. apply andb_true_iff in H as [H H3].
  apply andb_true_iff in H as [H1 H2].
  now rewrite negb_true_iff in H2, H3, H4.
Qed.

Lemma fileNames_Forall l :
  fileNames l = true <-> Forall (fun s => fileName s = true) l.
Proof.
  unfold fileNames. rewrite forallb_forall, Forall_forall.
  split; intros H x Hx; apply H; now apply list_elem_of_In.
Qed.

Lemma fileNames_app a b : fileNames (a ++ b) = fileNames a && fileNames b.
Proof. unfold fileNames. apply List.forallb_app. Qed.

Lemma noSlash_flip s :
  noSlash s = true -> Str.forallb (fun a => negb (Ascii.eqb "/" a)) s = true.
Proof.
  apply forallb_weaken. intros c Hc. now rewrite Ascii.eqb_sym.
Qed.

Lemma names_noslash l :
  fileNames l = true ->
  Forall (fun s => Str.forallb (fun a => negb (Ascii.eqb "/" a)) s = true) l.
Proof.
  intros H. apply fileNames_Forall in H.
  eapply Forall_impl; [exact H|]. simpl. intros s Hs.
  apply noSlash_flip. now apply fileName_facts in Hs.
Qed.

Lemma split_names l :
  l <> [] -> fileNames l = true -> Str.split "/" (Str.join "/" l) = l.
Proof.
  intros Hne H. unfold Str.split.
  apply splitBy_join; [reflexivity | exact Hne | now apply names_noslash].
Qed.

Lemma split_absolute_names l :
  l <> [] -> fileNames l = true -> Str.split "/" (absolutePath l) = "" :: l.
Proof.
  intros Hne H. unfold absolutePath, Str.split. simpl. f_equal.
  now apply split_names.
Qed.

Lemma absolutePath_inj l l' :
  l <> [] -> l' <> [] -> fileNames l = true -> fileNames l' = true ->
  absolutePath l = absolutePath l' -> l = l'.
Proof.
  intros Hl Hl' H H' E. apply (f_equal (Str.split "/")) in E.
  rewrite !split_absolute_names in E by assumption. congruence.
Qed.

Lemma normalizeSegments_names a res l tail :
  fileNames l = true ->
  Path.normalizeSegments a res (l ++ tail)
  = Path.normalizeSegments a (List.rev l ++ res) tail.
Proof.
  revert res. induction l as [|s l IH]; intros res H; [reflexivity|].
  simpl in H. apply andb_true_iff in H as [Hs Hl].
  destruct (fileName_facts s Hs) as (_ & H1 & H2 & H3).
  simpl. rewrite H1, H2, H3. simpl. rewrite (IH _ Hl).
  now rewrite <- app_assoc.
Qed.

Lemma noSlash_last s :
  noSlash s = true -> s <> "" -> Str.endsWith "/" s = false.
Proof.
  intros H Hne. destruct (string_snoc s Hne) as (t & c & ->).
  rewrite endsWith_slash_snoc.
  unfold noSlash in H. rewrite forallb_app in H.
  apply andb_true_iff in H as [_ H]. simpl in H.
  apply andb_true_iff in H as [H _]. now apply negb_true_iff in H.
Qed.

Lemma last_name l :
  l <> [] -> fileNames l = true -> fileName (List.last l "") = true.
Proof.
  intros Hne H. apply fileNames_Forall in H. rewrite Forall_forall in H.
  apply H. apply list_elem_of_In.
  destruct l as [|s l]; [congruence|].
  apply (@exists_last _ (s :: l)) in Hne as (l' & a & E).
  rewrite E, last_last. apply in_or_app. right. now left.
Qed.

Lemma endsWith_names pre l :
  l <> [] -> fileNames l = true ->
  Str.endsWith "/" (pre +:+ Str.join "/" l) = false.
Proof.
  intros Hne H.
  destruct (join_last "/" l Hne) as (p & E). rewrite E.
  destruct (fileName_facts _ (last_name l Hne H)) as (Hns & Hnonempty & _).
  destruct (string_snoc (List.last l "")) as (t & c & Et).
  { intros Hx. rewrite Hx in Hnonempty. discriminate. }
  rewrite Et, <- !append_assoc, endsWith_slash_snoc.
  rewrite Et in Hns. unfold noSlash in Hns. rewrite forallb_app in Hns.
  apply andb_true_iff in Hns as [_ Hc]. simpl in Hc.
  apply andb_true_iff in Hc as [Hc _]. now apply negb_true_iff in Hc.
Qed.

Lemma names_nonempty l :
  l <> [] -> fileNames l = true -> Str.isEmpty (Str.join "/" l) = false.
Proof.
  intros Hne H. destruct l as [|s l]; [congruence|].
  simpl in H. apply andb_true_iff in H as [Hs _].
  destruct (fileName_facts s Hs) as (_ & H1 & _).
  destruct s; [discriminate|]. now destruct l.
Qed.

Lemma normalizeString_names l :
  l <> [] -> fileNames l = true ->
  Path.normalizeString (absolutePath l) false = Str.join "/" l.
Proof.
  intros Hne H. unfold Path.normalizeString.
  rewrite split_absolute_names by assumption. simpl.
  rewrite <- (app_nil_r l) at 1.
  rewrite normalizeSegments_names by assumption. simpl.
  now rewrite app_nil_r, rev_involutive.
Qed.

Lemma normalize_names l :
  l <> [] -> fileNames l = true ->
  Path.normalize (absolutePath l) = absolutePath l.
Proof.
  intros Hne H. unfold Path.normalize.
  replace (Str.isEmpty (absolutePath l)) with false by reflexivity.
  replace (Path.isAbsolute (absolutePath l)) with true by reflexivity.
  assert (E : Str.endsWith "/" (absolutePath l) = false)
    by (now apply endsWith_names).
  rewrite E. simpl negb.
  rewrite normalizeString_names by assumption.
  now rewrite !andb_false_r.
Qed.

(** [path.join] of an absolute path and a relative path, both made of
    file names, appends the names. *)
Lemma join_names rs ps :
  rs <> [] -> fileNames rs = true -> fileNames ps = true ->
  Path.join [absolutePath rs; Str.join "/" ps] = absolutePath (rs ++ ps).
Proof.
  intros Hne Hr Hp. unfold Path.join.
  destruct ps as [|p ps].
  - simpl. rewrite app_nil_r. now apply normalize_names.
  - assert (Hps : p :: ps <> []) by discriminate.
    assert (E : List.filter (fun a => negb (Str.isEmpty a))
                  [absolutePath rs; Str.join "/" (p :: ps)]
                = [absolutePath rs; Str.join "/" (p :: ps)]).
    { cbn [List.filter].
      replace (Str.isEmpty (absolutePath rs)) with false by reflexivity.
      now rewrite (names_nonempty (p :: ps)) by assumption. }
    rewrite E.
    change (Str.join "/" [absolutePath rs; Str.join "/" (p :: ps)])
      with (absolutePath rs +:+ "/" +:+ Str.join "/" (p :: ps)).
    rewrite absolute_app by assumption.
    apply normalize_names; [now destruct rs|].
    now rewrite fileNames_app, Hr, Hp.
Qed.

(** [path.join(p, '.')] is [p]. *)
Lemma join_dot rs :
  rs <> [] -> fileNames rs = true ->
  Path.join [absolutePath rs; "."] = absolutePath rs.
Proof.
  intros Hne Hr. unfold Path.join. cbn [List.filter Str.isEmpty negb].
  replace (Str.isEmpty (absolutePath rs)) with false by reflexivity. cbn [negb].
  change (Str.join "/" [absolutePath rs; "."]) with (absolutePath rs +:+ "/" +:+ ".").
  unfold Path.normalize.
  replace (Str.isEmpty (absolutePath rs +:+ "/" +:+ ".")) with false by reflexivity.
  replace (Path.isAbsolute (absolutePath rs +:+ "/" +:+ ".")) with true by reflexivity.
  assert (Et : Str.endsWith "/" (absolutePath rs +:+ "/" +:+ ".") = false).
  { change ("/" +:+ ".") with ("/" +:+ String "." "").
    rewrite <- append_assoc. apply endsWith_slash_snoc. }
  rewrite Et. simpl negb.
  assert (Es : Str.split "/" (absolutePath rs +:+ "/" +:+ ".") = "" :: rs ++ ["."]).
  { change (absolutePath rs +:+ "/" +:+ ".")
      with (absolutePath rs +:+ "/" +:+ Str.join "/" ["."]).
    rewrite absolute_app by (congruence || discriminate).
    unfold absolutePath, Str.split. simpl. f_equal.
    apply splitBy_join; [reflexivity | now destruct rs |].
    apply Forall_app. split; [now apply names_noslash | now repeat constructor]. }
  assert (En : Path.normalizeString (absolutePath rs +:+ "/" +:+ ".") false
               = Str.join "/" rs).
  { unfold Path.normalizeString. rewrite Es. simpl.
    rewrite normalizeSegments_names by assumption. simpl.
    now rewrite app_nil_r, rev_involutive. }
  rewrite En. now rewrite !andb_false_r.
Qed.

(** *** [path.dirname] of a relative path *)

Lemma dirnameEnd_name m w rest :
  Forall (fun c => Ascii.eqb c "/" = false) w -> w <> [] ->
  Path.dirnameEnd m (w ++ rest) = Path.dirnameEnd false rest.
Proof.
  intros Hw. revert m. induction Hw as [|c w Hc Hw IH]; intros m Hne; [congruence|].
  simpl. rewrite Hc. destruct w as [|c' w]; [reflexivity|].
  apply IH. discriminate.
Qed.

Lemma dirnameEnd_none m w :
  Forall (fun c => Ascii.eqb c "/" = false) w -> Path.dirnameEnd m w = None.
Proof.
  intros Hw. revert m. induction Hw as [|c w Hc Hw IH]; intros m; [reflexivity|].
  simpl. now rewrite Hc.
Qed.

Lemma noSlash_chars s :
  noSlash s = true ->
  Forall (fun c => Ascii.eqb c "/" = false) (list_ascii_of_string s).
Proof.
  induction s as [|c s IH]; simpl; intros H; [constructor|].
  apply andb_true_iff in H as [Hc Hs]. apply negb_true_iff in Hc.
  constructor; auto.
Qed.

Lemma string_list_inv s : string_of_list_ascii (list_ascii_of_string s) = s.
Proof. apply string_of_list_ascii_of_string. Qed.

Lemma take_app_length {A} (a b : list A) : take (length a) (a ++ b) = a.
Proof. induction a as [|x a IH]; simpl; [now destruct b | now rewrite IH]. Qed.

Lemma dirname_cons c0 tl :
  Path.dirname (String c0 tl)
  = match Path.dirnameEnd true (List.rev (list_ascii_of_string tl)) with
    | Some e =>
        if Ascii.eqb c0 "/" && (e =? 1)%nat then "//"
        else string_of_list_ascii (take e (c0 :: list_ascii_of_string tl))
    | None => if Ascii.eqb c0 "/" then "/" else "."
    end.
Proof. reflexivity. Qed.

(** The directory of a manifest found below some folders is the path of
    these folders; the directory of a manifest at the top is [.]. *)
Lemma dirname_manifest ds f :
  fileNames ds = true -> fileName f = true ->
  Path.dirname (Str.join "/" (ds ++ [f]))
  = match ds with [] => "." | _ => Str.join "/" ds end.
Proof.
  intros Hds Hf. destruct (fileName_facts f Hf) as (Hns & Hne & _).
  destruct ds as [|d ds].
  - simpl. destruct f as [|c0 tl]; [discriminate|].
    rewrite dirname_cons. simpl in Hns. apply andb_true_iff in Hns as [Hc Htl].
    apply negb_true_iff in Hc. rewrite Hc.
    rewrite dirnameEnd_none; [reflexivity|].
    apply List.Forall_rev. now apply noSlash_chars.
  - assert (Hd : d :: ds <> []) by discriminate.
    rewrite join_app by (congruence || discriminate).
    change (Str.join "/" [f]) with f.
    pose proof (names_nonempty (d :: ds) Hd Hds) as Hnonempty.
    destruct (Str.join "/" (d :: ds)) as [|c0 D'] eqn:ED; [discriminate|].
    assert (Hc0 : Ascii.eqb c0 "/" = false).
    { simpl in Hds. apply andb_true_iff in Hds as [Hd0 _].
      destruct (fileName_facts d Hd0) as (Hnd & Hned & _).
      destruct d as [|c d']; [discriminate|].
      assert (c0 = c) by (destruct ds; simpl in ED; congruence). subst c.
      simpl in Hnd. apply andb_true_iff in Hnd as [Hnd _].
      now apply negb_true_iff in Hnd. }
    change (String c0 D' +:+ "/" +:+ f) with (String c0 (D' +:+ String "/" f)).
    rewrite dirname_cons, Hc0. cbn [andb].
    rewrite list_ascii_app. cbn [list_ascii_of_string].
    rewrite rev_app_distr. cbn [List.rev]. rewrite <- app_assoc.
    rewrite dirnameEnd_name.
    + cbn [app Path.dirnameEnd]. cbn [Ascii.eqb Bool.eqb]. rewrite length_rev.
      change (S (length (list_ascii_of_string D')))
        with (length (c0 :: list_ascii_of_string D')).
      change (c0 :: list_ascii_of_string D' ++ "/"%char :: list_ascii_of_string f)
        with ((c0 :: list_ascii_of_string D') ++ "/"%char :: list_ascii_of_string f).
      rewrite take_app_length.
      change (c0 :: list_ascii_of_string D') with (list_ascii_of_string (String c0 D')).
      apply string_list_inv.
    + apply List.Forall_rev. now apply noSlash_chars.
    + destruct f; [discriminate|]. simpl. now destruct (List.rev _).
Qed.

(** *** The temporary directory *)

Lemma noSlash_replaceAll s : noSlash (Str.replaceAll "/" "_" s) = true.
Proof.
  unfold noSlash. induction s as [|c s IH]; [reflexivity|].
  cbn [Str.replaceAll Str.forallb]. rewrite IH, andb_true_r.
  destruct (Ascii.eqb_spec c "/") as [->|Hne]; [reflexivity|].
  apply Ascii.eqb_neq in Hne. now rewrite Hne.
Qed.

Lemma underscore_name x u :
  (x +:+ "_" +:+ u =? "")%string = false
  /\ (x +:+ "_" +:+ u =? ".")%string = false
  /\ (x +:+ "_" +:+ u =? "..")%string = false.
Proof.
  destruct x as [|a [|b x]]; simpl; repeat split;
    try reflexivity;
    try (destruct (Ascii.eqb a "."); reflexivity).
  destruct (Ascii.eqb a "."); [|reflexivity].
  destruct (Ascii.eqb b "."); [|reflexivity].
  now destruct x.
Qed.

Lemma tempName_fileName zip uuid :
  noSlash uuid = true -> fileName (tempName zip uuid) = true.
Proof.
  intros Hu. unfold fileName, tempName.
  destruct (underscore_name (Str.replaceAll "/" "_" (url_hostname zip +:+ pathname zip))
              uuid) as (-> & -> & ->).
  unfold noSlash in *. rewrite !forallb_app, Hu.
  fold (noSlash (Str.replaceAll "/" "_" (url_hostname zip +:+ pathname zip))).
  now rewrite noSlash_replaceAll.
Qed.

(** X10.  The temporary directory of a handshake is a direct child of
    the cache directory, whatever the root address: its name is made from
    the host and path of the address with every slash replaced and from a
    fresh identifier, so that it is one file name, never [.] or [..], and
    no address can place the directory elsewhere.  Making this directory
    is the first thing the handshake asks of the file system. *)
Theorem tempDir_below_cache env span zip st cs :
  cs <> [] -> fileNames cs = true -> CACHE_DIR env = absolutePath cs ->
  noSlash (uuid_v1 env (uuidsMade st)) = true ->
  let name := tempName zip (uuid_v1 env (uuidsMade st)) in
  let run := fetchWorkspace env span zip in
  fileName name = true
  /\ tempDir (finalState run st) = Some (absolutePath (cs ++ [name]))
  /\ hd_error (events run st) = Some (Mkdirp (absolutePath (cs ++ [name]))).
Proof.
  intros Hne Hcs Hcache Hu name run.
  pose proof (tempName_fileName zip _ Hu) as Hname. fold name in Hname.
  split; [exact Hname|].
  destruct (fetchWorkspace_start env span zip st) as (r & s' & t' & E & Ht).
  cbv zeta in E, Ht. fold name in E, Ht. rewrite Hcache in E, Ht.
  change name with (Str.join "/" [name]) in E at 1.
  change name with (Str.join "/" [name]) in Ht at 1.
  rewrite join_names in E, Ht by (try assumption; simpl; now rewrite Hname).
  unfold run, finalState, events. rewrite E. simpl. auto.
Qed.

Lemma tempDir_below_cache_witness :
  let env := Sample.env [] in
  let zip :=
    {| protocol := "https:";
       host := Some {| userinfo := ""; hostname := ".."; port := "" |};
       opaque := false; pathname := "/../../etc/x.zip"; query := None;
       fragment := None |} in
  let run := fetchWorkspace env 0 zip in
  CACHE_DIR env = absolutePath ["tmp"]
  /\ tempDir (finalState run initialState) = Some "/tmp/.._.._.._etc_x.zip_uuid0"
  /\ hd_error (events run initialState) = Some (Mkdirp "/tmp/.._.._.._etc_x.zip_uuid0").
Proof.
  intros env zip run. split; [reflexivity|].
  exact (proj2 (tempDir_below_cache env 0 zip initialState ["tmp"]
                  ltac:(discriminate) eq_refl eq_refl eq_refl)).
Defined.

(** *** The folders given to yarn *)

Lemma NoDup_map_on {A B} (f : A -> B) l :
  (forall x y, In x l -> In y l -> f x = f y -> x = y) ->
  NoDup l -> NoDup (List.map f l).
Proof.
  intros Hinj Hnd. induction Hnd as [|x l Hx Hnd IH]; simpl; [constructor|].
  apply NoDup_cons_2.
  - rewrite list_elem_of_In. intros Hin. apply in_map_iff in Hin as (y & Hy & Hiny).
    assert (y = x) by (apply Hinj; simpl; auto). subst y.
    apply Hx. now apply list_elem_of_In.
  - apply IH. intros a b Ha Hb. apply Hinj; now right.
Qed.

Section Folders.
Variable ts : list string.
Hypothesis temp_nonempty : ts <> [].
Hypothesis temp_names : fileNames ts = true.

Lemma root_names k : fileName k = true -> fileNames (ts ++ [k]) = true.
Proof. intros Hk. rewrite fileNames_app, temp_names. simpl. now rewrite Hk. Qed.

(** The folder of a manifest below the root [k] of the temporary
    directory. *)
Lemma folder_of k ds :
  fileName k = true -> fileNames ds = true ->
  Path.join [absolutePath (ts ++ [k]);
             Path.dirname (Str.join "/" (ds ++ ["package.json"]))]
  = absolutePath ((ts ++ [k]) ++ ds).
Proof.
  intros Hk Hds. rewrite dirname_manifest by (assumption || reflexivity).
  assert (Hroot : ts ++ [k] <> []) by (now destruct ts).
  destruct ds as [|d ds].
  - rewrite app_nil_r. apply join_dot; [exact Hroot | now apply root_names].
  - apply join_names; [exact Hroot | now apply root_names | exact Hds].
Qed.

Lemma folder_inj k ds1 ds2 :
  fileName k = true -> fileNames ds1 = true -> fileNames ds2 = true ->
  absolutePath ((ts ++ [k]) ++ ds1) = absolutePath ((ts ++ [k]) ++ ds2) ->
  ds1 = ds2.
Proof.
  intros Hk H1 H2 E.
  apply absolutePath_inj in E;
    try (now destruct ts);
    try (rewrite fileNames_app, root_names by assumption; assumption).
  now apply app_inv_head in E.
Qed.

Lemma folder_apart k1 k2 ds1 ds2 :
  fileName k1 = true -> fileName k2 = true -> k1 <> k2 ->
  fileNames ds1 = true -> fileNames ds2 = true ->
  absolutePath ((ts ++ [k1]) ++ ds1) <> absolutePath ((ts ++ [k2]) ++ ds2).
Proof.
  intros Hk1 Hk2 Hne H1 H2 E.
  apply absolutePath_inj in E;
    try (now destruct ts);
    try (rewrite fileNames_app, root_names by assumption; assumption).
  rewrite <- !app_assoc in E. apply app_inv_head in E. simpl in E. congruence.
Qed.

End Folders.

(** X11.  Every yarn process of an installation gets folders of its own.
    When the manifests found are distinct relative paths made of file
    names, the processes started for them have pairwise distinct working
    directories, pairwise distinct global folders and pairwise distinct
    cache folders, and no folder of one kind is a folder of another
    kind. *)
Theorem yarn_folders_distinct env span ts manifests st :
  ts <> [] -> fileNames ts = true ->
  NoDup manifests -> Forall isManifest manifests ->
  let starts :=
    yarnStarts
      (events (installDependencies env span
                 (absolutePath (ts ++ ["repo"])) (absolutePath (ts ++ ["global"]))
                 (absolutePath (ts ++ ["cache"])) manifests) st) in
  NoDup (List.map cwdOf starts)
  /\ NoDup (List.map globalOf starts)
  /\ NoDup (List.map cacheOf starts)
  /\ forall a b, In a starts -> In b starts ->
                 globalOf a <> cacheOf b /\ globalOf a <> cwdOf b
                 /\ cacheOf a <> cwdOf b.
Proof.
  intros Hne Hts Hnd Hman starts. unfold starts.
  rewrite installDependencies_starts.
  set (ep := absolutePath (ts ++ ["repo"])).
  set (gf := absolutePath (ts ++ ["global"])).
  set (cf := absolutePath (ts ++ ["cache"])).
  set (found := List.filter (prepared env ep gf cf) manifests).
  assert (Hfound : forall rel, In rel found ->
             exists ds, fileNames ds = true
                        /\ rel = Str.join "/" (ds ++ ["package.json"])).
  { intros rel Hin. apply filter_In in Hin as [Hin _].
    rewrite Forall_forall in Hman. apply Hman. now apply list_elem_of_In. }
  assert (Hnd' : NoDup found).
  { unfold found. clear -Hnd. induction Hnd as [|x l Hx Hnd IH]; simpl; [constructor|].
    destruct (prepared env ep gf cf x); [|exact IH].
    apply NoDup_cons_2; [|exact IH].
    rewrite list_elem_of_In. intros Hin. apply filter_In in Hin as [Hin _].
    apply Hx. now apply list_elem_of_In. }
  assert (Hinj : forall k, fileName k = true ->
             forall x y, In x found -> In y found ->
               Path.join [absolutePath (ts ++ [k]); Path.dirname x]
               = Path.join [absolutePath (ts ++ [k]); Path.dirname y] -> x = y).
  { intros k Hk x y Hx Hy E.
    destruct (Hfound x Hx) as (dx & Hdx & ->).
    destruct (Hfound y Hy) as (dy & Hdy & ->).
    rewrite !folder_of in E by assumption.
    apply folder_inj in E; try assumption. now subst. }
  assert (Hapart : forall k1 k2, fileName k1 = true -> fileName k2 = true -> k1 <> k2 ->
             forall x y, In x found -> In y found ->
               Path.join [absolutePath (ts ++ [k1]); Path.dirname x]
               <> Path.join [absolutePath (ts ++ [k2]); Path.dirname y]).
  { intros k1 k2 Hk1 Hk2 Hk x y Hx Hy.
    destruct (Hfound x Hx) as (dx & Hdx & ->).
    destruct (Hfound y Hy) as (dy & Hdy & ->).
    rewrite !folder_of by assumption. now apply folder_apart. }
  rewrite !List.map_map. unfold cwdOf, globalOf, cacheOf. cbn [fst snd].
  split; [|split; [|split]].
  - apply NoDup_map_on; [|exact Hnd']. now apply (Hinj "repo").
  - apply NoDup_map_on; [|exact Hnd']. now apply (Hinj "global").
  - apply NoDup_map_on; [|exact Hnd']. now apply (Hinj "cache").
  - intros a b Ha Hb.
    apply in_map_iff in Ha as (x & <- & Hx). apply in_map_iff in Hb as (y & <- & Hy).
    cbn [fst snd]. repeat split.
    + now apply (Hapart "global" "cache").
    + now apply (Hapart "global" "repo").
    + now apply (Hapart "cache" "repo").
Qed.

Lemma yarn_folders_distinct_witness :
  let manifests := ["package.json"; "packages/a/package.json"] in
  let starts :=
    yarnStarts
      (events (installDependencies (Sample.env manifests) 0
                 (absolutePath (["tmp"; "ws"] ++ ["repo"]))
                 (absolutePath (["tmp"; "ws"] ++ ["global"]))
                 (absolutePath (["tmp"; "ws"] ++ ["cache"])) manifests)
              Sample.active) in
  starts = [("/tmp/ws/repo", "/tmp/ws/global", "/tmp/ws/cache");
            ("/tmp/ws/repo/packages/a", "/tmp/ws/global/packages/a",
             "/tmp/ws/cache/packages/a")]
  /\ NoDup (List.map globalOf starts).
Proof.
  intros manifests starts. split; [reflexivity|].
  refine (proj1 (proj2 (yarn_folders_distinct (Sample.env manifests) 0 ["tmp"; "ws"]
                          manifests Sample.active ltac:(discriminate) eq_refl _ _))).
  - repeat constructor; rewrite list_elem_of_In; simpl; intuition discriminate.
  - repeat constructor.
    + exists []. split; reflexivity.
    + exists ["packages"; "a"]. split; reflexivity.
Defined.

End FolderFacts.

(** ** Whole sessions *)

Module SessionRuns.
Import Json Url Proxy Observe Sessions TraceFacts MonadFacts.

(** *** Relations between the start and the end of a computation *)

Section Holds.
Variable Q : State -> list Event -> State -> Prop.
Hypothesis Q_refl : forall s, Q s [] s.
Hypothesis Q_trans :
  forall a t1 b t2 c, Q a t1 b -> Q b t2 c -> Q a (t1 ++ t2) c.

Lemma holds_ret {A} (a : A) : holds Q (ret a).
Proof. intros s. apply Q_refl. Qed.

Lemma holds_throw {A} e : holds Q (@throw A e).
Proof. intros s. apply Q_refl. Qed.

Lemma holds_get : holds Q get.
Proof. intros s. apply Q_refl. Qed.

Lemma holds_lift {A} (o : Outcome A) : holds Q (lift o).
Proof. intros s. apply Q_refl. Qed.

Lemma holds_emit e : (forall s, Q s [e] s) -> holds Q (emit e).
Proof. intros H s. apply H. Qed.

Lemma holds_modify f : (forall s, Q s [] (f s)) -> holds Q (modify f).
Proof. intros H s. apply H. Qed.

Lemma holds_bind {A B} (c : M A) (k : A -> M B) :
  holds Q c -> (forall a, holds Q (k a)) -> holds Q (bind c k).
Proof.
  intros Hc Hk s. unfold events, finalState. rewrite run_bind.
  specialize (Hc s). unfold events, finalState in Hc.
  destruct (c s) as [[[a|e] s1] t1]; simpl in *; [|exact Hc].
  eapply Q_trans; [exact Hc | apply Hk].
Qed.

Lemma holds_tryCatch {A} (c : M A) (h : JsError -> M A) :
  holds Q c -> (forall e, holds Q (h e)) -> holds Q (tryCatch c h).
Proof.
  intros Hc Hh s. unfold events, finalState. rewrite run_tryCatch.
  specialize (Hc s). unfold events, finalState in Hc.
  destruct (c s) as [[[a|e] s1] t1]; simpl in *; [exact Hc|].
  eapply Q_trans; [exact Hc | apply Hh].
Qed.

Lemma holds_tryFinally {A} (c : M A) (f : M unit) :
  holds Q c -> holds Q f -> holds Q (tryFinally c f).
Proof.
  intros Hc Hf s. unfold events, finalState, tryFinally.
  specialize (Hc s). unfold events, finalState in Hc.
  destruct (c s) as [[r s1] t1]; simpl in *.
  specialize (Hf s1). unfold events, finalState in Hf.
  destruct (f s1) as [[r' s2] t2]; simpl in *.
  eapply Q_trans; eassumption.
Qed.

Lemma holds_call e result : (forall s, Q s [e] s) -> holds Q (call e result).
Proof.
  intros H. unfold call. apply holds_bind; [now apply holds_emit|].
  intros _. destruct result; [apply holds_throw | apply holds_ret].
Qed.

Lemma holds_promiseAll {A} (cs : list (M A)) :
  Forall (holds Q) cs -> holds Q (promiseAll cs).
Proof.
  induction 1 as [|c cs Hc _ IH]; [apply holds_ret|].
  intros s. unfold events, finalState. rewrite run_promiseAll.
  specialize (Hc s). unfold events, finalState in Hc.
  destruct (c s) as [[r s1] t1]; simpl in *.
  specialize (IH s1). unfold events, finalState in IH.
  destruct (promiseAll cs s1) as [[rs s2] t2]; simpl in *.
  eapply Q_trans; eassumption.
Qed.

Hypothesis Q_bump : forall s, Q s [] (bump_spans s).
Hypothesis Q_span_start : forall s h n p, Q s [SpanStart h n p] s.
Hypothesis Q_span_tag : forall s h k v, Q s [SpanTag h k v] s.
Hypothesis Q_span_log : forall s h e, Q s [SpanLogError h e] s.
Hypothesis Q_span_finish : forall s h, Q s [SpanFinish h] s.

Lemma holds_newSpan : holds Q newSpan.
Proof. intros s. apply Q_bump. Qed.

Lemma holds_startSpan name parent : holds Q (startSpan name parent).
Proof.
  unfold startSpan. apply holds_bind; [apply holds_newSpan|].
  intros h. apply holds_bind; [now apply holds_emit|].
  intros _. apply holds_ret.
Qed.

Lemma holds_tracePromise {A} name span (operation : nat -> M A) :
  (forall child, holds Q (operation child)) ->
  holds Q (tracePromise name span operation).
Proof.
  intros Hop. unfold tracePromise, setTag.
  apply holds_bind; [apply holds_startSpan|].
  intros child. apply holds_tryFinally.
  - apply holds_tryCatch; [apply Hop|].
    intros e. apply holds_bind; [now apply holds_emit|].
    intros _. apply holds_bind; [now apply holds_emit|].
    intros _. apply holds_throw.
  - now apply holds_emit.
Qed.

End Holds.

(** Steps through a computation built from the combinators, by the shape
    of its head, leaving the side conditions to [side] and the
    computations it does not know to the caller. *)
Ltac holds_step special side :=
  lazymatch goal with
  | |- forall _, _ => intro
  | |- Forall _ [] => constructor
  | |- Forall _ (_ :: _) => constructor
  | |- holds _ ?c =>
      first
        [ special
        | lazymatch c with
          | ret _ => eapply holds_ret; solve [side]
          | get => eapply holds_get; solve [side]
          | throw _ => eapply holds_throw; solve [side]
          | emit _ => eapply holds_emit; solve [side]
          | modify _ => eapply holds_modify; solve [side]
          | lift _ => eapply holds_lift; solve [side]
          | call _ _ => eapply holds_call; solve [side]
          | newSpan => eapply holds_newSpan; solve [side]
          | startSpan _ _ => eapply holds_startSpan; solve [side]
          | tracePromise _ _ _ => eapply holds_tracePromise; try solve [side]
          | promiseAll _ => eapply holds_promiseAll; try solve [side]
          | tryFinally _ _ => eapply holds_tryFinally; try solve [side]
          | tryCatch _ _ => eapply holds_tryCatch; try solve [side]
          | bind _ _ => eapply holds_bind; try solve [side]
          | match ?x with _ => _ end => destruct x
          | let _ := _ in _ => cbv zeta
          end ]
  end.

Ltac holds_auto special side := repeat holds_step special side.

(** *** The growth of the cleanup list *)

#[local] Opaque Path.join Path.dirname String.append Str.replaceAll href
  url_hostname pathToFileURL.

Lemma grown_refl s : grown s [] s.
Proof.
  exists 0. simpl. rewrite app_nil_r. repeat split; congruence.
Qed.

Lemma mkdirs_app t1 t2 : mkdirs (t1 ++ t2) = mkdirs t1 ++ mkdirs t2.
Proof. unfold mkdirs. now rewrite collect_app. Qed.

Lemma spawns_app t1 t2 : spawns (t1 ++ t2) = spawns t1 + spawns t2.
Proof. unfold spawns. now rewrite collect_app, length_app. Qed.

Lemma grown_trans a t1 b t2 c : grown a t1 b -> grown b t2 c -> grown a (t1 ++ t2) c.
Proof.
  intros (n1 & F1 & D1 & M1 & S1 & K1) (n2 & F2 & D2 & M2 & S2 & K2).
  exists (n1 + n2). repeat split.
  - rewrite F2, F1. unfold yarnCalls. rewrite collect_app, rev_app_distr.
    rewrite List.map_app, repeat_app. now rewrite <- !app_assoc.
  - intros Hn. destruct n2 as [|n2]; [|now apply D2].
    apply M2, D1. lia.
  - auto.
  - rewrite spawns_app. lia.
  - rewrite mkdirs_app, length_app. lia.
Qed.

Ltac grown_side :=
  intros;
  first [ apply grown_refl
        | eapply grown_trans; eassumption
        | exists 0; cbn; rewrite ?app_nil_r; repeat split;
          first [ congruence | discriminate | reflexivity ] ].

(** A yarn process started, and its kill put in front of the list. *)
Lemma grown_yarn {A} cwd g c (K : M A) :
  holds grown K ->
  holds grown
    (bind (emit (YarnInstall cwd g c))
       (fun _ =>
          bind (modify (fun s =>
                  set_cleanupFns (unshift (KillYarn cwd) (connectionCleanupFns s)) s))
               (fun _ => K))).
Proof.
  intros HK s. unfold events, finalState, bind, emit, modify.
  specialize (HK (set_cleanupFns (unshift (KillYarn cwd) (connectionCleanupFns s)) s)).
  unfold events, finalState in HK.
  destruct (K _) as [[r s2] t2]. simpl in *.
  destruct HK as (n & F & D & M & S & K').
  exists n. repeat split; try assumption.
  - rewrite F. unfold yarnCalls, unshift. simpl.
    rewrite List.map_app. simpl. now rewrite <- app_assoc.
Qed.

Ltac yarn_special :=
  idtac;
  lazymatch goal with
  | |- holds grown (bind (emit (YarnInstall _ _ _)) _) => apply grown_yarn
  end.

Lemma installPackage_grown env span ep gf cf rel :
  holds grown (installPackage env span ep gf cf rel).
Proof.
  unfold installPackage, logger_error, setTag.
  holds_auto yarn_special grown_side.
Qed.

Lemma installDependencies_grown env span ep gf cf manifests :
  holds grown (installDependencies env span ep gf cf manifests).
Proof.
  unfold installDependencies.
  holds_auto yarn_special grown_side.
  apply Forall_map, Forall_forall. intros rel _. apply installPackage_grown.
Qed.

Lemma holds_of_run (Q : State -> list Event -> State -> Prop) {A} (c : M A) :
  (forall s, exists r s' t, c s = (r, s', t) /\ Q s t s') -> holds Q c.
Proof.
  intros H s. destruct (H s) as (r & s' & t & E & HQ).
  unfold events, finalState. now rewrite E.
Qed.

(** The deletion of the temporary directory is registered once the
    directory has been named and made. *)
Ltac fetch_leaf n :=
  cbv [promiseAll tryFinally tryCatch bind modify emit ret throw app fst snd];
  do 3 eexists; split; [reflexivity|];
  exists n; unfold yarnCalls, spawns, mkdirs, push;
  cbn [collect List.rev List.map repeat length app connectionCleanupFns tempDir
       set_tempDir set_cleanupFns set_folders bump_spans];
  rewrite ?app_nil_r; repeat split; first [ congruence | discriminate | reflexivity ].

Lemma fetchWorkspace_grown env span zip : holds grown (fetchWorkspace env span zip).
Proof.
  apply holds_of_run. intros s. unfold fetchWorkspace.
  unfold bind at 1. unfold get at 1. cbv beta iota zeta.
  set (dir := Path.join [CACHE_DIR env; _]).
  unfold tracePromise, call, logger_log, setTag, startSpan, newSpan.
  destruct (mkdirp env dir) as [e1|]; [fetch_leaf 0|].
  destruct (mkdir env (Path.join [dir; "repo"])) as [e2|],
           (mkdir env (Path.join [dir; "cache"])) as [e3|],
           (mkdir env (Path.join [dir; "global"])) as [e4|];
    try (fetch_leaf 1).
  destruct (fetch env (href zip) (Path.join [dir; "archive.zip"])) as [e5|bytes];
    [fetch_leaf 1|].
  destruct (decompress env (Path.join [dir; "archive.zip"]) (Path.join [dir; "repo"]))
    as [e6|]; [fetch_leaf 1|].
  destruct (glob env (Path.join [dir; "repo"])) as [e7|manifests]; fetch_leaf 1.
Qed.

Ltac handshake_special :=
  idtac;
  lazymatch goal with
  | |- holds grown (bind (emit (YarnInstall _ _ _)) _) => apply grown_yarn
  | |- holds grown (fetchWorkspace _ _ _) => apply fetchWorkspace_grown
  | |- holds grown (installDependencies _ _ _ _ _ _) => apply installDependencies_grown
  end.

Lemma onClientMessage_grown env message : holds grown (onClientMessage env message).
Proof.
  unfold onClientMessage, beginSpan, forwardToServer, onError, when, initialize,
    materialize, setTag, logger_error.
  holds_auto handshake_special grown_side.
Qed.

Lemma forward_grown env message : holds grown (forward env message).
Proof.
  unfold forward, onServerMessage.
  holds_auto handshake_special grown_side.
Qed.

(** *** The shape of the cleanup list in a session without overlap *)

Lemma inTurn_shape env t st :
  inTurn env t st ->
  spawns t = 1
  /\ exists n,
       connectionCleanupFns st
       = List.map KillYarn (List.rev (yarnCalls t)) ++ [DisposeLanguageServer]
         ++ repeat DeleteTempDir n
       /\ (n <> 0 -> tempDir st <> None)
       /\ length (mkdirs t) = 3 * n.
Proof.
  assert (Hstep : forall t st t2 st2,
             (spawns t = 1
              /\ exists n,
                   connectionCleanupFns st
                   = List.map KillYarn (List.rev (yarnCalls t)) ++ [DisposeLanguageServer]
                     ++ repeat DeleteTempDir n
                   /\ (n <> 0 -> tempDir st <> None)
                   /\ length (mkdirs t) = 3 * n) ->
             grown st t2 st2 ->
             spawns (t ++ t2) = 1
             /\ exists n,
                  connectionCleanupFns st2
                  = List.map KillYarn (List.rev (yarnCalls (t ++ t2)))
                    ++ [DisposeLanguageServer] ++ repeat DeleteTempDir n
                  /\ (n <> 0 -> tempDir st2 <> None)
                  /\ length (mkdirs (t ++ t2)) = 3 * n).
  { intros t0 st0 t2 st2 (S1 & n1 & F1 & D1 & K1) (n2 & F2 & D2 & M2 & S2 & K2).
    split; [rewrite spawns_app; lia|].
    exists (n1 + n2). split; [|split].
    - rewrite F2, F1. unfold yarnCalls. rewrite collect_app, rev_app_distr.
      rewrite List.map_app, repeat_app. now rewrite <- !app_assoc.
    - intros Hn. destruct n2 as [|n2]; [|now apply D2].
      apply M2, D1. lia.
    - rewrite mkdirs_app, length_app. lia. }
  induction 1 as [|t st m _ IH|t st m _ IH].
  - split; [reflexivity|]. exists 0. split; [reflexivity|].
    split; [congruence | reflexivity].
  - apply (Hstep t st _ _ IH). apply onClientMessage_grown.
  - apply (Hstep t st _ _ IH). apply forward_grown.
Qed.

(** One guarded call of [cleanupAll], when the temporary directory is
    named if its deletion is asked for. *)
Lemma guarded_cleanup env st f :
  (f = DeleteTempDir -> tempDir st <> None) ->
  exists t,
    tryCatch (runCleanupFn env f)
      (fun err => emit (ConsoleError [LStr "Error cleaning up"; LErr err])) st
    = (Ok tt, st, t)
    /\ invocations t = [f]
    /\ removed t = match f, tempDir st with
                   | DeleteTempDir, Some dir => [dir]
                   | _, _ => []
                   end.
Proof.
  intros Hdir. destruct f as [| |c]; unfold tryCatch, runCleanupFn, call, bind,
    logger_log, emit, get, ret, throw; simpl.
  - destruct (disposeServer env); simpl; eexists; repeat split.
  - destruct (tempDir st) as [dir|] eqn:E; [|now destruct (Hdir eq_refl)].
    simpl. destruct (rmfr env dir); simpl; eexists; repeat split.
  - destruct (killYarn env c); simpl; eexists; repeat split.
Qed.

Lemma cleanup_list env st fns :
  (In DeleteTempDir fns -> tempDir st <> None) ->
  exists t,
    cleanupAll (List.map (runCleanupFn env) fns) st = (Ok tt, st, t)
    /\ invocations t = fns
    /\ removed t
       = collect (fun f => match f with DeleteTempDir => tempDir st | _ => None end) fns.
Proof.
  induction fns as [|f fns IH]; intros Hdir; simpl.
  - exists []. repeat split.
  - destruct (guarded_cleanup env st f) as (t1 & E1 & Hi1 & Hr1).
    { intros ->. apply Hdir. now left. }
    destruct IH as (t & E & Hi & Hr); [intros H; apply Hdir; now right|].
    exists (t1 ++ t). unfold bind. rewrite E1, E. repeat split.
    + unfold invocations in *. rewrite collect_app, Hi1, Hi. reflexivity.
    + unfold removed in *. rewrite collect_app, Hr1, Hr.
      destruct f; try reflexivity. now destruct (tempDir st).
Qed.

Lemma onClose_run env st :
  (In DeleteTempDir (connectionCleanupFns st) -> tempDir st <> None) ->
  outcome (onClose env) st = Ok tt
  /\ finalState (onClose env) st = st
  /\ invocations (events (onClose env) st) = connectionCleanupFns st
  /\ removed (events (onClose env) st)
     = collect (fun f => match f with DeleteTempDir => tempDir st | _ => None end)
         (connectionCleanupFns st).
Proof.
  intros Hdir. destruct (cleanup_list env st _ Hdir) as (t & E & Hi & Hr).
  unfold outcome, finalState, events, onClose, bind, emit, get. rewrite E. simpl. auto.
Qed.

Lemma collect_kills (g : CleanupFn -> option string) l :
  (forall c, g (KillYarn c) = None) -> collect g (List.map KillYarn l) = [].
Proof. intros H. induction l as [|c l IH]; simpl; [reflexivity | now rewrite H]. Qed.

Lemma collect_deletes (g : CleanupFn -> option string) n :
  collect g (repeat DeleteTempDir n)
  = match g DeleteTempDir with Some d => repeat d n | None => [] end.
Proof.
  induction n as [|n IH]; simpl; [now destruct (g DeleteTempDir)|].
  rewrite IH. now destruct (g DeleteTempDir).
Qed.

Lemma shape_names_dir st ks n :
  connectionCleanupFns st = List.map KillYarn ks ++ [DisposeLanguageServer]
                            ++ repeat DeleteTempDir n ->
  (n <> 0 -> tempDir st <> None) ->
  In DeleteTempDir (connectionCleanupFns st) -> tempDir st <> None.
Proof.
  intros F D Hin. apply D. intros ->. rewrite F in Hin. simpl in Hin.
  apply in_app_or in Hin as [Hin|[Hin|[]]]; [|discriminate].
  apply in_map_iff in Hin as (c & Hc & _). discriminate.
Qed.

(** X12.  In a session without overlap (no message and no close arrives
    while a handshake is pending), closing the connection cleans up in
    one order.  Whatever messages the client and the language server
    sent, the language server was started once, when the connection was
    accepted, and the close handler does not throw and calls: first the
    kill of every yarn process that was started, the one started last
    first; then the disposal of the language server, once; then one
    deletion of the temporary directory for every handshake that made
    its temporary directory, each of which went on to three calls of
    [fs.mkdir]. *)
Theorem close_cleans_in_order env t st :
  inTurn env t st ->
  spawns t = 1
  /\ outcome (onClose env) st = Ok tt
  /\ exists n,
       length (mkdirs t) = 3 * n
       /\ invocations (events (onClose env) st)
          = List.map KillYarn (List.rev (yarnCalls t)) ++ [DisposeLanguageServer]
            ++ repeat DeleteTempDir n.
Proof.
  intros H. destruct (inTurn_shape env t st H) as (S & n & F & D & K).
  destruct (onClose_run env st (shape_names_dir st _ n F D)) as (O & _ & I & _).
  split; [exact S|]. split; [exact O|]. exists n. split; [exact K|]. now rewrite I.
Qed.

Lemma close_cleans_in_order_witness :
  let manifests := ["package.json"; "packages/a/package.json"] in
  let env := Sample.env manifests in
  let first :=
    Sample.initializeRequest 1 [("rootUri", JStr "https://example.com/repo.zip")] in
  let st := finalState (onClientMessage env first) (finalState onConnection initialState) in
  let t := events onConnection initialState
           ++ events (onClientMessage env first) (finalState onConnection initialState) in
  inTurn env t st
  /\ invocations (events (onClose env) st)
     = [KillYarn "/tmp/example.com_repo.zip_uuid0/repo/packages/a";
        KillYarn "/tmp/example.com_repo.zip_uuid0/repo";
        DisposeLanguageServer; DeleteTempDir]
  /\ length (mkdirs t) = 3
  /\ spawns t = 1.
Proof.
  intros manifests env first st t.
  assert (H : inTurn env t st) by (apply turn_client, turn_open).
  split; [exact H|]. split; [reflexivity|]. split; [reflexivity|].
  exact (proj1 (close_cleans_in_order env t st H)).
Defined.

(** X13.  In a session without overlap, the deletions at close all aim
    at one directory, the one the session names last: the close handler
    gives [rmfr] the current value of [tempDir], once for every handshake
    that made its temporary directory (each of which went on to three
    calls of [fs.mkdir]), and nothing else.  So after several handshakes,
    each of which made a directory of its own, the last directory is
    deleted as many times as there were handshakes and the directories of
    the earlier ones are not deleted. *)
Theorem close_deletes_current_tempDir env t st :
  inTurn env t st ->
  exists n dir,
    length (mkdirs t) = 3 * n
    /\ (n <> 0 -> tempDir st = Some dir)
    /\ removed (events (onClose env) st) = repeat dir n.
Proof.
  intros H. destruct (inTurn_shape env t st H) as (_ & n & F & D & K).
  destruct (onClose_run env st (shape_names_dir st _ n F D)) as (_ & _ & _ & R).
  exists n. rewrite R, F, !collect_app.
  rewrite collect_kills by reflexivity. rewrite collect_deletes. cbn [collect app].
  destruct (tempDir st) as [dir|] eqn:E.
  - exists dir. auto.
  - exists "". split; [exact K|]. split; [intros Hn; now destruct (D Hn)|].
    destruct n as [|n]; [reflexivity | now destruct D].
Qed.

Lemma close_deletes_current_tempDir_witness :
  let env := Sample.env [] in
  let first :=
    Sample.initializeRequest 1 [("rootUri", JStr "https://example.com/repo.zip")] in
  let second :=
    Sample.initializeRequest 2 [("rootUri", JStr "https://example.com/repo.zip")] in
  let st0 := finalState onConnection initialState in
  let st1 := finalState (onClientMessage env first) st0 in
  let st2 := finalState (onClientMessage env second) st1 in
  let t := (events onConnection initialState ++ events (onClientMessage env first) st0)
           ++ events (onClientMessage env second) st1 in
  inTurn env t st2
  /\ made t = ["/tmp/example.com_repo.zip_uuid0"; "/tmp/example.com_repo.zip_uuid1"]
  /\ length (mkdirs t) = 3 * 2
  /\ removed (events (onClose env) st2)
     = ["/tmp/example.com_repo.zip_uuid1"; "/tmp/example.com_repo.zip_uuid1"]
  /\ exists n dir,
       length (mkdirs t) = 3 * n
       /\ (n <> 0 -> tempDir st2 = Some dir)
       /\ removed (events (onClose env) st2) = repeat dir n.
Proof.
  intros env first second st0 st1 st2 t.
  assert (H : inTurn env t st2) by (apply turn_client, turn_client, turn_open).
  split; [exact H|]. split; [reflexivity|]. split; [reflexivity|].
  split; [reflexivity|].
  exact (close_deletes_current_tempDir env t st2 H).
Defined.

End SessionRuns.

(* ===================================================================== *)
(** ** Messages of the language server                                   *)
(* ===================================================================== *)

Module ReplyFacts.
Import Json Url Proxy Observe Rewriting Sessions.

(** An event that finishes a span. *)
#[local] Abbreviation finishes := (fun ev : Event => exists span, ev = SpanFinish span).

(** The run of the callback and of the write that follows it: spans are
    finished first, then the message, with [_trace] added or not, is
    rewritten, and written to the client when that succeeds. *)
Lemma forward_run env message st :
  exists fin m0 st',
    Forall finishes fin
    /\ (forall k, k <> "_trace" -> prop k m0 = prop k message)
    /\ sameRoots st st'
    /\ connectionCleanupFns st' = connectionCleanupFns st
    /\ forward env message st
       = match rewriteUris env (transformFileToZipUri env st') m0 with
         | Ok m' => (Ok tt, st', fin ++ [ToClient m'])
         | Throw e => (Throw e, st', fin)
         end.
Proof.
  assert (Hplain : forall s0 : State,
             s0 = st ->
             exists fin m0 st',
               Forall finishes fin
               /\ (forall k, k <> "_trace" -> prop k m0 = prop k message)
               /\ sameRoots st st'
               /\ connectionCleanupFns st' = connectionCleanupFns st
               /\ match rewriteUris env (transformFileToZipUri env s0) message with
                  | Ok m' => (Ok tt, s0, [ToClient m'])
                  | Throw e => (Throw e, s0, [])
                  end
                  = match rewriteUris env (transformFileToZipUri env st') m0 with
                    | Ok m' => (Ok tt, st', fin ++ [ToClient m'])
                    | Throw e => (Throw e, st', fin)
                    end).
  { intros s0 ->. exists [], message, st. repeat split; auto. }
  assert (Hsame : forall (c : M unit),
             c st = match rewriteUris env (transformFileToZipUri env st) message with
                    | Ok m' => (Ok tt, st, [ToClient m'])
                    | Throw e => (Throw e, st, [])
                    end ->
             exists fin m0 st',
               Forall finishes fin
               /\ (forall k, k <> "_trace" -> prop k m0 = prop k message)
               /\ sameRoots st st'
               /\ connectionCleanupFns st' = connectionCleanupFns st
               /\ c st
                  = match rewriteUris env (transformFileToZipUri env st') m0 with
                    | Ok m' => (Ok tt, st', fin ++ [ToClient m'])
                    | Throw e => (Throw e, st', fin)
                    end).
  { intros c ->. now apply Hplain. }
  assert (Hleaf : forall m,
             (do message0 <- (do message1 <- ret m ;;
                              do st0 <- get ;;
                              lift (rewriteUris env (transformFileToZipUri env st0) message1)) ;;
              emit (ToClient message0)) st
             = match rewriteUris env (transformFileToZipUri env st) m with
               | Ok m' => (Ok tt, st, [ToClient m'])
               | Throw e => (Throw e, st, [])
               end).
  { intros m. unfold bind, ret, get, lift, emit. simpl.
    now destruct (rewriteUris env (transformFileToZipUri env st) m). }
  unfold forward, onServerMessage.
  destruct (isResponseMessage message
            && negb match prop "id" message with Some JNull => true | _ => false end);
    [|apply Hsame, Hleaf].
  destruct (idOf (prop "id" message)) as [id|]; [|apply Hsame, Hleaf].
  destruct (requestSpans st !! id) as [span|] eqn:Hl.
  - set (m0 := match message with
               | JObj fields =>
                   if lightstep env
                   then JObj (obj_set "_trace" (JStr (generateTraceURL env span)) fields)
                   else message
               | _ => message
               end).
    exists [SpanFinish span], m0, (set_requestSpans (delete id (requestSpans st)) st).
    split; [repeat constructor; now exists span|].
    split.
    { intros k Hk. unfold m0. destruct message as [| | | | |fields]; try reflexivity.
      destruct (lightstep env); [|reflexivity].
      simpl. now apply HandshakeFacts.obj_get_set_other. }
    split; [repeat split|]. split; [reflexivity|].
    unfold bind, ret, get, lift, emit, modify. simpl. rewrite Hl. simpl. fold m0.
    now destruct (rewriteUris env _ m0).
  - apply Hsame. unfold bind, ret, get, lift, emit. simpl. rewrite Hl. simpl.
    now destruct (rewriteUris env (transformFileToZipUri env st) message).
Qed.

Lemma finishes_trace fin :
  Forall finishes fin -> toServer fin = [] /\ toClient fin = [] /\ calls fin = [].
Proof.
  induction 1 as [|ev fin (span & ->) _ (IH1 & IH2 & IH3)]; simpl; auto.
Qed.

(** X14.  A message of the language server never causes a write to the
    language server, a call to the file system, the network or a
    process, or a change of the roots and of the cleanup list of the
    session.  It is written to the client once, with the identifier and
    the method it came with, when rewriting its addresses succeeds; when
    rewriting throws, nothing is written to the client and nothing is
    logged: the only events are the spans that were finished. *)
Theorem server_message_fate env st message :
  let run := forward env message in
  toServer (events run st) = []
  /\ calls (events run st) = []
  /\ sameRoots st (finalState run st)
  /\ connectionCleanupFns (finalState run st) = connectionCleanupFns st
  /\ match outcome run st with
     | Ok _ =>
         exists m',
           toClient (events run st) = [m']
           /\ idOf (prop "id" m') = idOf (prop "id" message)
           /\ methodOf m' = methodOf message
     | Throw e =>
         toClient (events run st) = []
         /\ Forall (fun ev => exists span, ev = SpanFinish span) (events run st)
     end.
Proof.
  intros run. unfold run, events, finalState, outcome.
  destruct (forward_run env message st) as (fin & m0 & st' & Hfin & Hprop & Hroots & Hfns & ->).
  destruct (finishes_trace fin Hfin) as (S & C & K).
  destruct (rewriteUris env (transformFileToZipUri env st') m0) as [m'|e] eqn:Hrw;
    cbn [fst snd]; unfold toServer, toClient, calls in *.
  - rewrite !TraceFacts.collect_app, List.filter_app, S, C, K. simpl.
    split; [reflexivity|]. split; [reflexivity|]. split; [exact Hroots|].
    split; [exact Hfns|]. exists m'. split; [reflexivity|].
    apply RewritingFacts.rewriteUris_mapUris in Hrw. subst m'.
    destruct (RewritingFacts.mapUris_kind (force env (transformFileToZipUri env st')) m0)
      as (_ & _ & _ & Hmethod & Hid).
    rewrite Hmethod, Hid. unfold methodOf.
    now rewrite !Hprop by discriminate.
  - rewrite S, C, K. split; [reflexivity|]. split; [reflexivity|].
    split; [exact Hroots|]. split; [exact Hfns|]. split; [reflexivity | exact Hfin].
Qed.

End ReplyFacts.

(* ===================================================================== *)
(** ** Locations                                                         *)
(* ===================================================================== *)

Module LocationFacts.
Import Proxy Locations.

Section URI.
Variable SgURI : Type.
Variable newURI : Hover.jstring -> Outcome SgURI.

(** A location and its conversion: the address the constructor built,
    and the range, without a negative number, with its ends in order. *)
#[local] Abbreviation converted :=
  (fun (i : Location) (o : SgLocation SgURI) =>
     newURI (uri i) = Ok (sg_uri o)
     /\ Hover.nonNegative (range i)
     /\ sg_range o = Hover.ordered (range i)).

(** Why the conversion of one location throws: the constructor of the
    address throws, or it returns and the range has a negative
    number. *)
#[local] Abbreviation failsWith :=
  (fun (x : Location) (e : Thrown) =>
     (exists e', newURI (uri x) = Throw e' /\ e = ByURI e')
     \/ (exists u e',
           newURI (uri x) = Ok u /\ ~ Hover.nonNegative (range x)
           /\ Hover.convertRange (range x) = Hover.Throws e' /\ e = ByRange e')).

Lemma convertLocation_cases x :
  match convertLocation SgURI newURI x with
  | Done o => converted x o
  | Failed e => failsWith x e
  end.
Proof.
  unfold convertLocation.
  destruct (newURI (uri x)) as [u|e] eqn:E; [|left; now exists e].
  pose proof (HoverFacts.convertRange_cases (range x)) as C.
  destruct (Hover.convertRange (range x)) as [r|e] eqn:Er.
  - destruct C as [Hn ->]. cbn. auto.
  - right. exists u, e. auto.
Qed.

Lemma mapArray_convert ls :
  match mapArray (convertLocation SgURI newURI) ls with
  | Done out => Forall2 converted ls out
  | Failed e =>
      exists before x after,
        ls = before ++ x :: after
        /\ failsWith x e
        /\ Forall (fun i => exists o, converted i o) before
  end.
Proof.
  induction ls as [|x ls IH]; cbn [mapArray]; [constructor|].
  pose proof (convertLocation_cases x) as C.
  destruct (convertLocation SgURI newURI x) as [o|e].
  - destruct (mapArray (convertLocation SgURI newURI) ls) as [out|e].
    + constructor; [exact C | exact IH].
    + destruct IH as (before & y & after & -> & Hy & Hb).
      exists (x :: before), y, after. split; [reflexivity|]. split; [exact Hy|].
      constructor; [now exists o | exact Hb].
  - exists [], x, ls. split; [reflexivity|]. split; [exact C | constructor].
Qed.

(** X15.  [convertLocations] returns null for null only: an empty
    array gives an empty array.  For one location or an array it
    converts the locations in the order given, and each of them by
    building first its address with the [sourcegraph.URI] constructor
    and then its range with the [sourcegraph.Range] constructor.  When
    it returns, there is one location for each location given, in
    order, with the address built and the range with its ends in
    order, no range having a negative number.  When it throws, the
    exception is that of the first location for which one of the two
    constructors throws: the exception of the address if that
    constructor throws, otherwise the refusal of a negative line or
    character. *)
Theorem convertLocations_result l :
  (convertLocations SgURI newURI l = Done None <-> l = None)
  /\ forall ls,
       l = Some ls ->
       match convertLocations SgURI newURI l with
       | Done r => exists out, r = Some out /\ Forall2 converted (given ls) out
       | Failed e =>
           exists before x after,
             given ls = before ++ x :: after
             /\ failsWith x e
             /\ Forall (fun i => exists o, converted i o) before
       end.
Proof.
  split.
  - destruct l as [ls|]; [|tauto]. cbn [convertLocations].
    destruct (mapArray _ _); split; discriminate.
  - intros ls ->. cbn [convertLocations].
    change (match ls with Many ls0 => ls0 | One x => [x] end) with (given ls).
    pose proof (mapArray_convert (given ls)) as H.
    destruct (mapArray (convertLocation SgURI newURI) (given ls)) as [out|e];
      [now exists out | exact H].
Qed.
End URI.

End LocationFacts.

(* ===================================================================== *)
(** ** Entries of a hover that are shown                                 *)
(* ===================================================================== *)

Module ShownFacts.
Import Hover Shown.

#[local] Abbreviation kept := (fun str : jstring => truthy (trim str) = true).

Lemma fence_shown l v : v <> [] -> truthy (trim (renderContent (CCode l v))) = true.
Proof.
  intros Hv. apply HoverFacts.truthy_trim. intros Hb.
  unfold renderContent in Hb. destruct v as [|x v]; [contradiction|].
  cbn in Hb. inversion Hb as [|? ? H96 _]. discriminate.
Qed.

Lemma rendered_shown c : truthy (trim (renderContent c)) = shown c.
Proof.
  destruct c as [k v|s|l v]; try reflexivity.
  destruct v as [|x v]; [reflexivity|].
  now rewrite fence_shown.
Qed.

Lemma filter_rendered cs :
  filter kept (List.map renderContent cs)
  = List.map renderContent (List.filter shown cs).
Proof.
  induction cs as [|c cs IH]; [reflexivity|].
  cbn [List.map List.filter]. rewrite filter_cons, IH, <- rendered_shown.
  destruct (truthy (trim (renderContent c))) eqn:E.
  - now rewrite decide_True.
  - rewrite decide_False; [reflexivity | congruence].
Qed.

Lemma join_nil l :
  Forall (fun s => s <> []) l -> join separator l = [] -> l = [].
Proof.
  intros H. destruct H as [|s l Hs Hl]; [reflexivity|].
  destruct l as [|t l]; cbn [join]; intros E; [contradiction|].
  now destruct s.
Qed.

(** X16.  For a hover whose range is absent or has no negative line or
    character, [convertHover] returns a hover, and which entries are
    shown is decided entry by entry: a [MarkupContent] or a string is
    shown when it is not blank, a language-tagged entry when its value is
    not empty, also when that value is only white space.  The value of
    the result is the rendering of the entries shown, joined by the
    separator; it is the empty string exactly when no entry is shown, the
    result being a hover and not null also then. *)
Theorem hover_shows_entries h :
  (forall r, range h = Some r -> nonNegative r) ->
  let value :=
    join separator (List.map renderContent (List.filter shown (entries h))) in
  convertHover (Some h)
  = Returns
      (Some {| sg_range := option_map ordered (range h);
               sg_contents := {| sg_kind := Markdown; sg_value := value |} |})
  /\ (value = [] <-> forall c, In c (entries h) -> shown c = false).
Proof.
  intros Hr value. split.
  - unfold convertHover. rewrite HoverFacts.convertedRange_returns by exact Hr.
    unfold value, entries. now rewrite filter_rendered.
  - unfold value. split.
    + intros Hnil c Hc. apply join_nil in Hnil.
      * destruct (shown c) eqn:Es; [|reflexivity].
        assert (Hin : In c (List.filter shown (entries h))) by (apply filter_In; auto).
        apply (in_map renderContent) in Hin. rewrite Hnil in Hin. destruct Hin.
      * apply List.Forall_forall. intros s Hs.
        apply in_map_iff in Hs as (c' & <- & Hc'). apply filter_In in Hc' as [_ Hs].
        rewrite <- rendered_shown in Hs. intros E0. rewrite E0 in Hs. discriminate.
    + intros Hnone.
      assert (En : List.filter shown (entries h) = []).
      { clear value. induction (entries h) as [|c cs IH]; [reflexivity|].
        cbn [List.filter]. rewrite (Hnone c) by now left.
        apply IH. intros c' Hc'. apply Hnone. now right. }
      now rewrite En.
Qed.

Lemma hover_shows_entries_witness :
  let h := {| contents := Array [CCode (lit "ts") (lit " "); CString (lit "  ");
                                 CCode (lit "ts") []];
              range := None |} in
  (forall r, range h = Some r -> nonNegative r)
  /\ convertHover (Some h)
     = Returns
         (Some {| sg_range := None;
                  sg_contents :=
                    {| sg_kind := Markdown;
                       sg_value := [96; 96; 96; 116; 115; 10; 32; 10; 96; 96; 96]%N |} |}).
Proof.
  intros h.
  assert (Hr : forall r, range h = Some r -> nonNegative r) by discriminate.
  split; [exact Hr|]. exact (proj1 (hover_shows_entries h Hr)).
Defined.

End ShownFacts.
